(** * NiMu risk governance: relationship graph and network analytics

    A shallow embedding of
    - [risk_governance/data_fetchers/companies_house_fetcher.py]
      ([build_company_network] and its three edge rules), and
    - [risk_governance/detection/network_analyzer.py]
      ([NetworkAnalyzer]),
    together with the properties of the design document that concern them.
    The modules [FetcherMore], [AnalyzerMore], [Report] and [Client] at the
    end cover more of the two files: the requests of the fetcher, further
    properties of the graph and of the analysis, and the method of
    [risk_governance/analysis/real_data_analysis.py] that reads the metrics.

    Conventions.  A Python [dict] whose iteration order the code observes is
    an association list in insertion order; a [dict] that is only indexed is
    a [gmap].  A Python [set] is a duplicate-free list, and the order in
    which Python iterates over it (which the language leaves open) is a
    parameter, [PySetOrder].  An exception is the name of its class. *)

From Stdlib Require Import QArith.
From stdpp Require Import gmap strings list fin_maps sorting.

Open Scope string_scope.
Open Scope list_scope.
Open Scope nat_scope.

(** ** Python-level notions shared by both files *)

Module Py.

(** Iteration order of a Python [set].  [set_list l] enumerates the set
    whose members are those of [l]: every member once, in some order. *)
Class PySetOrder (A : Type) := {
  set_list : list A → list A;
  set_list_NoDup : ∀ l, NoDup (set_list l);
  set_list_elem : ∀ l x, x ∈ set_list l ↔ x ∈ l
}.

(** [s.add(c)] on a set kept as a duplicate-free list. *)
Definition set_add `{EqDecision A} (c : A) (s : list A) : list A :=
  if decide (c ∈ s) then s else s ++ [c].

(** Insertion order is one admissible iteration order. *)
#[export] Program Instance insertion_order `{EqDecision A} : PySetOrder A :=
  {| set_list l := remove_dups l |}.
Next Obligation. intros. apply NoDup_remove_dups. Qed.
Next Obligation. intros. apply elem_of_remove_dups. Qed.

(** Reverse insertion order is another one. *)
Program Definition reverse_order `{EqDecision A} : PySetOrder A :=
  {| set_list l := reverse (remove_dups l) |}.
Next Obligation. intros. rewrite reverse_Permutation. apply NoDup_remove_dups. Qed.
Next Obligation. intros. rewrite elem_of_reverse. apply elem_of_remove_dups. Qed.

End Py.

(** ** The graph: [networkx.Graph] as the two files use it *)

Module Nx.

(** A value stored under an edge attribute. *)
Inductive AttrVal :=
  | VStr (s : string)
  | VNum (q : Q).

(** The attribute dictionary of an edge. *)
Abbreviation EdgeData := (gmap string AttrVal).

Record DateOfBirth := { dob_month : option Z; dob_year : option Z }.
Record Officer := { officer_name : option string; date_of_birth : option DateOfBirth }.
Record Address := { address_line_1 : option string; postal_code : option string }.
Record Psc := { psc_kind : option string; psc_name : option string }.

(** The attribute dictionary of a node, with the keys that
    [build_company_network] sets. *)
Record NodeAttr := {
  incorporation_date : option string;
  company_type : option string;
  company_status : option string;
  sic_codes : list string;
  registered_office : option Address;
  directors : list Officer;
  node_psc : list Psc;
  node_filing_history : list string
}.

(** The attribute dictionary of a node that [add_edge] creates on the fly. *)
Definition no_attr : NodeAttr :=
  {| incorporation_date := None; company_type := None; company_status := None;
     sic_codes := []; registered_office := None; directors := [];
     node_psc := []; node_filing_history := [] |}.

(** [nx.Graph]: an undirected simple graph.  [g_node] is [G._node] in
    insertion order; [g_adj] is [G._adj], where [g_adj !! (u, v)] stands for
    [G._adj[u][v]].  There is one attribute dictionary per adjacent pair. *)
Record Graph := {
  g_node : list (string * NodeAttr);
  g_adj : gmap (string * string) EdgeData
}.

(** [nx.Graph()] *)
Definition empty_graph : Graph := {| g_node := []; g_adj := ∅ |}.

(** [G.nodes()] *)
Definition nodes (G : Graph) : list string := (g_node G).*1.

(** [G._node[n] = attr], keeping the position of a key that is present. *)
Fixpoint node_update (n : string) (a : NodeAttr) (l : list (string * NodeAttr))
  : list (string * NodeAttr) :=
  match l with
  | [] => [(n, a)]
  | (m, b) :: t => if decide (m = n) then (m, a) :: t else (m, b) :: node_update n a t
  end.

(** [G.add_node(n, **attr)] with all eight attributes given. *)
Definition add_node (n : string) (a : NodeAttr) (G : Graph) : Graph :=
  {| g_node := node_update n a (g_node G); g_adj := g_adj G |}.

(** The part of [add_edge] that makes sure an end point is a node. *)
Definition ensure_node (n : string) (l : list (string * NodeAttr))
  : list (string * NodeAttr) :=
  if decide (n ∈ l.*1) then l else l ++ [(n, no_attr)].

(** [G.add_edge(u, v, **attr)]: the dictionary of the pair, a new one when
    the pair is not adjacent yet, is updated with [attr] and stored under
    both [u][v] and [v][u]. *)
Definition add_edge (u v : string) (attr : EdgeData) (G : Graph) : Graph :=
  let datadict := attr ∪ default ∅ (g_adj G !! (u, v)) in
  {| g_node := ensure_node v (ensure_node u (g_node G));
     g_adj := <[(v, u) := datadict]> (<[(u, v) := datadict]> (g_adj G)) |}.

(** The edges between [u] and [v], each as its attribute dictionary.  A
    [nx.Graph] holds at most one. *)
Definition edges_between (G : Graph) (u v : string) : list EdgeData :=
  option_list (g_adj G !! (u, v)).

(** There is an edge between [u] and [v] of type [ty] and strength [st]. *)
Definition typed_edge (G : Graph) (u v : string) (ty : string) (st : Q) : Prop :=
  ∃ d, d ∈ edges_between G u v
       ∧ d !! "relationship_type" = Some (VStr ty)
       ∧ d !! "strength" = Some (VNum st).

(** The type and the strength of the edges between [u] and [v], as
    [d.get('relationship_type')] and [d.get('strength')]. *)
Definition edge_types (G : Graph) (u v : string)
  : list (option AttrVal * option AttrVal) :=
  (λ d : EdgeData, (d !! "relationship_type", d !! "strength"))
    <$> edges_between G u v.

(** Two graphs have the same edges, each edge taken as an unordered pair of
    nodes with a type and a strength. *)
Definition same_edge_set (G1 G2 : Graph) : Prop :=
  ∀ u v ty st,
    (typed_edge G1 u v ty st ∨ typed_edge G1 v u ty st)
    ↔ (typed_edge G2 u v ty st ∨ typed_edge G2 v u ty st).

End Nx.

(** ** [CompaniesHouseFetcher.build_company_network] *)

Module Fetcher.
Import Py Nx.

(** *** Input: the bundles of [get_complete_company_data] *)

(** A company profile.  [profile['company_number']] is read without a
    default, so the field is always there. *)
Record Profile := {
  company_number : string;
  date_of_creation : option string;
  profile_type : option string;
  profile_status : option string;
  profile_sic_codes : list string;
  registered_office_address : option Address
}.

(** One element of [companies_data].  [profile = None] stands for a profile
    that fails the test [if profile:]; likewise [registered_office_address
    = None] for an address that fails [if address:]. *)
Record Bundle := {
  profile : option Profile;
  officers : list Officer;
  psc : list Psc;
  filing_history : list string
}.

(** *** Grouping dictionaries *)

(** [if key not in d: d[key] = set()] followed by [d[key].add(c)], on a
    dictionary in insertion order. *)
Fixpoint group_add `{EqDecision K} (k : K) (c : string)
    (d : list (K * list string)) : list (K * list string) :=
  match d with
  | [] => [(k, set_add c [])]
  | (k', s) :: t =>
      if decide (k' = k) then (k', set_add c s) :: t
      else (k', s) :: group_add k c t
  end.

(** The pairs [(l[i], l[j])] for [i] in [range(len(l))] and [j] in
    [range(i+1, len(l))], in the order of the two nested loops. *)
Fixpoint index_pairs (l : list string) : list (string * string) :=
  match l with
  | [] => []
  | x :: t => map (pair x) t ++ index_pairs t
  end.

(** The body of [for companies in d.values()]: a group of two or more is
    listed and every pair of it gets an edge with the rule's attributes. *)
Definition link_group `{PySetOrder string} (attr : EdgeData)
    (G : Graph) (companies : list string) : Graph :=
  if decide (1 < length companies) then
    let companies := set_list companies in
    foldl (λ G '(a, b), add_edge a b attr G) G (index_pairs companies)
  else G.

Definition link_groups `{PySetOrder string} {K} (attr : EdgeData)
    (G : Graph) (d : list (K * list string)) : Graph :=
  foldl (link_group attr) G d.*2.

(** The keyword arguments of the three [add_edge] calls. *)
Definition edge_attr (ty : string) (st : Q) : EdgeData :=
  <["relationship_type" := VStr ty]> (<["strength" := VNum st]> ∅).

(** *** Rule 1: shared directors *)

Definition DirectorKey : Type := option string * option Z * option Z.

(** [(officer.get('name'), officer.get('date_of_birth', {}).get('month'),
    officer.get('date_of_birth', {}).get('year'))] *)
Definition director_key (o : Officer) : DirectorKey :=
  (officer_name o,
   dob ← date_of_birth o; dob_month dob,
   dob ← date_of_birth o; dob_year dob).

Definition director_companies (companies_data : list Bundle)
  : list (DirectorKey * list string) :=
  foldl (λ d data,
           match profile data with
           | None => d
           | Some p =>
               foldl (λ d officer, group_add (director_key officer) (company_number p) d)
                     d (officers data)
           end) [] companies_data.

Definition _add_director_relationships `{PySetOrder string}
    (G : Graph) (companies_data : list Bundle) : Graph :=
  link_groups (edge_attr "shared_director" 0.7) G (director_companies companies_data).

(** *** Rule 2: shared registered office *)

Definition AddressKey : Type := option string * option string.

Definition address_key (a : Address) : AddressKey :=
  (address_line_1 a, postal_code a).

Definition address_companies (companies_data : list Bundle)
  : list (AddressKey * list string) :=
  foldl (λ d data,
           match profile data with
           | None => d
           | Some p =>
               match registered_office_address p with
               | Some address => group_add (address_key address) (company_number p) d
               | None => d
               end
           end) [] companies_data.

Definition _add_address_relationships `{PySetOrder string}
    (G : Graph) (companies_data : list Bundle) : Graph :=
  link_groups (edge_attr "shared_address" 0.6) G (address_companies companies_data).

(** *** Rule 3: shared corporate PSC *)

Definition psc_companies (companies_data : list Bundle)
  : list (option string * list string) :=
  foldl (λ d data,
           match profile data with
           | None => d
           | Some p =>
               foldl (λ d q,
                        if decide (psc_kind q = Some "corporate-entity")
                        then group_add (psc_name q) (company_number p) d
                        else d)
                     d (psc data)
           end) [] companies_data.

Definition _add_psc_relationships `{PySetOrder string}
    (G : Graph) (companies_data : list Bundle) : Graph :=
  link_groups (edge_attr "shared_psc" 0.8) G (psc_companies companies_data).

(** *** The graph *)

Definition node_attr (p : Profile) (data : Bundle) : NodeAttr :=
  {| incorporation_date := date_of_creation p;
     company_type := profile_type p;
     company_status := profile_status p;
     sic_codes := profile_sic_codes p;
     registered_office := registered_office_address p;
     directors := officers data;
     node_psc := psc data;
     node_filing_history := filing_history data |}.

Definition add_company_nodes (G : Graph) (companies_data : list Bundle) : Graph :=
  foldl (λ G data,
           match profile data with
           | Some p => add_node (company_number p) (node_attr p data) G
           | None => G
           end) G companies_data.

Definition build_company_network `{PySetOrder string}
    (companies_data : list Bundle) : Graph :=
  let G := empty_graph in
  let G := add_company_nodes G companies_data in
  let G := _add_director_relationships G companies_data in
  let G := _add_address_relationships G companies_data in
  let G := _add_psc_relationships G companies_data in
  G.

(** *** Which rules propose an edge for a pair

    These definitions follow the wording of the design document, not the
    code: a rule proposes an edge between two distinct entities when they
    have a grouping key of that rule in common. *)

Inductive Rule := SharedDirector | SharedAddress | SharedPsc.

#[export] Instance Rule_eq_dec : EqDecision Rule.
Proof. solve_decision. Defined.

Definition rule_type (r : Rule) : string :=
  match r with
  | SharedDirector => "shared_director"
  | SharedAddress => "shared_address"
  | SharedPsc => "shared_psc"
  end.

Definition rule_strength (r : Rule) : Q :=
  match r with
  | SharedDirector => 0.7
  | SharedAddress => 0.6
  | SharedPsc => 0.8
  end.

(** The bundles of entity [c] that have a profile. *)
Definition bundles_of (companies_data : list Bundle) (c : string) : list Bundle :=
  filter (λ data, company_number <$> profile data = Some c) companies_data.

Definition director_keys (companies_data : list Bundle) (c : string) : list DirectorKey :=
  data ← bundles_of companies_data c; director_key <$> officers data.

Definition address_keys (companies_data : list Bundle) (c : string) : list AddressKey :=
  data ← bundles_of companies_data c;
  option_list (address_key <$> (profile data ≫= registered_office_address)).

Definition psc_keys (companies_data : list Bundle) (c : string) : list (option string) :=
  data ← bundles_of companies_data c;
  psc_name <$> filter (λ q, psc_kind q = Some "corporate-entity") (psc data).

Definition common_key {K} (ku kv : list K) : Prop := Exists (λ k, k ∈ kv) ku.

Definition proposes (companies_data : list Bundle) (r : Rule) (u v : string) : Prop :=
  u ≠ v ∧
  match r with
  | SharedDirector =>
      common_key (director_keys companies_data u) (director_keys companies_data v)
  | SharedAddress =>
      common_key (address_keys companies_data u) (address_keys companies_data v)
  | SharedPsc =>
      common_key (psc_keys companies_data u) (psc_keys companies_data v)
  end.

#[export] Instance proposes_dec companies_data r u v :
  Decision (proposes companies_data r u v).
Proof. unfold proposes, common_key. destruct r; apply _. Defined.

(** The rules that propose an edge for the pair, in the order in which
    [build_company_network] applies them. *)
Definition proposing_rules (companies_data : list Bundle) (u v : string) : list Rule :=
  filter (λ r, proposes companies_data r u v) [SharedDirector; SharedAddress; SharedPsc].

End Fetcher.

(** ** [NetworkAnalyzer] *)

Module Analyzer.
Import Py Nx.

(** *** Exceptions, floats and loops *)

(** An exception, by the name of its class. *)
Definition exn : Type := string.

(** The outcome of a call: a value, or an exception that propagates. *)
Inductive result (A : Type) : Type :=
  | Ok (a : A)
  | Raise (e : exn).
Arguments Ok {A} a.
Arguments Raise {A} e.

#[export] Instance result_ret : MRet result := λ A a, Ok a.
#[export] Instance result_bind : MBind result :=
  λ A B f r, match r with Ok a => f a | Raise e => Raise e end.

(** [for x in l: s = f(s, x)], left as soon as a step raises. *)
Fixpoint for_each {X S} (f : S → X → result S) (s : S) (l : list X) : result S :=
  match l with
  | [] => Ok s
  | x :: t => s' ← f s x; for_each f s' t
  end.

(** [d[k]] *)
Definition index {V} (d : gmap string V) (k : string) : result V :=
  match d !! k with
  | Some v => Ok v
  | None => Raise "KeyError"
  end.

(** A Python [float] by its exact value.  The code only compares floats,
    and comparison of doubles agrees with comparison of their values; a NaN
    compares false with everything. *)
Inductive pyfloat :=
  | Finite (q : Q)
  | PosInf
  | NegInf
  | NaN.

Definition Qltb (x y : Q) : bool := negb (Qle_bool y x).

(** [x < y] *)
Definition float_lt (x y : pyfloat) : bool :=
  match x, y with
  | NaN, _ | _, NaN => false
  | Finite a, Finite b => Qltb a b
  | _, NegInf => false
  | NegInf, _ => true
  | PosInf, _ => false
  | Finite _, PosInf => true
  end.

(** [x > y] *)
Definition float_gt (x y : pyfloat) : bool := float_lt y x.

(** *** Results of the analysis *)

(** The dictionary of centrality measures of one node. *)
Record Centrality := {
  degree : pyfloat;
  betweenness : pyfloat;
  eigenvector : pyfloat;
  pagerank : pyfloat;
  load : pyfloat;
  katz : pyfloat;
  clustering : pyfloat;
  reach : pyfloat
}.

(** A risk-pattern dictionary.  ['type'] is always there; a key that a
    pattern does not have is [None]. *)
Record RiskPattern := {
  p_type : string;
  p_entities : option (list string);
  p_hub : option string;
  p_spokes : option (list string);
  p_date : option string;
  p_shared_attributes : option (list (string * list string));
  p_risk_level : option string
}.

Record NetworkMetrics := {
  centrality_scores : gmap string Centrality;
  community_membership : gmap string Z;
  risk_patterns : list RiskPattern;
  temporal_patterns : list RiskPattern;
  suspicious_cycles : list (list string);
  anomaly_scores : gmap string pyfloat
}.

(** One element of the list that [get_high_risk_entities] returns. *)
Record HighRisk := {
  entity : string;
  risk_factors : list string;
  anomaly_score : pyfloat;
  entity_centrality : Centrality
}.

Abbreviation matrix := (list (list pyfloat)).

(** *** What the class calls and does not define

    The routines of networkx, python-louvain, scikit-learn and numpy, and
    the methods of [NetworkAnalyzer] that the class calls without defining
    them.  Each may raise.

    A value of [Libs] is what these routines answer in the course of ONE
    call of a method of the class.  [community.best_partition] is called
    without [random_state] and is randomised, so that two calls of a
    method on the same graph are two values of [Libs], which may differ in
    [best_partition]. *)
Record Libs := {
  nx_degree_centrality : Graph → result (gmap string pyfloat);
  nx_betweenness_centrality : Graph → result (gmap string pyfloat);
  (** [nx.eigenvector_centrality(G, max_iter=n)] *)
  nx_eigenvector_centrality : Graph → nat → result (gmap string pyfloat);
  nx_pagerank : Graph → result (gmap string pyfloat);
  nx_load_centrality : Graph → result (gmap string pyfloat);
  nx_katz_centrality : Graph → result (gmap string pyfloat);
  nx_clustering : Graph → string → result pyfloat;
  (** [community.best_partition(G)] *)
  best_partition : Graph → result (gmap string Z);
  (** [nx.label_propagation_communities(G)], the communities in the order
      in which they are yielded *)
  nx_label_propagation_communities : Graph → result (list (list string));
  (** [list(nx.community.girvan_newman(G))]: a list of tuples of sets *)
  nx_girvan_newman : Graph → result (list (list (list string)));
  (** [list(nx.simple_cycles(G))] *)
  nx_simple_cycles : Graph → result (list (list string));
  (** [StandardScaler().fit_transform(X)] *)
  sk_fit_transform : matrix → result matrix;
  (** [np.cov(X.T)] *)
  np_cov_T : matrix → result matrix;
  np_linalg_inv : matrix → result matrix;
  (** [np.mean(X, axis=0)] *)
  np_mean_axis0 : matrix → result (list pyfloat);
  (** [row - mean] *)
  np_sub : list pyfloat → list pyfloat → result (list pyfloat);
  (** [diff.dot(inv_cov).dot(diff.T)] *)
  np_quadratic_form : list pyfloat → matrix → result pyfloat;
  np_sqrt : pyfloat → pyfloat;
  _calculate_reach_centrality : Graph → string → result pyfloat;
  _find_circular_ownership : Graph → result (list (list string));
  _identify_hub_spoke_patterns : Graph → result (list (string * list string));
  _analyze_network_growth : Graph → result (list RiskPattern);
  _identify_isolated_subgroups : Graph → result (list (list string));
  _check_shared_attributes : Graph → list string → result (list (string * list string));
  _calculate_cycle_risk : Graph → list string → result pyfloat
}.

(** [self.risk_threshold = 0.75] *)
Definition self_risk_threshold : pyfloat := Finite 0.75.

(** The default of [max_iter] in [nx.eigenvector_centrality]. *)
Definition default_max_iter : nat := 100.

Section analyzer.
Context (L : Libs).
Variable G : Graph.

(** *** [_calculate_centrality_metrics] *)

(** The dictionary literal in the loop body; its entries are evaluated in
    the order in which they are written. *)
Definition node_metrics (node : string) : result Centrality :=
  d ← nx_degree_centrality L G; v_degree ← index d node;
  d ← nx_betweenness_centrality L G; v_betweenness ← index d node;
  d ← nx_eigenvector_centrality L G 1000; v_eigenvector ← index d node;
  d ← nx_pagerank L G; v_pagerank ← index d node;
  d ← nx_load_centrality L G; v_load ← index d node;
  d ← nx_katz_centrality L G; v_katz ← index d node;
  v_clustering ← nx_clustering L G node;
  v_reach ← _calculate_reach_centrality L G node;
  Ok {| degree := v_degree; betweenness := v_betweenness;
        eigenvector := v_eigenvector; pagerank := v_pagerank;
        load := v_load; katz := v_katz;
        clustering := v_clustering; reach := v_reach |}.

Definition _calculate_centrality_metrics : result (gmap string Centrality) :=
  for_each (λ (centrality_metrics : gmap string Centrality) (node : string),
              metrics ← node_metrics node;
              Ok (<[node := metrics]> centrality_metrics))
           ∅ (nodes G).

(** *** [_detect_communities] *)

(** A key of a dictionary whose keys are not all strings. *)
Inductive pykey :=
  | KInt (i : Z)
  | KStr (s : string).

#[export] Instance pykey_eq_dec : EqDecision pykey.
Proof. solve_decision. Defined.

(** What [d.get(node, 0)] gives in the three partition dictionaries: an
    integer, or one of the sets that label propagation yields. *)
Inductive Label :=
  | LInt (z : Z)
  | LSet (s : list string).

#[export] Instance Label_eq_dec : EqDecision Label.
Proof. solve_decision. Defined.

(** [{node: comm for node, comm in enumerate(communities)}]: the keys are
    the positions, the values the communities. *)
Definition label_prop_dict (communities : list (list string))
  : list (pykey * list string) :=
  imap (λ i comm, (KInt (Z.of_nat i), comm)) communities.

(** [d.get(k)] on a dictionary kept as a list of items with distinct keys. *)
Definition items_get {V} (d : list (pykey * V)) (k : pykey) : option V :=
  snd <$> head (filter (λ kv, kv.1 = k) d).

(** [{node: comm for comm, nodes in enumerate(level) for node in nodes}] *)
Definition level_dict (level : list (list string)) : gmap string Z :=
  foldl (λ d '(comm, members),
           foldl (λ d node, <[node := Z.of_nat comm]> d) d members)
        ∅ (imap pair level).

(** [l.count(x)] *)
Definition count (x : Label) (l : list Label) : nat :=
  length (filter (λ y, y = x) l).

(** [max(it, key=key)]: the first element whose key no later one exceeds. *)
Definition py_max {A} (key : A → nat) (it : list A) : option A :=
  foldl (λ best x,
           match best with
           | None => Some x
           | Some b => if decide (key b < key x) then Some x else Some b
           end) None it.

(** Whether a label can be a member of a set. *)
Definition hashable (x : Label) : bool :=
  match x with LInt _ => true | LSet _ => false end.

(** [max(set(communities), key=communities.count)] *)
Definition most_common `{PySetOrder Label} (communities : list Label) : result Z :=
  if forallb hashable communities then
    match py_max (λ x, count x communities) (set_list communities) with
    | Some (LInt z) => Ok z
    | Some (LSet _) => Raise "TypeError"
    | None => Raise "ValueError"
    end
  else Raise "TypeError".

(** The three labels that the loop collects for a node. *)
Definition louvain_label (louvain_communities : gmap string Z) (node : string) : Label :=
  LInt (default 0%Z (louvain_communities !! node)).

Definition label_prop_label (label_prop_communities : list (pykey * list string))
    (node : string) : Label :=
  match items_get label_prop_communities (KStr node) with
  | Some comm => LSet comm
  | None => LInt 0
  end.

Definition gn_label (gn_communities : gmap string Z) (node : string) : Label :=
  LInt (default 0%Z (gn_communities !! node)).

(** The hierarchical partition, or the Louvain one in its place. *)
Definition gn_partition (louvain_communities : gmap string Z) : result (gmap string Z) :=
  if decide (length (nodes G) < 1000) then
    girvan_newman ← nx_girvan_newman L G;
    match girvan_newman with
    | level :: _ => Ok (level_dict level)
    | [] => Raise "IndexError"
    end
  else Ok louvain_communities.

Definition _detect_communities `{PySetOrder Label} : result (gmap string Z) :=
  louvain_communities ← best_partition L G;
  communities ← nx_label_propagation_communities L G;
  let label_prop_communities := label_prop_dict communities in
  gn_communities ← gn_partition louvain_communities;
  for_each (λ (ensemble_communities : gmap string Z) (node : string),
              c ← most_common [louvain_label louvain_communities node;
                               label_prop_label label_prop_communities node;
                               gn_label gn_communities node];
              Ok (<[node := c]> ensemble_communities))
           ∅ (nodes G).

(** *** [_identify_risk_patterns] *)

Definition circular_pattern (struct : list string) : RiskPattern :=
  {| p_type := "circular_ownership"; p_entities := Some struct; p_hub := None;
     p_spokes := None; p_date := None; p_shared_attributes := None;
     p_risk_level := Some "high" |}.

Definition hub_spoke_pattern (hs : string * list string) : RiskPattern :=
  {| p_type := "hub_spoke"; p_entities := None; p_hub := Some hs.1;
     p_spokes := Some hs.2; p_date := None; p_shared_attributes := None;
     p_risk_level := Some "medium" |}.

Definition isolated_pattern (group : list string) : RiskPattern :=
  {| p_type := "isolated_subgroup"; p_entities := Some group; p_hub := None;
     p_spokes := None; p_date := None; p_shared_attributes := None;
     p_risk_level := Some "medium" |}.

Definition bulk_pattern (date : string) (entities : list string)
    (shared : list (string * list string)) : RiskPattern :=
  {| p_type := "bulk_incorporation"; p_entities := Some entities; p_hub := None;
     p_spokes := None; p_date := Some date; p_shared_attributes := Some shared;
     p_risk_level := Some "high" |}.

(** [if l:] for a list or a dictionary *)
Definition truthy {A} (l : list A) : bool :=
  match l with [] => false | _ => true end.

Definition _identify_risk_patterns : result (list RiskPattern) :=
  let risk_patterns := [] in
  circular_structures ← _find_circular_ownership L G;
  let risk_patterns :=
    if truthy circular_structures
    then risk_patterns ++ (circular_pattern <$> circular_structures)
    else risk_patterns in
  hub_spoke ← _identify_hub_spoke_patterns L G;
  let risk_patterns :=
    if truthy hub_spoke
    then risk_patterns ++ (hub_spoke_pattern <$> hub_spoke)
    else risk_patterns in
  growth_patterns ← _analyze_network_growth L G;
  let risk_patterns :=
    if truthy growth_patterns
    then risk_patterns ++ growth_patterns
    else risk_patterns in
  isolated_groups ← _identify_isolated_subgroups L G;
  let risk_patterns :=
    if truthy isolated_groups
    then risk_patterns ++ (isolated_pattern <$> isolated_groups)
    else risk_patterns in
  Ok risk_patterns.

(** *** [_analyze_temporal_patterns] *)

(** [date_groups[inc_date].append(node)] on a [defaultdict(list)] *)
Fixpoint date_append (date node : string) (d : list (string * list string))
  : list (string * list string) :=
  match d with
  | [] => [(date, [node])]
  | (date', l) :: t =>
      if decide (date' = date) then (date', l ++ [node]) :: t
      else (date', l) :: date_append date node t
  end.

Definition date_groups : list (string * list string) :=
  foldl (λ d '(node, attr),
           match incorporation_date attr with
           | Some inc_date => if decide (inc_date = "") then d
                              else date_append inc_date node d
           | None => d
           end) [] (g_node G).

Definition _analyze_temporal_patterns : result (list RiskPattern) :=
  for_each (λ (temporal_patterns : list RiskPattern)
              '((date, entities) : string * list string),
              if decide (3 ≤ length entities)%nat then
                shared_attributes ← _check_shared_attributes L G entities;
                if truthy shared_attributes
                then Ok (temporal_patterns ++ [bulk_pattern date entities shared_attributes])
                else Ok temporal_patterns
              else Ok temporal_patterns)
           [] date_groups.

(** *** [_detect_suspicious_cycles] *)

Definition _detect_suspicious_cycles : result (list (list string)) :=
  simple_cycles ← nx_simple_cycles L G;
  for_each (λ (suspicious_cycles : list (list string)) (cycle : list string),
              if decide (3 ≤ length cycle)%nat then
                cycle_risk ← _calculate_cycle_risk L G cycle;
                if float_gt cycle_risk self_risk_threshold
                then Ok (suspicious_cycles ++ [cycle])
                else Ok suspicious_cycles
              else Ok suspicious_cycles)
           [] simple_cycles.

(** *** [_calculate_anomaly_scores] *)

Definition node_features (node : string) : result (list pyfloat) :=
  d ← nx_degree_centrality L G; f1 ← index d node;
  d ← nx_betweenness_centrality L G; f2 ← index d node;
  d ← nx_eigenvector_centrality L G default_max_iter; f3 ← index d node;
  f4 ← nx_clustering L G node;
  f5 ← _calculate_reach_centrality L G node;
  Ok [f1; f2; f3; f4; f5].

(** The first loop: one feature row per node. *)
Definition feature_rows : result matrix :=
  for_each (λ (features : matrix) (node : string),
              node_features ← node_features node;
              Ok (features ++ [node_features]))
           [] (nodes G).

(** The second loop, over [enumerate(nodes)]. *)
Definition score_rows (normalized_features inv_cov : matrix) (mean : list pyfloat)
  : result (gmap string pyfloat) :=
  for_each (λ (anomaly_scores : gmap string pyfloat) '((i, node) : nat * string),
              match normalized_features !! i with
              | None => Raise "IndexError"
              | Some row =>
                  diff ← np_sub L row mean;
                  q ← np_quadratic_form L diff inv_cov;
                  Ok (<[node := np_sqrt L q]> anomaly_scores)
              end)
           ∅ (imap pair (nodes G)).

Definition _calculate_anomaly_scores : result (gmap string pyfloat) :=
  features ← feature_rows;
  normalized_features ← sk_fit_transform L features;
  cov ← np_cov_T L normalized_features;
  inv_cov ← np_linalg_inv L cov;
  mean ← np_mean_axis0 L normalized_features;
  score_rows normalized_features inv_cov mean.

(** *** [calculate_network_metrics] *)

Definition calculate_network_metrics `{PySetOrder Label} : result NetworkMetrics :=
  v_centrality ← _calculate_centrality_metrics;
  v_community ← _detect_communities;
  v_risk ← _identify_risk_patterns;
  v_temporal ← _analyze_temporal_patterns;
  v_cycles ← _detect_suspicious_cycles;
  v_anomaly ← _calculate_anomaly_scores;
  Ok {| centrality_scores := v_centrality;
        community_membership := v_community;
        risk_patterns := v_risk;
        temporal_patterns := v_temporal;
        suspicious_cycles := v_cycles;
        anomaly_scores := v_anomaly |}.

(** *** [get_high_risk_entities] *)

(** [sum(1 for n, c in community_membership.items() if c == community_id)] *)
Definition community_size (community_membership : gmap string Z) (community_id : Z)
  : nat :=
  length (filter (λ nc, nc.2 = community_id) (map_to_list community_membership)).

(** The inner loop over [metrics.risk_patterns]. *)
Definition pattern_factors (metrics : NetworkMetrics) (node : string) : list string :=
  foldl (λ risk_factors pattern,
           if decide (node ∈ default [] (p_entities pattern))
           then risk_factors ++ ["involved_in_" +:+ p_type pattern]
           else risk_factors)
        [] (risk_patterns metrics).

(** The risk factors that the loop body collects for a node. *)
Definition node_risk_factors (metrics : NetworkMetrics) (risk_threshold : pyfloat)
    (node : string) : result (list string) :=
  let risk_factors := [] in
  c ← index (centrality_scores metrics) node;
  let risk_factors :=
    if float_gt (betweenness c) risk_threshold
    then risk_factors ++ ["high_betweenness_centrality"] else risk_factors in
  let risk_factors :=
    if float_gt (pagerank c) risk_threshold
    then risk_factors ++ ["high_pagerank"] else risk_factors in
  community_id ← index (community_membership metrics) node;
  let risk_factors :=
    if decide (community_size (community_membership metrics) community_id < 3)
    then risk_factors ++ ["isolated_community"] else risk_factors in
  let risk_factors := risk_factors ++ pattern_factors metrics node in
  a ← index (anomaly_scores metrics) node;
  let risk_factors :=
    if float_gt a risk_threshold
    then risk_factors ++ ["high_anomaly_score"] else risk_factors in
  Ok risk_factors.

(** The outer loop. *)
Definition flagged_entities (metrics : NetworkMetrics) (risk_threshold : pyfloat)
  : result (list HighRisk) :=
  for_each (λ (high_risk_entities : list HighRisk) (node : string),
              risk_factors ← node_risk_factors metrics risk_threshold node;
              if truthy risk_factors then
                a ← index (anomaly_scores metrics) node;
                c ← index (centrality_scores metrics) node;
                Ok (high_risk_entities
                      ++ [{| entity := node; risk_factors := risk_factors;
                             anomaly_score := a; entity_centrality := c |}])
              else Ok high_risk_entities)
           [] (nodes G).

(** [sorted(l, key=lambda x: x['anomaly_score'], reverse=True)]: a stable
    sort by decreasing key.  An element goes behind every element that is
    not smaller; where no key is a NaN this is the list that Python
    returns, and in every case it is a rearrangement of [l]. *)
Fixpoint insert_desc (x : HighRisk) (l : list HighRisk) : list HighRisk :=
  match l with
  | [] => [x]
  | y :: t =>
      if float_lt (anomaly_score y) (anomaly_score x) then x :: y :: t
      else y :: insert_desc x t
  end.

Definition sorted_desc (l : list HighRisk) : list HighRisk :=
  foldl (λ acc x, insert_desc x acc) [] l.

Definition get_high_risk_entities `{PySetOrder Label} (risk_threshold : pyfloat)
  : result (list HighRisk) :=
  metrics ← calculate_network_metrics;
  high_risk_entities ← flagged_entities metrics risk_threshold;
  Ok (sorted_desc high_risk_entities).

End analyzer.

End Analyzer.

(** ** Sets as duplicate-free lists *)

Module PyFacts.
Import Py.

Lemma set_add_elem `{EqDecision A} (c x : A) (s : list A) :
  x ∈ set_add c s ↔ x = c ∨ x ∈ s.
Proof.
  unfold set_add. case_decide.
  - split; [auto | intros [-> | ?]; auto].
  - rewrite elem_of_app, list_elem_of_singleton. tauto.
Qed.

Lemma set_add_NoDup `{EqDecision A} (c : A) (s : list A) :
  NoDup s → NoDup (set_add c s).
Proof.
  intros Hs. unfold set_add. case_decide; [done |].
  apply NoDup_app. split_and!; [done | | apply NoDup_singleton].
  intros x Hx ->%list_elem_of_singleton. done.
Qed.

End PyFacts.

(** ** Properties of [build_company_network] *)

Module FetcherFacts.
Import Py PyFacts Nx Fetcher.

(** *** Grouping dictionaries *)

Section groups.
Context `{EqDecision K}.
Implicit Types (d : list (K * list string)) (k : K) (c : string).

(** [c in d[k]] *)
Definition in_group d k c : Prop := ∃ s, (k, s) ∈ d ∧ c ∈ s.

(** Keys are unique and every value is a set. *)
Definition wf_groups d : Prop := NoDup d.*1 ∧ Forall (λ ks, NoDup ks.2) d.

Lemma wf_groups_nil : wf_groups [].
Proof. split; constructor. Qed.

Lemma group_add_keys k c d :
  ∀ k', k' ∈ (group_add k c d).*1 ↔ k' = k ∨ k' ∈ d.*1.
Proof.
  induction d as [|[k0 s] d IH]; intros k'; simpl.
  - rewrite list_elem_of_singleton, elem_of_nil. tauto.
  - case_decide; subst; simpl; rewrite !elem_of_cons; [tauto |].
    rewrite IH. tauto.
Qed.

Lemma group_add_wf k c d : wf_groups d → wf_groups (group_add k c d).
Proof.
  unfold wf_groups. induction d as [|[k0 s] d IH]; simpl.
  - intros _. split; repeat constructor; simpl; apply not_elem_of_nil.
  - rewrite NoDup_cons, Forall_cons. simpl. intros [[Hk0 Hd] [Hs Hall]].
    case_decide; subst; simpl; rewrite NoDup_cons, Forall_cons; simpl.
    + auto using set_add_NoDup.
    + destruct IH as [IH1 IH2]; [done |]. split_and!; try done.
      rewrite group_add_keys. intros [-> | ?]; done.
Qed.

Lemma group_add_in k c d k' c' :
  in_group (group_add k c d) k' c' ↔ (k' = k ∧ c' = c) ∨ in_group d k' c'.
Proof.
  unfold in_group. induction d as [|[k0 s] d IH]; simpl.
  - split.
    + intros (s & Hs & Hc). apply list_elem_of_singleton in Hs.
      injection Hs as -> ->. apply set_add_elem in Hc as [-> | []%elem_of_nil].
      auto.
    + intros [[-> ->] | (s & []%elem_of_nil & _)].
      exists (set_add c []). rewrite list_elem_of_singleton, set_add_elem. auto.
  - case_decide as Hk; subst.
    + split.
      * intros (s' & [Heq | Hin]%elem_of_cons & Hc).
        -- injection Heq as -> ->. apply set_add_elem in Hc as [-> | Hc]; [auto |].
           right. exists s. rewrite elem_of_cons. auto.
        -- right. exists s'. rewrite elem_of_cons. auto.
      * intros [[-> ->] | (s' & [Heq | Hin]%elem_of_cons & Hc)].
        -- exists (set_add c s). rewrite elem_of_cons, set_add_elem. auto.
        -- injection Heq as -> ->. exists (set_add c s).
           rewrite elem_of_cons, set_add_elem. auto.
        -- exists s'. rewrite elem_of_cons. auto.
    + split.
      * intros (s' & [Heq | Hin]%elem_of_cons & Hc).
        -- injection Heq as -> ->. right. exists s. rewrite elem_of_cons. auto.
        -- destruct (proj1 IH) as [? | (s'' & ? & ?)]; [by exists s' | auto |].
           right. exists s''. rewrite elem_of_cons. auto.
      * intros [Hnew | (s' & [Heq | Hin]%elem_of_cons & Hc)].
        -- destruct (proj2 IH) as (s'' & ? & ?); [auto |].
           exists s''. rewrite elem_of_cons. auto.
        -- injection Heq as -> ->. exists s. rewrite elem_of_cons. auto.
        -- destruct (proj2 IH) as (s'' & ? & ?); [right; by exists s' |].
           exists s''. rewrite elem_of_cons. auto.
Qed.

(** Some set of the dictionary holds both [u] and [v]. *)
Definition grouped d (u v : string) : Prop :=
  Exists (λ ks, u ∈ ks.2 ∧ v ∈ ks.2) d.

Lemma grouped_in_group d u v :
  wf_groups d → grouped d u v ↔ ∃ k, in_group d k u ∧ in_group d k v.
Proof.
  intros [Hkeys _]. unfold grouped. rewrite Exists_exists. split.
  - intros ([k s] & Hin & Hu & Hv). exists k. split; by exists s.
  - intros (k & (s & Hs & Hu) & (s' & Hs' & Hv)).
    assert (s = s') as <-.
    { apply list_elem_of_lookup in Hs as [i Hi], Hs' as [j Hj].
      assert (i = j) as ->; [| congruence].
      eapply NoDup_lookup; [exact Hkeys | |];
        rewrite list_lookup_fmap; [by rewrite Hi | by rewrite Hj]. }
    by exists (k, s).
Qed.
End groups.

(** *** Edge dictionaries *)

Lemma edge_attr_lookup_type ty st :
  edge_attr ty st !! "relationship_type" = Some (VStr ty).
Proof. reflexivity. Qed.

Lemma edge_attr_lookup_strength ty st :
  edge_attr ty st !! "strength" = Some (VNum st).
Proof. reflexivity. Qed.

(** [update] with both keys replaces whatever the rules stored before. *)
Lemma edge_attr_update ty st ty' st' :
  edge_attr ty st ∪ edge_attr ty' st' = edge_attr ty st.
Proof.
  apply map_eq. intros k. rewrite lookup_union. unfold edge_attr.
  rewrite !lookup_insert. by repeat case_decide.
Qed.

(** Every edge dictionary of the graph was written by one of the rules. *)
Definition rule_edges (G : Graph) : Prop :=
  ∀ p d, g_adj G !! p = Some d → ∃ ty st, d = edge_attr ty st.

Lemma add_edge_adj u v ty st G :
  rule_edges G →
  g_adj (add_edge u v (edge_attr ty st) G)
  = <[(v, u) := edge_attr ty st]> (<[(u, v) := edge_attr ty st]> (g_adj G)).
Proof.
  intros HG. unfold add_edge. simpl.
  destruct (g_adj G !! (u, v)) as [d|] eqn:Hd; simpl.
  - destruct (HG _ _ Hd) as (ty' & st' & ->). by rewrite edge_attr_update.
  - by rewrite (right_id_L ∅ (∪)).
Qed.

Lemma add_edge_rule_edges u v ty st G :
  rule_edges G → rule_edges (add_edge u v (edge_attr ty st) G).
Proof.
  intros HG p d. rewrite add_edge_adj by done.
  rewrite !lookup_insert. repeat case_decide; eauto.
  all: intros [= <-]; eauto.
Qed.

(** *** Linking the pairs of a group *)

Lemma index_pairs_elem l a b :
  (a, b) ∈ index_pairs l → a ∈ l ∧ b ∈ l ∧ (NoDup l → a ≠ b).
Proof.
  induction l as [|x l IH]; simpl; [by intros ?%elem_of_nil |].
  rewrite elem_of_app, list_elem_of_fmap.
  intros [(y & [= -> ->] & Hy) | Hin].
  - rewrite !elem_of_cons. split_and!; auto.
    intros [Hx _]%NoDup_cons ->. done.
  - destruct (IH Hin) as (Ha & Hb & Hne). rewrite !elem_of_cons.
    split_and!; auto. intros [_ ?]%NoDup_cons. auto.
Qed.

Lemma index_pairs_complete l a b :
  a ∈ l → b ∈ l → a ≠ b → (a, b) ∈ index_pairs l ∨ (b, a) ∈ index_pairs l.
Proof.
  induction l as [|x l IH]; simpl; [by intros ?%elem_of_nil |].
  rewrite !elem_of_cons, !elem_of_app, !list_elem_of_fmap.
  intros [-> | Ha] [-> | Hb] Hne; try done.
  - left. left. by exists b.
  - right. left. by exists a.
  - destruct (IH Ha Hb Hne); auto.
Qed.

Section linking.
Context `{PySetOrder string}.
Variables (ty : string) (st : Q).
Let attr := edge_attr ty st.

Lemma link_pairs_adj (ps : list (string * string)) G a b :
  rule_edges G →
  let G' := foldl (λ G '(x, y), add_edge x y attr G) G ps in
  rule_edges G' ∧
  g_adj G' !! (a, b)
  = if decide ((a, b) ∈ ps ∨ (b, a) ∈ ps) then Some attr else g_adj G !! (a, b).
Proof.
  revert G. induction ps as [|[x y] ps IH]; intros G HG; cbn [foldl].
  - split; [done |]. case_decide as Hin; [| done].
    by destruct Hin as [?%elem_of_nil | ?%elem_of_nil].
  - destruct (IH (add_edge x y attr G)) as [IH1 IH2];
      [by apply add_edge_rule_edges |].
    split; [done |]. cbn zeta in IH2. rewrite IH2.
    unfold attr. rewrite add_edge_adj by done.
    rewrite !lookup_insert. clear IH IH1 IH2 HG.
    repeat case_decide; try done; exfalso;
      repeat match goal with
             | H : _ ∨ _ |- _ => destruct H
             | H : ¬ (_ ∨ _) |- _ => apply Decidable.not_or in H as [? ?]
             | H : _ ∈ _ :: _ |- _ => apply elem_of_cons in H as [?|?]
             | H : _ ∉ _ :: _ |- _ => apply not_elem_of_cons in H as [? ?]
             end; simplify_eq; done.
Qed.

Lemma link_group_adj G (s : list string) a b :
  rule_edges G → NoDup s →
  rule_edges (link_group attr G s) ∧
  g_adj (link_group attr G s) !! (a, b)
  = if decide (a ≠ b ∧ a ∈ s ∧ b ∈ s) then Some attr else g_adj G !! (a, b).
Proof.
  intros HG Hs. unfold link_group. case_decide as Hlen.
  - destruct (link_pairs_adj (index_pairs (set_list s)) G a b HG) as [H1 H2].
    split; [done |]. cbn zeta in H2. rewrite H2.
    pose proof (set_list_NoDup s) as Hnd.
    destruct (decide ((a, b) ∈ index_pairs (set_list s)
                      ∨ (b, a) ∈ index_pairs (set_list s))) as [Hin|Hnin],
             (decide (a ≠ b ∧ a ∈ s ∧ b ∈ s)) as [Hc|Hc]; try done; exfalso.
    + apply Hc. destruct Hin as [Hin | Hin];
        apply index_pairs_elem in Hin as (Ha & Hb & Hne);
        rewrite set_list_elem in Ha, Hb; split_and!; auto.
      intros ->. by apply Hne.
    + apply Hnin. destruct Hc as (? & ? & ?).
      apply index_pairs_complete; by rewrite ?set_list_elem.
  - split; [done |]. case_decide as Hc; [| done].
    exfalso. destruct Hc as (Hne & Ha & Hb).
    destruct s as [|x [|y s]]; simpl in *; [| | lia].
    + by apply elem_of_nil in Ha.
    + apply list_elem_of_singleton in Ha, Hb. congruence.
Qed.

Lemma link_groups_adj {K} (d : list (K * list string)) G a b :
  rule_edges G → Forall (λ ks, NoDup ks.2) d →
  rule_edges (link_groups attr G d) ∧
  ((a ≠ b ∧ grouped d a b → g_adj (link_groups attr G d) !! (a, b) = Some attr) ∧
   (¬ (a ≠ b ∧ grouped d a b) →
      g_adj (link_groups attr G d) !! (a, b) = g_adj G !! (a, b))).
Proof.
  unfold link_groups, grouped. revert G.
  induction d as [|[k s] d IH]; intros G HG Hd; csimpl.
  - split; [done |]. split; [| done]. by intros [_ ?%Exists_nil].
  - apply Forall_cons in Hd as [Hs Hd]. simpl in Hs.
    destruct (link_group_adj G s a b HG Hs) as [Hr Hl].
    destruct (IH (link_group attr G s) Hr Hd) as (IH1 & IH2 & IH3).
    split; [done |]. split.
    + intros (Hne & [[Ha Hb] | Hrest]%Exists_cons); [| by apply IH2].
      destruct (decide (a ≠ b ∧ Exists (λ ks, a ∈ ks.2 ∧ b ∈ ks.2) d));
        [by apply IH2 |].
      rewrite IH3, Hl by done. simpl in *. by rewrite decide_True.
    + intros Hnot. rewrite IH3, Hl.
      * rewrite decide_False; [done |]. intros (? & ? & ?). apply Hnot.
        rewrite Exists_cons. auto.
      * intros [? ?]. apply Hnot. rewrite Exists_cons. auto.
Qed.
End linking.

(** *** What the three dictionaries hold *)

Section grouping.
Context `{EqDecision K}.
Variable kb : Bundle → list K.

(** The common shape of the three grouping loops: every key of a bundle
    with a profile gets the company number of that profile. *)
Definition groups_from (d0 : list (K * list string)) (companies_data : list Bundle)
  : list (K * list string) :=
  foldl (λ d data,
           match profile data with
           | None => d
           | Some p => foldl (λ d k, group_add k (company_number p) d) d (kb data)
           end) d0 companies_data.

Definition rule_keys (companies_data : list Bundle) (c : string) : list K :=
  data ← bundles_of companies_data c; kb data.

Lemma rule_keys_elem companies_data c k :
  k ∈ rule_keys companies_data c
  ↔ ∃ data, data ∈ companies_data
            ∧ company_number <$> profile data = Some c ∧ k ∈ kb data.
Proof.
  unfold rule_keys, bundles_of. rewrite list_elem_of_bind.
  setoid_rewrite list_elem_of_filter. naive_solver.
Qed.

Lemma group_add_fold (ks : list K) c d :
  wf_groups d →
  wf_groups (foldl (λ d k, group_add k c d) d ks) ∧
  ∀ k c', in_group (foldl (λ d k, group_add k c d) d ks) k c'
          ↔ in_group d k c' ∨ (c' = c ∧ k ∈ ks).
Proof.
  revert d. induction ks as [|k0 ks IH]; intros d Hd; simpl.
  - split; [done |]. intros k c'. rewrite elem_of_nil. tauto.
  - destruct (IH (group_add k0 c d)) as [IH1 IH2]; [by apply group_add_wf |].
    split; [done |]. intros k c'.
    rewrite IH2, group_add_in, elem_of_cons. naive_solver.
Qed.

Lemma groups_from_spec companies_data d0 :
  wf_groups d0 →
  wf_groups (groups_from d0 companies_data) ∧
  ∀ k c, in_group (groups_from d0 companies_data) k c
         ↔ in_group d0 k c ∨ k ∈ rule_keys companies_data c.
Proof.
  unfold groups_from. revert d0.
  induction companies_data as [|data l IH]; intros d0 Hd0; simpl.
  - split; [done |]. intros k c. rewrite rule_keys_elem.
    setoid_rewrite elem_of_nil. naive_solver.
  - destruct (profile data) as [p|] eqn:Hp.
    + destruct (group_add_fold (kb data) (company_number p) d0 Hd0) as [Hw Hin].
      destruct (IH _ Hw) as [IH1 IH2]. split; [done |]. intros k c.
      rewrite IH2, Hin, !rule_keys_elem. setoid_rewrite elem_of_cons.
      split.
      * intros [[? | [-> ?]] | (b & ? & ? & ?)]; [by left | | by eauto 10].
        right. exists data. rewrite Hp. auto.
      * intros [? | (b & [-> | ?] & Hc & ?)]; [by auto | | by eauto 10].
        rewrite Hp in Hc. injection Hc as <-. auto.
    + destruct (IH _ Hd0) as [IH1 IH2]. split; [done |]. intros k c.
      rewrite IH2, !rule_keys_elem. setoid_rewrite elem_of_cons.
      split.
      * intros [? | (b & ? & ? & ?)]; [by left | by eauto 10].
      * intros [? | (b & [-> | ?] & Hc & ?)]; [by auto | | by eauto 10].
        by rewrite Hp in Hc.
Qed.

(** Two entities are in a common group exactly when they have a key in
    common. *)
Lemma groups_from_grouped companies_data u v :
  grouped (groups_from [] companies_data) u v
  ↔ common_key (rule_keys companies_data u) (rule_keys companies_data v).
Proof.
  destruct (groups_from_spec companies_data [] wf_groups_nil) as [Hw Hin].
  rewrite grouped_in_group by done. unfold common_key.
  rewrite Exists_exists. setoid_rewrite Hin.
  assert (∀ k c, ¬ in_group (@nil (K * list string)) k c) as Hnil
    by (by intros k c (? & ?%elem_of_nil & _)).
  naive_solver.
Qed.

(** The adjacency after one rule has been applied. *)
Lemma rule_adj `{PySetOrder string} ty st G companies_data a b :
  rule_edges G →
  let G' := link_groups (edge_attr ty st) G (groups_from [] companies_data) in
  rule_edges G' ∧
  g_adj G' !! (a, b)
  = if decide (a ≠ b ∧ common_key (rule_keys companies_data a)
                                   (rule_keys companies_data b))
    then Some (edge_attr ty st) else g_adj G !! (a, b).
Proof.
  intros HG G'.
  destruct (groups_from_spec companies_data [] wf_groups_nil) as [[_ Hw] _].
  destruct (link_groups_adj ty st (groups_from [] companies_data) G a b HG Hw)
    as (Hr & Hyes & Hno).
  split; [done |]. case_decide as Hc.
  - apply Hyes. by rewrite groups_from_grouped.
  - apply Hno. by rewrite groups_from_grouped.
Qed.
End grouping.

Lemma foldl_filter {A B} (g : A → B → A) (P : B → Prop) `{∀ x, Decision (P x)}
    (a : A) (l : list B) :
  foldl g a (filter P l) = foldl (λ a x, if decide (P x) then g a x else a) a l.
Proof.
  revert a. induction l as [|x l IH]; intros a; [done |].
  rewrite filter_cons. cbn [foldl]. case_decide; cbn [foldl]; auto.
Qed.

Lemma foldl_ext_fun {A B} (f g : A → B → A) (a : A) (l : list B) :
  (∀ a x, f a x = g a x) → foldl f a l = foldl g a l.
Proof.
  intros Hfg. revert a. induction l as [|x l IH]; intros a; simpl; [done |].
  by rewrite Hfg.
Qed.

Definition director_kb (data : Bundle) : list DirectorKey :=
  director_key <$> officers data.
Definition address_kb (data : Bundle) : list AddressKey :=
  option_list (address_key <$> (profile data ≫= registered_office_address)).
Definition psc_kb (data : Bundle) : list (option string) :=
  psc_name <$> filter (λ q, psc_kind q = Some "corporate-entity") (psc data).

Lemma director_companies_groups companies_data :
  director_companies companies_data = groups_from director_kb [] companies_data.
Proof.
  unfold director_companies, groups_from. apply foldl_ext_fun. intros d data.
  destruct (profile data); [| done]. unfold director_kb. by rewrite foldl_fmap.
Qed.

Lemma address_companies_groups companies_data :
  address_companies companies_data = groups_from address_kb [] companies_data.
Proof.
  unfold address_companies, groups_from. apply foldl_ext_fun. intros d data.
  unfold address_kb. destruct (profile data) as [p|]; [| done]. simpl.
  by destruct (registered_office_address p).
Qed.

Lemma psc_companies_groups companies_data :
  psc_companies companies_data = groups_from psc_kb [] companies_data.
Proof.
  unfold psc_companies, groups_from. apply foldl_ext_fun. intros d data.
  destruct (profile data); [| done]. unfold psc_kb.
  by rewrite foldl_fmap, foldl_filter.
Qed.

(** *** The adjacency of the built graph *)

Lemma add_company_nodes_adj G companies_data :
  g_adj (add_company_nodes G companies_data) = g_adj G.
Proof.
  unfold add_company_nodes. revert G.
  induction companies_data as [|data l IH]; intros G; simpl; [done |].
  rewrite IH. by destruct (profile data).
Qed.

Definition rule_attr (r : Rule) : EdgeData := edge_attr (rule_type r) (rule_strength r).

Lemma proposing_rules_last companies_data u v :
  last (proposing_rules companies_data u v)
  = if decide (proposes companies_data SharedPsc u v) then Some SharedPsc
    else if decide (proposes companies_data SharedAddress u v) then Some SharedAddress
    else if decide (proposes companies_data SharedDirector u v) then Some SharedDirector
    else None.
Proof.
  unfold proposing_rules. rewrite !filter_cons, filter_nil.
  by repeat case_decide.
Qed.

(** The edge dictionary of a pair is the one of the last rule, in the order
    director, address, PSC, that proposes an edge for the pair; a pair for
    which no rule proposes an edge is not adjacent. *)
Lemma build_company_network_adj `{PySetOrder string} companies_data u v :
  g_adj (build_company_network companies_data) !! (u, v)
  = rule_attr <$> last (proposing_rules companies_data u v).
Proof.
  unfold build_company_network, _add_psc_relationships,
    _add_address_relationships, _add_director_relationships.
  rewrite director_companies_groups, address_companies_groups, psc_companies_groups.
  set (G0 := add_company_nodes empty_graph companies_data).
  assert (rule_edges G0) as H0.
  { intros p d. unfold G0. rewrite add_company_nodes_adj. simpl.
    by rewrite lookup_empty. }
  destruct (rule_adj director_kb "shared_director" 0.7 G0 companies_data u v H0)
    as [H1 E1].
  destruct (rule_adj address_kb "shared_address" 0.6 _ companies_data u v H1)
    as [H2 E2].
  destruct (rule_adj psc_kb "shared_psc" 0.8 _ companies_data u v H2)
    as [H3 E3].
  cbn zeta in *. rewrite E3, E2, E1, proposing_rules_last.
  unfold G0. rewrite add_company_nodes_adj. simpl. rewrite lookup_empty.
  change (u ≠ v ∧ common_key (rule_keys psc_kb companies_data u)
                             (rule_keys psc_kb companies_data v))
    with (proposes companies_data SharedPsc u v).
  change (u ≠ v ∧ common_key (rule_keys address_kb companies_data u)
                             (rule_keys address_kb companies_data v))
    with (proposes companies_data SharedAddress u v).
  change (u ≠ v ∧ common_key (rule_keys director_kb companies_data u)
                             (rule_keys director_kb companies_data v))
    with (proposes companies_data SharedDirector u v).
  destruct (decide (proposes companies_data SharedPsc u v)); [reflexivity |].
  destruct (decide (proposes companies_data SharedAddress u v)); [reflexivity |].
  destruct (decide (proposes companies_data SharedDirector u v)); reflexivity.
Qed.

Lemma build_company_network_edges `{PySetOrder string} companies_data u v :
  edges_between (build_company_network companies_data) u v
  = option_list (rule_attr <$> last (proposing_rules companies_data u v)).
Proof. unfold edges_between. by rewrite build_company_network_adj. Qed.

Lemma rule_attr_inj r r' ty st :
  rule_attr r !! "relationship_type" = Some (VStr ty) →
  rule_attr r !! "strength" = Some (VNum st) →
  ty = rule_type r' → r = r' ∧ st = rule_strength r.
Proof.
  unfold rule_attr. rewrite edge_attr_lookup_type, edge_attr_lookup_strength.
  intros [= <-] [= <-] Hty. split; [| done].
  by destruct r, r'.
Qed.

Lemma build_company_network_typed_edge `{PySetOrder string} companies_data u v r :
  typed_edge (build_company_network companies_data) u v (rule_type r) (rule_strength r)
  ↔ last (proposing_rules companies_data u v) = Some r.
Proof.
  unfold typed_edge. rewrite build_company_network_edges. split.
  - intros (d & Hd & Hty & Hst).
    destruct (last _) as [r'|]; simpl in Hd; [| by apply elem_of_nil in Hd].
    apply list_elem_of_singleton in Hd as ->.
    by destruct (rule_attr_inj r' r _ _ Hty Hst) as [-> _].
  - intros ->. exists (rule_attr r). simpl. rewrite list_elem_of_singleton.
    split_and!; done.
Qed.

(** The rules that propose an edge do not depend on the order of the input. *)
Lemma proposes_perm l1 l2 r u v :
  l1 ≡ₚ l2 → proposes l1 r u v ↔ proposes l2 r u v.
Proof.
  intros Hperm.
  assert (∀ {K} (kb : Bundle → list K) c k,
            k ∈ rule_keys kb l1 c ↔ k ∈ rule_keys kb l2 c) as Hk.
  { intros K kb c k. rewrite !rule_keys_elem. by setoid_rewrite Hperm. }
  unfold proposes, common_key. apply and_iff_compat_l.
  destruct r; rewrite !Exists_exists.
  - change (director_keys l2) with (rule_keys director_kb l2).
    by setoid_rewrite <- Hk.
  - change (address_keys l2) with (rule_keys address_kb l2).
    by setoid_rewrite <- Hk.
  - change (psc_keys l2) with (rule_keys psc_kb l2).
    by setoid_rewrite <- Hk.
Qed.

Lemma proposing_rules_perm l1 l2 u v :
  l1 ≡ₚ l2 → proposing_rules l1 u v = proposing_rules l2 u v.
Proof.
  intros Hperm. unfold proposing_rules. apply list_filter_iff.
  intros r. by apply proposes_perm.
Qed.

(** *** A small registry extract used in the examples

    [A] and [B] have director [x] and the registered office [s] in common;
    [B] and [C] have director [y] and the corporate PSC [p] in common. *)

Definition officer_named (n : string) : Officer :=
  {| officer_name := Some n; date_of_birth := None |}.

Definition corporate_psc (n : string) : Psc :=
  {| psc_kind := Some "corporate-entity"; psc_name := Some n |}.

Definition company (c : string) (ds : list string) (office : option string)
    (ps : list string) : Bundle :=
  {| profile := Some {| company_number := c; date_of_creation := None;
                        profile_type := None; profile_status := None;
                        profile_sic_codes := [];
                        registered_office_address :=
                          (λ a, {| address_line_1 := Some a; postal_code := None |})
                            <$> office |};
     officers := officer_named <$> ds;
     psc := corporate_psc <$> ps;
     filing_history := [] |}.

Definition sample_data : list Bundle :=
  [company "A" ["x"] (Some "s") [];
   company "B" ["x"; "y"] (Some "s") ["p"];
   company "C" ["y"] None ["p"]].

Example sample_rules :
  proposing_rules sample_data "A" "B" = [SharedDirector; SharedAddress]
  ∧ proposing_rules sample_data "B" "C" = [SharedDirector; SharedPsc]
  ∧ proposing_rules sample_data "A" "C" = [].
Proof. split_and!; vm_compute; reflexivity. Qed.

Example sample_edges :
  edge_types (build_company_network sample_data) "A" "B"
    = [(Some (VStr "shared_address"), Some (VNum 0.6))]
  ∧ edge_types (build_company_network sample_data) "B" "C"
    = [(Some (VStr "shared_psc"), Some (VNum 0.8))]
  ∧ edge_types (build_company_network sample_data) "A" "C" = [].
Proof. split_and!; vm_compute; reflexivity. Qed.

Lemma typed_edge_types G u v ty st :
  typed_edge G u v ty st ↔ (Some (VStr ty), Some (VNum st)) ∈ edge_types G u v.
Proof.
  unfold typed_edge, edge_types. rewrite list_elem_of_fmap. split.
  - intros (d & Hd & Hty & Hst). exists d. by rewrite Hty, Hst.
  - intros (d & [= Hty Hst] & Hd). by exists d.
Qed.

(** *** Parallel typed edges *)

(** The graph keeps, for a pair for which two or more rules propose an
    edge, one typed edge for each of these rules. *)
Definition parallel_typed_edges `{PySetOrder string} (companies_data : list Bundle)
  : Prop :=
  ∀ u v r,
    1 < length (proposing_rules companies_data u v) →
    r ∈ proposing_rules companies_data u v →
    typed_edge (build_company_network companies_data) u v
               (rule_type r) (rule_strength r).

(** C1, as the design document states it, fails: [A] and [B] share a
    director and an address, and the graph has no [shared_director] edge
    between them. *)
Lemma parallel_typed_edges_fails :
  ¬ @parallel_typed_edges insertion_order sample_data.
Proof.
  intros Hc. specialize (Hc "A" "B" SharedDirector).
  rewrite typed_edge_types in Hc.
  assert (edge_types (@build_company_network insertion_order sample_data) "A" "B"
          = [(Some (VStr "shared_address"), Some (VNum 0.6))]) as E
    by (vm_compute; reflexivity).
  rewrite E in Hc. clear E.
  assert (1 < length (proposing_rules sample_data "A" "B")) as Hlen
    by (vm_compute; lia).
  assert (SharedDirector ∈ proposing_rules sample_data "A" "B") as Hin
    by (vm_compute; left).
  specialize (Hc Hlen Hin). apply list_elem_of_singleton in Hc. discriminate Hc.
Qed.

(** C1, amended.  A pair of entities for which two or more rules propose an
    edge is joined by one edge, and the graph has an edge of the type and
    strength of a rule between the pair exactly when that rule is the last of
    the proposing ones in the order director, address, PSC. *)
Theorem one_typed_edge_per_pair `{PySetOrder string} companies_data u v :
  1 < length (proposing_rules companies_data u v) →
  length (edges_between (build_company_network companies_data) u v) = 1
  ∧ ∀ r, typed_edge (build_company_network companies_data) u v
                    (rule_type r) (rule_strength r)
         ↔ last (proposing_rules companies_data u v) = Some r.
Proof.
  intros Hlen. split; [| apply build_company_network_typed_edge].
  rewrite build_company_network_edges.
  destruct (proposing_rules companies_data u v) as [|r l] eqn:E using rev_ind;
    [simpl in Hlen; lia |].
  by rewrite last_snoc.
Qed.

Lemma one_typed_edge_per_pair_witness :
  1 < length (proposing_rules sample_data "A" "B")
  ∧ length (edges_between (@build_company_network insertion_order sample_data)
                          "A" "B") = 1
  ∧ ∀ r, typed_edge (@build_company_network insertion_order sample_data) "A" "B"
                    (rule_type r) (rule_strength r)
         ↔ last (proposing_rules sample_data "A" "B") = Some r.
Proof.
  assert (1 < length (proposing_rules sample_data "A" "B")) as Hlen
    by (vm_compute; lia).
  split; [exact Hlen |].
  exact (@one_typed_edge_per_pair insertion_order sample_data "A" "B" Hlen).
Defined.

(** *** The last rule wins *)

(** The type and the strength that are read from the edge of a pair: those
    of the last rule that proposes one. *)
Lemma build_company_network_edge_types `{PySetOrder string} companies_data u v :
  edge_types (build_company_network companies_data) u v
  = option_list ((λ r, (Some (VStr (rule_type r)), Some (VNum (rule_strength r))))
                   <$> last (proposing_rules companies_data u v)).
Proof.
  unfold edge_types. rewrite build_company_network_edges.
  destruct (last (proposing_rules companies_data u v)) as [r|]; [| done].
  simpl. unfold rule_attr.
  by rewrite edge_attr_lookup_type, edge_attr_lookup_strength.
Qed.

(** C10.  A pair that more than one rule relates is joined by exactly one
    edge, and what [relationship_type] and [strength] give on that edge
    are the type and the strength of the last of these rules in the order
    director, address, PSC: [shared_psc] and 0.8 when the pair shares a
    corporate PSC, [shared_address] and 0.6 otherwise. *)
Theorem last_rule_wins `{PySetOrder string} companies_data u v :
  1 < length (proposing_rules companies_data u v) →
  length (edges_between (build_company_network companies_data) u v) = 1
  ∧ (∃ r, last (proposing_rules companies_data u v) = Some r
          ∧ edge_types (build_company_network companies_data) u v
            = [(Some (VStr (rule_type r)), Some (VNum (rule_strength r)))])
  ∧ (proposes companies_data SharedPsc u v →
     edge_types (build_company_network companies_data) u v
     = [(Some (VStr "shared_psc"), Some (VNum 0.8))])
  ∧ (¬ proposes companies_data SharedPsc u v →
     edge_types (build_company_network companies_data) u v
     = [(Some (VStr "shared_address"), Some (VNum 0.6))]).
Proof.
  intros Hlen.
  rewrite build_company_network_edge_types, build_company_network_edges.
  pose proof (proposing_rules_last companies_data u v) as Hlast.
  revert Hlen. unfold proposing_rules at 1. rewrite !filter_cons, filter_nil.
  intros Hlen.
  assert (∃ r, last (proposing_rules companies_data u v) = Some r) as [r Hr].
  { destruct (last (proposing_rules companies_data u v)) as [r|] eqn:E; [by eauto |].
    exfalso. apply last_None in E. unfold proposing_rules in E.
    rewrite !filter_cons, filter_nil in E.
    repeat case_decide; simpl in *; done || lia. }
  split_and!.
  - by rewrite Hr.
  - exists r. by rewrite Hr.
  - intros Hp. rewrite Hlast. by rewrite decide_True.
  - intros Hp. rewrite Hlast. rewrite decide_False by done.
    destruct (decide (proposes companies_data SharedAddress u v)); [done |].
    exfalso. repeat case_decide; simpl in *; done || lia.
Qed.

Lemma last_rule_wins_witness :
  1 < length (proposing_rules sample_data "B" "C")
  ∧ length (edges_between (@build_company_network reverse_order sample_data)
                          "B" "C") = 1
  ∧ edge_types (@build_company_network reverse_order sample_data) "B" "C"
    = [(Some (VStr "shared_psc"), Some (VNum 0.8))].
Proof.
  assert (1 < length (proposing_rules sample_data "B" "C")) as Hlen
    by (vm_compute; lia).
  split; [exact Hlen |].
  destruct (@last_rule_wins reverse_order sample_data "B" "C" Hlen)
    as (Hone & _ & Hpsc & _).
  split; [exact Hone |]. apply Hpsc.
  vm_compute. split; [discriminate |].
  apply Exists_cons_hd, list_elem_of_here.
Defined.

(** *** Independence of the input order *)

(** C9.  Two permutations of the same bundles give the same edge set, the
    edges compared as unordered pairs with a type and a strength, whatever
    order Python iterates over the groups in. *)
Theorem build_company_network_order_independent
    (O1 O2 : PySetOrder string) (l1 l2 : list Bundle) :
  l1 ≡ₚ l2 →
  same_edge_set (@build_company_network O1 l1) (@build_company_network O2 l2).
Proof.
  intros Hperm u v ty st. unfold typed_edge.
  rewrite !build_company_network_edges.
  by rewrite !(proposing_rules_perm l1 l2 _ _ Hperm).
Qed.

Lemma build_company_network_order_independent_witness :
  same_edge_set (@build_company_network insertion_order sample_data)
                (@build_company_network reverse_order (reverse sample_data)).
Proof.
  apply build_company_network_order_independent.
  symmetry. apply reverse_Permutation.
Defined.

End FetcherFacts.

(** ** Properties of [NetworkAnalyzer] *)

Module AnalyzerFacts.
Import Py Nx Analyzer.

(** *** Exceptions and loops *)

Lemma bind_Ok {A B} (r : result A) (f : A → result B) (b : B) :
  r ≫= f = Ok b ↔ ∃ a, r = Ok a ∧ f a = Ok b.
Proof.
  destruct r as [a|e]; simpl; split.
  - eauto.
  - by intros (a' & [= <-] & ?).
  - discriminate.
  - by intros (a' & [=] & _).
Qed.

Lemma index_Ok {V} (d : gmap string V) (k : string) (v : V) :
  index d k = Ok v ↔ d !! k = Some v.
Proof. unfold index. destruct (d !! k); split; congruence. Qed.

(** Splits the hypotheses that say that a sequence of calls returned. *)
Ltac returns :=
  repeat match goal with
         | H : _ ≫= _ = Ok _ |- _ =>
             apply bind_Ok in H as (? & ? & H)
         | H : mbind _ _ = Ok _ |- _ =>
             apply bind_Ok in H as (? & ? & H)
         | H : Ok _ = Ok _ |- _ => injection H as H
         | H : Raise _ = Ok _ |- _ => discriminate H
         | H : index _ _ = Ok _ |- _ => apply index_Ok in H
         end.

(** Settles a decidable statement about concrete data by evaluation. *)
Ltac decided := apply (bool_decide_unpack _); vm_compute; exact I.

(** A loop whose steps all return does. *)
Lemma for_each_returns {X S} (f : S → X → result S) l s :
  (∀ s x, x ∈ l → ∃ s', f s x = Ok s') → ∃ s', for_each f s l = Ok s'.
Proof.
  revert s. induction l as [|x l IH]; intros s Hstep; simpl; [by eauto |].
  destruct (Hstep s x) as [s1 ->]; [apply list_elem_of_here |]. simpl.
  apply IH. intros s2 y Hy. apply Hstep. by apply list_elem_of_further.
Qed.

(** Every element of a loop that returns was processed by a step that
    returned. *)
Lemma for_each_steps {X S} (f : S → X → result S) l s s' :
  for_each f s l = Ok s' → ∀ x, x ∈ l → ∃ s1 s2, f s1 x = Ok s2.
Proof.
  revert s. induction l as [|y l IH]; intros s; simpl.
  - intros _ x []%elem_of_nil.
  - intros (s1 & H1 & H2)%bind_Ok x [-> | Hx]%elem_of_cons; eauto.
Qed.

(** A loop that stores one item per element: the keys of the result. *)
Lemma for_each_insert_dom {X V} (key : X → string)
    (f : gmap string V → X → result (gmap string V)) l :
  (∀ m x m', f m x = Ok m' → ∃ v, m' = <[key x := v]> m) →
  ∀ m0 m, for_each f m0 l = Ok m → dom m = dom m0 ∪ list_to_set (key <$> l).
Proof.
  intros Hf. induction l as [|x l IH]; intros m0 m; simpl.
  - intros [= <-]. set_solver.
  - intros (m1 & H1 & H2)%bind_Ok. destruct (Hf _ _ _ H1) as [v ->].
    rewrite (IH _ _ H2), dom_insert_L. set_solver.
Qed.

(** *** Comparison of floats *)

Lemma Qltb_lt (x y : Q) : Qltb x y = true ↔ (x < y)%Q.
Proof.
  unfold Qltb. rewrite negb_true_iff, <- not_true_iff_false, Qle_bool_iff.
  split; [apply Qnot_le_lt | apply Qlt_not_le].
Qed.

Lemma float_lt_trans (x y z : pyfloat) :
  float_lt x y = true → float_lt y z = true → float_lt x z = true.
Proof.
  destruct x, y, z; simpl; try done.
  rewrite !Qltb_lt. apply Qlt_trans.
Qed.


(** *** A stand-in for the libraries, used in the examples

    Its numbers are not those that networkx, scikit-learn and numpy
    compute; in the statements below only the shape of what the calls
    return and the exceptions that they raise matter.  The scaler rejects
    an input without samples, as [StandardScaler.fit_transform([])] does
    with a [ValueError]. *)

Record Scenario := {
  (** whether the power iteration converges *)
  converges : bool;
  (** whether [np.linalg.inv] accepts the covariance matrix *)
  invertible : bool;
  sc_betweenness : list (string * Q);
  sc_louvain : list (string * Z);
  sc_label_propagation : list (list string);
  sc_girvan_newman : list (list string);
  sc_hub_spoke : list (string * list string);
  sc_isolated : list (list string);
  sc_shared : list (string * list string)
}.

Definition all_nodes {V} (G : Graph) (v : V) : gmap string V :=
  list_to_map ((λ n, (n, v)) <$> nodes G).

Definition zero : pyfloat := Finite 0.

Definition stand_in (s : Scenario) : Libs :=
  {| nx_degree_centrality G := Ok (all_nodes G zero);
     nx_betweenness_centrality G :=
       Ok (list_to_map (prod_map id Finite <$> sc_betweenness s) ∪ all_nodes G zero);
     nx_eigenvector_centrality G max_iter :=
       if converges s then Ok (all_nodes G zero)
       else Raise "PowerIterationFailedConvergence";
     nx_pagerank G := Ok (all_nodes G zero);
     nx_load_centrality G := Ok (all_nodes G zero);
     nx_katz_centrality G := Ok (all_nodes G zero);
     nx_clustering G node := Ok zero;
     best_partition G := Ok (list_to_map (sc_louvain s));
     nx_label_propagation_communities G := Ok (sc_label_propagation s);
     nx_girvan_newman G := Ok [sc_girvan_newman s];
     nx_simple_cycles G := Ok [];
     sk_fit_transform X := match X with [] => Raise "ValueError" | _ => Ok X end;
     np_cov_T X := Ok X;
     np_linalg_inv C := if invertible s then Ok C else Raise "LinAlgError";
     np_mean_axis0 X := Ok (default [] (head X));
     np_sub row mean := Ok row;
     np_quadratic_form diff inv_cov := Ok (default zero (diff !! 1%nat));
     np_sqrt q := q;
     _calculate_reach_centrality G node := Ok zero;
     _find_circular_ownership G := Ok [];
     _identify_hub_spoke_patterns G := Ok (sc_hub_spoke s);
     _analyze_network_growth G := Ok [];
     _identify_isolated_subgroups G := Ok (sc_isolated s);
     _check_shared_attributes G entities := Ok (sc_shared s);
     _calculate_cycle_risk G cycle := Ok zero |}.

(** Four companies; [A], [B] and [C] were incorporated on the same day. *)
Definition incorporated (d : string) : NodeAttr :=
  {| incorporation_date := Some d; company_type := None; company_status := None;
     sic_codes := []; registered_office := None; directors := [];
     node_psc := []; node_filing_history := [] |}.

Definition four_companies : Graph :=
  let G := empty_graph in
  let G := add_node "A" (incorporated "2024-01-01") G in
  let G := add_node "B" (incorporated "2024-01-01") G in
  let G := add_node "C" (incorporated "2024-01-01") G in
  let G := add_node "D" (incorporated "2024-02-02") G in
  let G := add_edge "A" "B" (Fetcher.edge_attr "control" 0.9) G in
  let G := add_edge "A" "C" (Fetcher.edge_attr "control" 0.9) G in
  let G := add_edge "A" "D" (Fetcher.edge_attr "control" 0.9) G in
  G.

(** A run in which nothing raises: [A] is the hub of the other three, [D]
    is alone in its community and [B] has a high betweenness. *)
Definition quiet_run : Scenario :=
  {| converges := true; invertible := true;
     sc_betweenness := [("B", 0.85%Q)];
     sc_louvain := [("A", 0%Z); ("B", 0%Z); ("C", 0%Z); ("D", 1%Z)];
     sc_label_propagation := [["A"; "B"; "C"]; ["D"]];
     sc_girvan_newman := [["A"; "B"; "C"]; ["D"]];
     sc_hub_spoke := [("A", ["B"; "C"; "D"])];
     sc_isolated := [];
     sc_shared := [("directors", ["x"])] |}.

(** *** Completeness of the metrics *)

Section completeness.
Context (L : Libs) `{PySetOrder Label}.
Variable G : Graph.

Lemma centrality_metrics_dom m :
  _calculate_centrality_metrics L G = Ok m → dom m = list_to_set (nodes G).
Proof.
  unfold _calculate_centrality_metrics. intros Hm.
  apply (for_each_insert_dom id) in Hm.
  - rewrite Hm, list_fmap_id. set_solver.
  - intros m0 node m' Hstep. returns. subst. eauto.
Qed.

Lemma communities_dom m :
  _detect_communities L G = Ok m → dom m = list_to_set (nodes G).
Proof.
  unfold _detect_communities. intros Hm. returns.
  apply (for_each_insert_dom id) in Hm.
  - rewrite Hm, list_fmap_id. set_solver.
  - intros m0 node m' Hstep. returns. subst. eauto.
Qed.

Lemma score_rows_dom normalized inv_cov mean m :
  score_rows L G normalized inv_cov mean = Ok m → dom m = list_to_set (nodes G).
Proof.
  unfold score_rows. intros Hm.
  apply (for_each_insert_dom snd) in Hm.
  - rewrite Hm. apply set_eq. intros n.
    rewrite elem_of_union, !elem_of_list_to_set, list_elem_of_fmap.
    setoid_rewrite elem_of_lookup_imap. split.
    + intros [[]%elem_of_empty | ([i n'] & -> & j & y & [= -> ->] & Hy)].
      simpl. by eapply list_elem_of_lookup_2.
    + intros [i Hi]%list_elem_of_lookup. right. exists (i, n). eauto 6.
  - intros m0 [i node] m' Hstep.
    destruct (normalized !! i); [| discriminate]. returns. subst. eauto.
Qed.

Lemma anomaly_scores_dom m :
  _calculate_anomaly_scores L G = Ok m → dom m = list_to_set (nodes G).
Proof.
  unfold _calculate_anomaly_scores. intros Hm. returns.
  by eapply score_rows_dom.
Qed.

End completeness.

(** C3.  Every node of the graph has an entry in each of the three maps of
    the bundle that [calculate_network_metrics] returns. *)
Theorem metrics_complete (L : Libs) `{PySetOrder Label} (G : Graph)
    (m : NetworkMetrics) (n : string) :
  calculate_network_metrics L G = Ok m →
  n ∈ nodes G →
  is_Some (centrality_scores m !! n)
  ∧ is_Some (community_membership m !! n)
  ∧ is_Some (anomaly_scores m !! n).
Proof.
  unfold calculate_network_metrics. intros Hm Hn. returns. subst m. simpl.
  rewrite <- !elem_of_dom.
  erewrite centrality_metrics_dom, communities_dom, anomaly_scores_dom by done.
  by rewrite elem_of_list_to_set.
Qed.

Lemma metrics_complete_witness :
  ∃ m, calculate_network_metrics (stand_in quiet_run) four_companies = Ok m
       ∧ "C" ∈ nodes four_companies
       ∧ is_Some (centrality_scores m !! "C")
       ∧ is_Some (community_membership m !! "C")
       ∧ is_Some (anomaly_scores m !! "C").
Proof.
  destruct (calculate_network_metrics (stand_in quiet_run) four_companies)
    as [m|e] eqn:E; [| exfalso; vm_compute in E; discriminate E].
  assert ("C" ∈ nodes four_companies) as Hn by decided.
  exists m. split; [reflexivity |]. split; [exact Hn |].
  exact (metrics_complete (stand_in quiet_run) four_companies m "C" E Hn).
Defined.

(** *** The ranked list *)

Lemma insert_desc_perm x l : insert_desc x l ≡ₚ x :: l.
Proof.
  induction l as [|y l IH]; simpl; [done |].
  destruct (float_lt _ _); [done |]. by rewrite IH, Permutation_swap.
Qed.

(** Sorting rearranges the list and nothing else. *)
Lemma sorted_desc_perm l : sorted_desc l ≡ₚ l.
Proof.
  unfold sorted_desc.
  assert (∀ acc, foldl (λ acc x, insert_desc x acc) acc l ≡ₚ acc ++ l) as Hgen.
  { induction l as [|x l IH]; intros acc; simpl; [by rewrite app_nil_r |].
    rewrite IH, insert_desc_perm. simpl. by rewrite Permutation_middle. }
  apply Hgen.
Qed.

Section ranking.
Context (L : Libs).
Variable G : Graph.
Variable metrics : NetworkMetrics.

(** What [flagged_entities] appends for a node. *)
Definition flags (risk_threshold : pyfloat) (h : HighRisk) : Prop :=
  node_risk_factors metrics risk_threshold (entity h) = Ok (risk_factors h)
  ∧ risk_factors h ≠ []
  ∧ anomaly_scores metrics !! entity h = Some (anomaly_score h)
  ∧ centrality_scores metrics !! entity h = Some (entity_centrality h).

Lemma truthy_nonempty {A} (l : list A) : truthy l = true ↔ l ≠ [].
Proof. by destruct l. Qed.

Lemma flagged_entities_spec risk_threshold out :
  flagged_entities G metrics risk_threshold = Ok out →
  ∀ h, h ∈ out ↔ entity h ∈ nodes G ∧ flags risk_threshold h.
Proof.
  unfold flagged_entities.
  assert (∀ l acc out,
            for_each (λ (high_risk_entities : list HighRisk) (node : string),
                        risk_factors ← node_risk_factors metrics risk_threshold node;
                        if truthy risk_factors then
                          a ← index (anomaly_scores metrics) node;
                          c ← index (centrality_scores metrics) node;
                          Ok (high_risk_entities
                                ++ [{| entity := node; risk_factors := risk_factors;
                                       anomaly_score := a; entity_centrality := c |}])
                        else Ok high_risk_entities) acc l = Ok out →
            ∀ h, h ∈ out ↔ h ∈ acc ∨ (entity h ∈ l ∧ flags risk_threshold h)) as Hgen.
  { induction l as [|n l IH]; intros acc out'; simpl.
    - intros [= <-] h. rewrite elem_of_nil. tauto.
    - intros (acc1 & Hstep & Hrest)%bind_Ok h.
      rewrite (IH _ _ Hrest), elem_of_cons.
      apply bind_Ok in Hstep as (fs & Hfs & Hstep).
      destruct (truthy fs) eqn:Hne.
      + returns. subst acc1. rewrite elem_of_app, list_elem_of_singleton.
        apply truthy_nonempty in Hne. split.
        * intros [[? | ->] | [? ?]]; [tauto | | tauto].
          right. split; [by left |]. by repeat split.
        * intros [? | [[Hn | ?] Hh]]; [tauto | | tauto].
          destruct Hh as (Hf & _ & Ha & Hc). left. right.
          destruct h as [e f a c]. simpl in *. subst e.
          rewrite Hfs in Hf. congruence.
      + injection Hstep as <-. split; [tauto |].
        intros [? | [[Hn | ?] Hh]]; [tauto | | tauto].
        exfalso. destruct Hh as (Hf & Hnonempty & _). rewrite Hn, Hfs in Hf.
        injection Hf as Hf. rewrite <- Hf in Hnonempty.
        by apply truthy_nonempty in Hnonempty; rewrite Hne in Hnonempty. }
  intros Hout h. rewrite (Hgen _ _ _ Hout), elem_of_nil. tauto.
Qed.




End ranking.

(** **** Threshold monotonicity

    [get_high_risk_entities] computes the metrics anew at every call
    ([metrics = self.calculate_network_metrics()]); nothing is kept from
    one call to the next.  Two calls are therefore two values of [Libs]. *)



(** The Louvain numbering of the quiet run, and the same communities with
    the two numbers exchanged. *)
Definition quiet_partition : gmap string Z := list_to_map (sc_louvain quiet_run).

Definition exchanged (z : Z) : Z := (1 - z)%Z.

Example exchanged_partition :
  map_to_list (exchanged <$> quiet_partition)
  ≡ₚ [("A", 1%Z); ("B", 1%Z); ("C", 1%Z); ("D", 0%Z)].
Proof.
  apply NoDup_Permutation.
  - apply NoDup_map_to_list.
  - by repeat (constructor; [set_solver |]); constructor.
  - intros [k z]. rewrite elem_of_map_to_list.
    unfold quiet_partition, exchanged. simpl.
    rewrite !fmap_insert, fmap_empty. simpl.
    rewrite !elem_of_cons, elem_of_nil.
    split.
    + intros Hk.
      repeat (apply lookup_insert_Some in Hk as [[<- <-] | [_ Hk]]; [tauto |]).
      by rewrite lookup_empty in Hk.
    + intros [[= -> ->] | [[= -> ->] | [[= -> ->] | [[= -> ->] | []]]]];
        by vm_compute.
Qed.






(** The two ranked lists of the quiet run. *)
Example quiet_run_thresholds :
  match get_high_risk_entities (stand_in quiet_run) four_companies (Finite 0.8),
        get_high_risk_entities (stand_in quiet_run) four_companies (Finite 0.9) with
  | Ok out1, Ok out2 => (entity <$> out1, entity <$> out2)
  | _, _ => ([], [])
  end = (["B"; "D"], ["D"]).
Proof. vm_compute. reflexivity. Qed.

(** *** Involvement in risk patterns *)

Definition involved_in (ty : string) : string := "involved_in_" +:+ ty.

Lemma append_inj (p s s' : string) : p +:+ s = p +:+ s' → s = s'.
Proof. induction p as [|a p IH]; simpl; [done |]. intros [= ?]. auto. Qed.

Lemma involved_in_inj ty ty' : involved_in ty = involved_in ty' → ty = ty'.
Proof. apply append_inj. Qed.

Section involvement.
Variable metrics : NetworkMetrics.

Lemma pattern_factors_elem node s :
  s ∈ pattern_factors metrics node
  ↔ ∃ p, p ∈ risk_patterns metrics
         ∧ node ∈ default [] (p_entities p) ∧ s = involved_in (p_type p).
Proof.
  unfold pattern_factors.
  assert (∀ l acc,
            s ∈ foldl (λ risk_factors pattern,
                         if decide (node ∈ default [] (p_entities pattern))
                         then risk_factors ++ ["involved_in_" +:+ p_type pattern]
                         else risk_factors) acc l
            ↔ s ∈ acc ∨ ∃ p, p ∈ l ∧ node ∈ default [] (p_entities p)
                             ∧ s = involved_in (p_type p)) as Hgen.
  { induction l as [|p l IH]; intros acc; simpl.
    - split; [auto | intros [? | (? & []%elem_of_nil & _)]; done].
    - rewrite IH. setoid_rewrite elem_of_cons. case_decide as Hin.
      + rewrite elem_of_app, list_elem_of_singleton. split.
        * intros [[? | ->] | (q & ? & ? & ?)]; eauto 10.
        * intros [? | (q & [-> | ?] & ? & ?)]; eauto 10.
      + split.
        * intros [? | (q & ? & ? & ?)]; eauto 10.
        * intros [? | (q & [-> | ?] & ? & ?)]; eauto 10. done. }
  rewrite Hgen, elem_of_nil. tauto.
Qed.

(** The factors of a node name a pattern type exactly when a pattern of
    that type in [metrics.risk_patterns] lists the node under ['entities']. *)
Lemma node_risk_factors_involved risk_threshold node fs ty :
  node_risk_factors metrics risk_threshold node = Ok fs →
  involved_in ty ∈ fs
  ↔ ∃ p, p ∈ risk_patterns metrics ∧ p_type p = ty
         ∧ node ∈ default [] (p_entities p).
Proof.
  unfold node_risk_factors. intros Hfs.
  apply bind_Ok in Hfs as (c & _ & Hfs).
  apply bind_Ok in Hfs as (cid & _ & Hfs).
  apply bind_Ok in Hfs as (a & _ & Hfs). injection Hfs as <-.
  assert (involved_in ty ∈ pattern_factors metrics node
          ↔ ∃ p, p ∈ risk_patterns metrics ∧ p_type p = ty
                 ∧ node ∈ default [] (p_entities p)) as <-.
  { rewrite pattern_factors_elem. split.
    - intros (p & ? & ? & ->%involved_in_inj). eauto.
    - intros (p & ? & <- & ?). eauto. }
  repeat match goal with
         | |- context [if ?b then _ else _] => destruct b
         end;
    rewrite ?elem_of_app, ?elem_of_cons, ?elem_of_nil;
    unfold involved_in; simpl; split; intros; destruct_or?; try done; auto.
Qed.

End involvement.

(** A member of a pattern, the hub and the spokes of a hub-and-spoke
    pattern included. *)
Definition pattern_members (p : RiskPattern) : list string :=
  default [] (p_entities p) ++ option_list (p_hub p) ++ default [] (p_spokes p).

(** C8 as the design document has it: a node is reported as involved in a
    pattern type exactly when it is a member of a structural or temporal
    pattern of that type. *)
Definition involvement_of_members (L : Libs) `{PySetOrder Label} (G : Graph)
    (risk_threshold : pyfloat) : Prop :=
  ∀ m out node ty,
    calculate_network_metrics L G = Ok m →
    get_high_risk_entities L G risk_threshold = Ok out →
    node ∈ nodes G →
    ty ∈ ["circular_ownership"; "hub_spoke"; "isolated_subgroup";
          "bulk_incorporation"] →
    (∃ h, h ∈ out ∧ entity h = node ∧ involved_in ty ∈ risk_factors h)
    ↔ (∃ p, p ∈ risk_patterns m ++ temporal_patterns m
            ∧ p_type p = ty ∧ node ∈ pattern_members p).

(** The patterns and the ranked list of the quiet run. *)
Example quiet_run_patterns :
  match calculate_network_metrics (stand_in quiet_run) four_companies with
  | Ok m => (risk_patterns m, temporal_patterns m)
  | Raise _ => ([], [])
  end
  = ([hub_spoke_pattern ("A", ["B"; "C"; "D"])],
     [bulk_pattern "2024-01-01" ["A"; "B"; "C"] [("directors", ["x"])]]).
Proof. vm_compute. reflexivity. Qed.

Example quiet_run_ranking :
  match get_high_risk_entities (stand_in quiet_run) four_companies (Finite 0.8) with
  | Ok out => (λ h, (entity h, risk_factors h)) <$> out
  | Raise _ => []
  end
  = [("B", ["high_betweenness_centrality"; "high_anomaly_score"]);
     ("D", ["isolated_community"])].
Proof. vm_compute. reflexivity. Qed.

(** The hub [A] of the hub-and-spoke pattern is not reported as involved in
    it: it is not in the ranked list at all. *)
Lemma hub_not_reported :
  ¬ involvement_of_members (stand_in quiet_run) four_companies (Finite 0.8).
Proof.
  intros Hc. pose proof quiet_run_patterns as Hp. pose proof quiet_run_ranking as Hr.
  destruct (calculate_network_metrics (stand_in quiet_run) four_companies)
    as [m|] eqn:Em; [| discriminate Hp].
  destruct (get_high_risk_entities (stand_in quiet_run) four_companies (Finite 0.8))
    as [out|] eqn:Eo; [| discriminate Hr].
  injection Hp as Hrisk Htemp.
  destruct (proj2 (Hc m out "A" "hub_spoke" Em Eo ltac:(decided)
                      ltac:(decided))) as (h & Hh & He & _).
  - exists (hub_spoke_pattern ("A", ["B"; "C"; "D"])).
    rewrite Hrisk. split; [apply list_elem_of_here |]. split; [done |].
    apply list_elem_of_here.
  - apply (list_elem_of_fmap_2 (λ h, (entity h, risk_factors h))) in Hh.
    rewrite Hr, He in Hh.
    apply elem_of_cons in Hh as [[=] | Hh].
    apply elem_of_cons in Hh as [[=] | Hh]. by apply elem_of_nil in Hh.
Qed.

(** Nor is [B] reported as involved in the bulk incorporation of which it
    is an entity: the temporal patterns are not consulted. *)
Lemma bulk_incorporation_not_reported :
  match get_high_risk_entities (stand_in quiet_run) four_companies (Finite 0.8),
        calculate_network_metrics (stand_in quiet_run) four_companies with
  | Ok out, Ok m =>
      Exists (λ p, p_type p = "bulk_incorporation" ∧ "B" ∈ pattern_members p)
             (temporal_patterns m)
      ∧ Forall (λ h, involved_in "bulk_incorporation" ∉ risk_factors h) out
  | _, _ => False
  end.
Proof. decided. Qed.

(** C8, amended.  A node is reported as involved in a pattern type exactly
    when some pattern of that type in [metrics.risk_patterns] lists it under
    ['entities']; the temporal patterns are not consulted. *)
Theorem involvement_of_entities (L : Libs) `{PySetOrder Label} (G : Graph)
    (risk_threshold : pyfloat) (m : NetworkMetrics) (out : list HighRisk)
    (node ty : string) :
  calculate_network_metrics L G = Ok m →
  get_high_risk_entities L G risk_threshold = Ok out →
  node ∈ nodes G →
  (∃ h, h ∈ out ∧ entity h = node ∧ involved_in ty ∈ risk_factors h)
  ↔ (∃ p, p ∈ risk_patterns m ∧ p_type p = ty
          ∧ node ∈ default [] (p_entities p)).
Proof.
  unfold get_high_risk_entities. intros Hm Hout Hnode. rewrite Hm in Hout.
  simpl in Hout. apply bind_Ok in Hout as (fl & Hfl & [= <-]).
  setoid_rewrite sorted_desc_perm.
  pose proof (flagged_entities_spec G m risk_threshold fl Hfl) as Hspec.
  split.
  - intros (h & Hh & <- & Hin). apply Hspec in Hh as (_ & Hf & _).
    by apply (node_risk_factors_involved m _ _ _ ty) in Hf as <-.
  - intros Hp.
    destruct (for_each_steps _ _ _ _ Hfl node Hnode) as (s1 & s2 & Hstep).
    apply bind_Ok in Hstep as (fs & Hfs & Hstep).
    pose proof (proj2 (node_risk_factors_involved m _ _ _ ty Hfs) Hp) as Hin.
    destruct fs as [|f fs]; [by apply elem_of_nil in Hin |]. simpl in Hstep.
    returns.
    match goal with
    | Ha : anomaly_scores m !! node = Some ?a,
      Hc : centrality_scores m !! node = Some ?c |- _ =>
        exists {| entity := node; risk_factors := f :: fs;
                  anomaly_score := a; entity_centrality := c |}
    end.
    split; [| done]. apply Hspec. by repeat split.
Qed.

Lemma involvement_of_entities_witness :
  ∃ m out,
    calculate_network_metrics (stand_in quiet_run) four_companies = Ok m
    ∧ get_high_risk_entities (stand_in quiet_run) four_companies (Finite 0.8) = Ok out
    ∧ "A" ∈ nodes four_companies
    ∧ ((∃ h, h ∈ out ∧ entity h = "A" ∧ involved_in "hub_spoke" ∈ risk_factors h)
       ↔ (∃ p, p ∈ risk_patterns m ∧ p_type p = "hub_spoke"
               ∧ "A" ∈ default [] (p_entities p))).
Proof.
  destruct (calculate_network_metrics (stand_in quiet_run) four_companies)
    as [m|e] eqn:Em; [| exfalso; vm_compute in Em; discriminate Em].
  destruct (get_high_risk_entities (stand_in quiet_run) four_companies (Finite 0.8))
    as [out|e] eqn:Eo; [| exfalso; vm_compute in Eo; discriminate Eo].
  assert ("A" ∈ nodes four_companies) as Hn by decided.
  exists m, out.
  split; [reflexivity |]. split; [reflexivity |]. split; [exact Hn |].
  exact (involvement_of_entities (stand_in quiet_run) four_companies (Finite 0.8)
           m out "A" "hub_spoke" Em Eo Hn).
Defined.

(** *** The consensus of the three partitions *)

(** A loop that stores [g node] under every node. *)
Section store.
Context {V : Type} (g : string → result V).

Definition store_loop (m0 : gmap string V) (l : list string) : result (gmap string V) :=
  for_each (λ (m : gmap string V) (node : string),
              v ← g node; Ok (<[node := v]> m)) m0 l.

Lemma store_loop_lookup l m0 m node :
  store_loop m0 l = Ok m →
  m !! node = if decide (node ∈ l)
              then match g node with Ok v => Some v | Raise _ => None end
              else m0 !! node.
Proof.
  unfold store_loop. revert m0. induction l as [|n l IH]; intros m0; cbn [for_each].
  - intros [= <-]. by rewrite decide_False by apply not_elem_of_nil.
  - intros (m1 & Hstep & Hrest)%bind_Ok.
    apply bind_Ok in Hstep as (v & Hv & [= <-]).
    rewrite (IH _ Hrest). destruct (decide (node ∈ l)) as [Hin|Hin].
    + by rewrite decide_True by (by right).
    + destruct (decide (node = n)) as [->|Hne].
      * rewrite decide_True by (by left). by rewrite lookup_insert_eq, Hv.
      * rewrite decide_False by (by intros [?|?]%elem_of_cons).
        by rewrite lookup_insert_ne.
Qed.

Lemma store_loop_returns l m0 :
  (∀ node, node ∈ l → ∃ v, g node = Ok v) → ∃ m, store_loop m0 l = Ok m.
Proof.
  intros Hg. apply for_each_returns. intros m node Hnode.
  destruct (Hg node Hnode) as [v ->]. simpl. eauto.
Qed.
End store.

(** [max]: the element returned has a key that no element exceeds, and it
    is the first such element of the iteration. *)
Definition first_maximal {A} (key : A → nat) (it : list A) (b : A) : Prop :=
  ∃ pre post, it = pre ++ b :: post
              ∧ Forall (λ x, key x < key b) pre
              ∧ Forall (λ x, key x ≤ key b) post.

Lemma py_max_spec {A} (key : A → nat) (it : list A) :
  match py_max key it with
  | Some b => first_maximal key it b
  | None => it = []
  end.
Proof.
  unfold py_max. induction it as [|x it IH] using rev_ind; [done |].
  rewrite foldl_snoc.
  destruct (foldl _ None it) as [b|]; simpl in *.
  - destruct IH as (pre & post & -> & Hpre & Hpost). case_decide as Hlt.
    + exists (pre ++ b :: post), []. split_and!; [done | | constructor].
      rewrite Forall_app, Forall_cons. split_and!.
      * eapply Forall_impl; [exact Hpre |]. simpl. lia.
      * done.
      * eapply Forall_impl; [exact Hpost |]. simpl. lia.
    + exists pre, (post ++ [x]). split_and!; [by rewrite <- app_assoc | done |].
      rewrite Forall_app, Forall_singleton. split; [done | lia].
  - subst it. exists [], []. by split_and!; constructor.
Qed.

Lemma first_maximal_elem {A} (key : A → nat) it (b : A) :
  first_maximal key it b → b ∈ it ∧ ∀ x, x ∈ it → key x ≤ key b.
Proof.
  intros (pre & post & -> & Hpre & Hpost). split; [set_solver |].
  intros x. rewrite elem_of_app, elem_of_cons.
  rewrite Forall_forall in Hpre, Hpost.
  intros [?%Hpre | [-> | ?%Hpost]]; lia.
Qed.

(** The keys of the label-propagation dictionary are positions, so that
    looking a node up in it finds nothing. *)
Lemma label_prop_dict_get communities (node : string) :
  items_get (label_prop_dict communities) (KStr node) = None.
Proof.
  unfold items_get, label_prop_dict.
  assert (∀ (pos : nat → Z) (l : list (list string)),
            filter (λ kv : pykey * list string, kv.1 = KStr node)
                   (imap (λ i comm, (KInt (pos i), comm)) l) = []) as Hgen.
  { intros pos l. revert pos. induction l as [|c l IH]; intros pos; [done |].
    rewrite imap_cons, filter_cons_False by done. apply (IH (pos ∘ S)). }
  by rewrite (Hgen Z.of_nat).
Qed.

Lemma most_common_ints `{PySetOrder Label} (a b c : Z) :
  ∃ z, most_common [LInt a; LInt b; LInt c] = Ok z
       ∧ first_maximal (λ x, count x [LInt a; LInt b; LInt c])
                       (set_list [LInt a; LInt b; LInt c]) (LInt z).
Proof.
  unfold most_common. cbn [forallb hashable andb].
  pose proof (py_max_spec (λ x, count x [LInt a; LInt b; LInt c])
                (set_list [LInt a; LInt b; LInt c])) as Hmax.
  destruct (py_max _ _) as [[z|s]|].
  - eauto.
  - exfalso. apply first_maximal_elem in Hmax as [Hin _].
    rewrite set_list_elem in Hin.
    repeat (apply elem_of_cons in Hin as [[=] | Hin]). by apply elem_of_nil in Hin.
  - exfalso. assert (LInt a ∈ set_list [LInt a; LInt b; LInt c]) as Hin
      by (apply set_list_elem, list_elem_of_here).
    rewrite Hmax in Hin. by apply elem_of_nil in Hin.
Qed.

(** What the loop stores for the nodes, once the three partitioners have
    returned. *)
Lemma detect_communities_spec (L : Libs) `{PySetOrder Label} (G : Graph)
    (louvain : gmap string Z) (communities : list (list string))
    (gn : gmap string Z) :
  best_partition L G = Ok louvain →
  nx_label_propagation_communities L G = Ok communities →
  gn_partition L G louvain = Ok gn →
  ∃ ensemble,
    _detect_communities L G = Ok ensemble
    ∧ ∀ node, node ∈ nodes G →
        ∃ z, ensemble !! node = Some z
             ∧ first_maximal
                 (λ x, count x [louvain_label louvain node;
                                label_prop_label (label_prop_dict communities) node;
                                gn_label gn node])
                 (set_list [louvain_label louvain node;
                            label_prop_label (label_prop_dict communities) node;
                            gn_label gn node]) (LInt z).
Proof.
  intros Hlouvain Hlp Hgn.
  unfold _detect_communities. rewrite Hlouvain, Hlp. simpl. rewrite Hgn. simpl.
  set (vote := λ node : string,
         most_common [louvain_label louvain node;
                      label_prop_label (label_prop_dict communities) node;
                      gn_label gn node]).
  assert (∀ node, ∃ z, vote node = Ok z
            ∧ first_maximal
                (λ x, count x [louvain_label louvain node;
                               label_prop_label (label_prop_dict communities) node;
                               gn_label gn node])
                (set_list [louvain_label louvain node;
                           label_prop_label (label_prop_dict communities) node;
                           gn_label gn node]) (LInt z)) as Hvote.
  { intros node. unfold vote, label_prop_label, louvain_label, gn_label.
    rewrite label_prop_dict_get. apply most_common_ints. }
  destruct (store_loop_returns vote (nodes G) ∅) as [ensemble Hens].
  { intros node _. destruct (Hvote node) as (z & ? & _). eauto. }
  exists ensemble. split; [exact Hens |]. intros node Hnode.
  destruct (Hvote node) as (z & Hz & Hfirst). exists z.
  by rewrite (store_loop_lookup vote _ _ _ node Hens), decide_True, Hz by done.
Qed.

(** C2, amended.  When the three partitioners return, [_detect_communities]
    does, and the community of a node is the label that occurs most often
    among the three that the loop collects for it; when several labels occur
    equally often, it is the one that Python's iteration over the set of the
    three yields first.  For a graph of 1000 nodes or more the hierarchical
    partition is the Louvain one. *)
Theorem consensus_vote (L : Libs) `{PySetOrder Label} (G : Graph)
    (louvain : gmap string Z) (communities : list (list string))
    (gn : gmap string Z) :
  best_partition L G = Ok louvain →
  nx_label_propagation_communities L G = Ok communities →
  gn_partition L G louvain = Ok gn →
  (1000 ≤ length (nodes G) → gn = louvain)
  ∧ ∃ ensemble,
      _detect_communities L G = Ok ensemble
      ∧ ∀ node, node ∈ nodes G →
          let labels := [louvain_label louvain node;
                         label_prop_label (label_prop_dict communities) node;
                         gn_label gn node] in
          ∃ z, ensemble !! node = Some z
               ∧ LInt z ∈ labels
               ∧ (∀ x, x ∈ labels → count x labels ≤ count (LInt z) labels)
               ∧ first_maximal (λ x, count x labels) (set_list labels) (LInt z).
Proof.
  intros Hlouvain Hlp Hgn. split.
  { intros Hbig. unfold gn_partition in Hgn.
    rewrite decide_False in Hgn by lia. congruence. }
  destruct (detect_communities_spec L G _ _ _ Hlouvain Hlp Hgn)
    as (ensemble & Hens & Hspec).
  exists ensemble. split; [exact Hens |]. intros node Hnode labels.
  destruct (Hspec node Hnode) as (z & Hz & Hfirst). exists z.
  split; [done |].
  destruct (first_maximal_elem _ _ _ Hfirst) as [Hin Hmost].
  split; [by rewrite set_list_elem in Hin |]. split; [| done].
  intros x Hx. apply Hmost. by apply set_list_elem.
Qed.

Lemma consensus_vote_witness :
  best_partition (stand_in quiet_run) four_companies
    = Ok (list_to_map (sc_louvain quiet_run))
  ∧ nx_label_propagation_communities (stand_in quiet_run) four_companies
    = Ok (sc_label_propagation quiet_run)
  ∧ gn_partition (stand_in quiet_run) four_companies
                 (list_to_map (sc_louvain quiet_run))
    = Ok (level_dict (sc_girvan_newman quiet_run))
  ∧ ∃ ensemble,
      @_detect_communities (stand_in quiet_run) four_companies insertion_order
        = Ok ensemble
      ∧ ∃ z, ensemble !! "D" = Some z.
Proof.
  assert (gn_partition (stand_in quiet_run) four_companies
            (list_to_map (sc_louvain quiet_run))
          = Ok (level_dict (sc_girvan_newman quiet_run))) as Hgn by reflexivity.
  split; [reflexivity |]. split; [reflexivity |]. split; [exact Hgn |].
  destruct (@consensus_vote (stand_in quiet_run) insertion_order four_companies
              _ _ _ eq_refl eq_refl Hgn) as (_ & ensemble & Hens & Hspec).
  exists ensemble. split; [exact Hens |].
  destruct (Hspec "D" ltac:(decided)) as (z & Hz & _). by exists z.
Defined.

(** C2 as the design document has it: every partition gives the node the
    number of its community, and among labels that occur equally often the
    one of the partition that comes first in the order modularity, label
    propagation, hierarchical is taken. *)
Definition partition_label (communities : list (list string)) (node : string) : Label :=
  LInt (default 0%Z (level_dict communities !! node)).

Definition precedence_vote (labels : list Label) : option Label :=
  py_max (λ x, count x labels) labels.

Definition consensus_by_precedence (L : Libs) `{PySetOrder Label} (G : Graph) : Prop :=
  ∀ louvain communities gn ensemble node,
    best_partition L G = Ok louvain →
    nx_label_propagation_communities L G = Ok communities →
    gn_partition L G louvain = Ok gn →
    _detect_communities L G = Ok ensemble →
    node ∈ nodes G →
    LInt <$> ensemble !! node
    = precedence_vote [louvain_label louvain node;
                       partition_label communities node;
                       gn_label gn node].

(** The order in which CPython iterates over a set of small non-negative
    integers: by value, since such an integer is its own hash and sits in
    the slot of that number. *)
Definition label_le (x y : Label) : Prop :=
  match x, y with
  | LInt a, LInt b => (a ≤ b)%Z
  | LInt _, LSet _ => True
  | LSet _, LInt _ => False
  | LSet _, LSet _ => True
  end.

#[export] Instance label_le_dec x y : Decision (label_le x y).
Proof. destruct x, y; simpl; apply _. Defined.

Program Definition value_order : PySetOrder Label :=
  {| set_list l := merge_sort label_le (remove_dups l) |}.
Next Obligation. intros. rewrite merge_sort_Permutation. apply NoDup_remove_dups. Qed.
Next Obligation.
  intros. rewrite merge_sort_Permutation. apply elem_of_remove_dups.
Qed.

(** A run in which the three partitions disagree on [B]: Louvain puts it in
    community 1, label propagation in its first community (number 0) and
    Girvan-Newman in community 2. *)
Definition tie_run : Scenario :=
  {| converges := true; invertible := true;
     sc_betweenness := [];
     sc_louvain := [("A", 0%Z); ("B", 1%Z); ("C", 2%Z); ("D", 2%Z)];
     sc_label_propagation := [["A"; "B"]; ["C"; "D"]];
     sc_girvan_newman := [["A"]; ["C"; "D"]; ["B"]];
     sc_hub_spoke := []; sc_isolated := []; sc_shared := [] |}.

Example tie_run_labels :
  [louvain_label (list_to_map (sc_louvain tie_run)) "B";
   partition_label (sc_label_propagation tie_run) "B";
   gn_label (level_dict (sc_girvan_newman tie_run)) "B"]
  = [LInt 1; LInt 0; LInt 2]
  ∧ @set_list _ value_order [LInt 1; LInt 0; LInt 2] = [LInt 0; LInt 1; LInt 2]
  ∧ precedence_vote [LInt 1; LInt 0; LInt 2] = Some (LInt 1).
Proof. split_and!; vm_compute; reflexivity. Qed.

Example tie_run_community :
  match @_detect_communities (stand_in tie_run) four_companies value_order with
  | Ok ensemble => ensemble !! "B"
  | Raise _ => None
  end = Some 0%Z.
Proof. vm_compute. reflexivity. Qed.

(** With three different labels the node gets the one that the set yields
    first, here label 0, not the Louvain label 1. *)
Lemma tie_not_broken_by_precedence :
  ¬ @consensus_by_precedence (stand_in tie_run) value_order four_companies.
Proof.
  intros Hc. pose proof tie_run_community as Hb.
  destruct (@_detect_communities (stand_in tie_run) four_companies value_order)
    as [ensemble|] eqn:E; [| discriminate Hb].
  specialize (Hc (list_to_map (sc_louvain tie_run)) (sc_label_propagation tie_run)
                 (level_dict (sc_girvan_newman tie_run)) ensemble "B"
                 eq_refl eq_refl eq_refl E ltac:(decided)).
  destruct tie_run_labels as (Hl & _ & Hv).
  rewrite Hb, Hl, Hv in Hc. discriminate Hc.
Qed.

(** A run in which Louvain and label propagation agree on [B] (community 1)
    and Girvan-Newman puts it in community 0. *)
Definition agreeing_run : Scenario :=
  {| converges := true; invertible := true;
     sc_betweenness := [];
     sc_louvain := [("A", 0%Z); ("B", 1%Z); ("C", 0%Z); ("D", 0%Z)];
     sc_label_propagation := [["A"; "C"; "D"]; ["B"]];
     sc_girvan_newman := [["A"; "B"]; ["C"; "D"]];
     sc_hub_spoke := []; sc_isolated := []; sc_shared := [] |}.

(** Whatever the iteration order of sets, [B] then gets community 0: the
    label collected for label propagation is the default of [get], because
    the keys of its dictionary are positions and not nodes. *)
Lemma label_propagation_vote_lost `{PySetOrder Label} :
  ∃ ensemble,
    _detect_communities (stand_in agreeing_run) four_companies = Ok ensemble
    ∧ ensemble !! "B" = Some 0%Z
    ∧ precedence_vote
        [louvain_label (list_to_map (sc_louvain agreeing_run)) "B";
         partition_label (sc_label_propagation agreeing_run) "B";
         gn_label (level_dict (sc_girvan_newman agreeing_run)) "B"]
      = Some (LInt 1).
Proof.
  destruct (detect_communities_spec (stand_in agreeing_run) four_companies
              (list_to_map (sc_louvain agreeing_run))
              (sc_label_propagation agreeing_run)
              (level_dict (sc_girvan_newman agreeing_run))
              eq_refl eq_refl eq_refl) as (ensemble & Hens & Hspec).
  exists ensemble. split; [exact Hens |]. split; [| by vm_compute].
  destruct (Hspec "B" ltac:(decided)) as (z & -> & Hfirst).
  apply first_maximal_elem in Hfirst as [Hin Hmost].
  assert ([louvain_label (list_to_map (sc_louvain agreeing_run)) "B";
           label_prop_label (label_prop_dict (sc_label_propagation agreeing_run)) "B";
           gn_label (level_dict (sc_girvan_newman agreeing_run)) "B"]
          = [LInt 1; LInt 0; LInt 0]) as Hl by (vm_compute; reflexivity).
  rewrite Hl in Hin, Hmost. clear Hl.
  specialize (Hmost (LInt 0)). rewrite !set_list_elem in *.
  specialize (Hmost ltac:(right; left)).
  repeat (apply elem_of_cons in Hin as [[= ->] | Hin]); try done.
  - vm_compute in Hmost. lia.
  - by apply elem_of_nil in Hin.
Qed.

(** *** The graph without nodes *)

Definition empty_metrics : NetworkMetrics :=
  {| centrality_scores := ∅; community_membership := ∅; risk_patterns := [];
     temporal_patterns := []; suspicious_cycles := []; anomaly_scores := ∅ |}.

(** The graph-level routines and the helper methods return empty results:
    no community, one level without communities, no cycle, no pattern. *)
Definition quiet_on (L : Libs) (G : Graph) : Prop :=
  best_partition L G = Ok ∅
  ∧ nx_label_propagation_communities L G = Ok []
  ∧ nx_girvan_newman L G = Ok [[]]
  ∧ nx_simple_cycles L G = Ok []
  ∧ _find_circular_ownership L G = Ok []
  ∧ _identify_hub_spoke_patterns L G = Ok []
  ∧ _analyze_network_growth L G = Ok []
  ∧ _identify_isolated_subgroups L G = Ok [].

(** C5 as the design document has it. *)
Definition empty_graph_accepted (L : Libs) `{PySetOrder Label} : Prop :=
  ∀ G, nodes G = [] → quiet_on L G →
       calculate_network_metrics L G = Ok empty_metrics.

Definition empty_run : Scenario :=
  {| converges := true; invertible := true;
     sc_betweenness := []; sc_louvain := []; sc_label_propagation := [];
     sc_girvan_newman := []; sc_hub_spoke := []; sc_isolated := [];
     sc_shared := [] |}.

Lemma empty_run_quiet : quiet_on (stand_in empty_run) empty_graph.
Proof. by repeat split. Qed.

(** On [nx.Graph()] the scaler gets no sample and the run ends with its
    [ValueError]. *)
Lemma empty_graph_raises :
  ¬ @empty_graph_accepted (stand_in empty_run) insertion_order.
Proof.
  intros Hc. specialize (Hc empty_graph eq_refl empty_run_quiet).
  assert (@calculate_network_metrics (stand_in empty_run) empty_graph insertion_order
          = Raise "ValueError") as E by (vm_compute; reflexivity).
  rewrite E in Hc. discriminate Hc.
Qed.

(** C5, amended.  On a graph without nodes the centrality, community,
    pattern and cycle components return empty results, but the anomaly
    scorer hands an empty list of samples to the scaler: when the scaler
    raises, so do [_calculate_anomaly_scores] and
    [calculate_network_metrics], and no bundle is returned. *)
Theorem empty_graph_components (L : Libs) `{PySetOrder Label} (G : Graph) (e : exn) :
  nodes G = [] →
  quiet_on L G →
  sk_fit_transform L [] = Raise e →
  _calculate_centrality_metrics L G = Ok ∅
  ∧ _detect_communities L G = Ok ∅
  ∧ _identify_risk_patterns L G = Ok []
  ∧ _analyze_temporal_patterns L G = Ok []
  ∧ _detect_suspicious_cycles L G = Ok []
  ∧ _calculate_anomaly_scores L G = Raise e
  ∧ calculate_network_metrics L G = Raise e.
Proof.
  intros Hnodes (Hbp & Hlp & Hgn & Hcyc & Hcirc & Hhub & Hgrow & Hiso) Hscale.
  assert (g_node G = []) as Hg by (by apply fmap_nil_inv in Hnodes).
  assert (_calculate_centrality_metrics L G = Ok ∅) as H1.
  { unfold _calculate_centrality_metrics. by rewrite Hnodes. }
  assert (_detect_communities L G = Ok ∅) as H2.
  { unfold _detect_communities, gn_partition.
    rewrite Hbp, Hlp, Hnodes. simpl. by rewrite Hgn. }
  assert (_identify_risk_patterns L G = Ok []) as H3.
  { unfold _identify_risk_patterns. by rewrite Hcirc, Hhub, Hgrow, Hiso. }
  assert (_analyze_temporal_patterns L G = Ok []) as H4.
  { unfold _analyze_temporal_patterns, date_groups. by rewrite Hg. }
  assert (_detect_suspicious_cycles L G = Ok []) as H5.
  { unfold _detect_suspicious_cycles. by rewrite Hcyc. }
  assert (_calculate_anomaly_scores L G = Raise e) as H6.
  { unfold _calculate_anomaly_scores, feature_rows. rewrite Hnodes. simpl.
    by rewrite Hscale. }
  split_and!; try done.
  unfold calculate_network_metrics. by rewrite H1, H2, H3, H4, H5, H6.
Qed.

Lemma empty_graph_components_witness :
  nodes empty_graph = []
  ∧ quiet_on (stand_in empty_run) empty_graph
  ∧ sk_fit_transform (stand_in empty_run) [] = Raise "ValueError"
  ∧ @calculate_network_metrics (stand_in empty_run) empty_graph insertion_order
    = Raise "ValueError".
Proof.
  split; [reflexivity |]. split; [exact empty_run_quiet |]. split; [reflexivity |].
  apply (@empty_graph_components (stand_in empty_run) insertion_order empty_graph
           "ValueError" eq_refl empty_run_quiet eq_refl).
Defined.

(** *** Power iteration that does not converge *)

(** C6 as the design document has it. *)
Definition survives_non_convergence (L : Libs) `{PySetOrder Label} (G : Graph) : Prop :=
  nx_eigenvector_centrality L G 1000 = Raise "PowerIterationFailedConvergence" →
  ∃ m, calculate_network_metrics L G = Ok m
       ∧ ∀ n, n ∈ nodes G → is_Some (centrality_scores m !! n).

(** The quiet run, except that the power iteration does not converge. *)
Definition diverging_run : Scenario :=
  {| converges := false; invertible := true;
     sc_betweenness := sc_betweenness quiet_run;
     sc_louvain := sc_louvain quiet_run;
     sc_label_propagation := sc_label_propagation quiet_run;
     sc_girvan_newman := sc_girvan_newman quiet_run;
     sc_hub_spoke := sc_hub_spoke quiet_run;
     sc_isolated := sc_isolated quiet_run;
     sc_shared := sc_shared quiet_run |}.

Lemma non_convergence_propagates :
  ¬ @survives_non_convergence (stand_in diverging_run) insertion_order four_companies.
Proof.
  intros Hc. destruct (Hc eq_refl) as (m & Hm & _).
  assert (@calculate_network_metrics (stand_in diverging_run) four_companies
            insertion_order = Raise "PowerIterationFailedConvergence") as E
    by (vm_compute; reflexivity).
  rewrite E in Hm. discriminate Hm.
Qed.

(** C6, amended.  The exception that [nx.eigenvector_centrality] raises
    when it does not converge is not caught: with the cap of 1000 it leaves
    [_calculate_centrality_metrics] and [calculate_network_metrics] at the
    first node, and with the default cap it leaves
    [_calculate_anomaly_scores]. *)
Theorem non_convergence_aborts (L : Libs) `{PySetOrder Label} (G : Graph)
    (node : string) (rest : list string) (e : exn)
    (d1 d2 : gmap string pyfloat) :
  nodes G = node :: rest →
  nx_degree_centrality L G = Ok d1 → is_Some (d1 !! node) →
  nx_betweenness_centrality L G = Ok d2 → is_Some (d2 !! node) →
  (nx_eigenvector_centrality L G 1000 = Raise e →
   _calculate_centrality_metrics L G = Raise e
   ∧ calculate_network_metrics L G = Raise e)
  ∧ (nx_eigenvector_centrality L G default_max_iter = Raise e →
     _calculate_anomaly_scores L G = Raise e).
Proof.
  intros Hnodes Hd1 [v1 Hv1] Hd2 [v2 Hv2]. split.
  - intros Heig.
    assert (_calculate_centrality_metrics L G = Raise e) as Hc.
    { unfold _calculate_centrality_metrics, node_metrics, index.
      rewrite Hnodes. simpl. rewrite Hd1. simpl. rewrite Hv1. simpl.
      rewrite Hd2. simpl. rewrite Hv2. simpl. by rewrite Heig. }
    split; [done |]. unfold calculate_network_metrics. by rewrite Hc.
  - intros Heig. unfold _calculate_anomaly_scores, feature_rows, node_features, index.
    rewrite Hnodes. simpl. rewrite Hd1. simpl. rewrite Hv1. simpl.
    rewrite Hd2. simpl. rewrite Hv2. simpl. by rewrite Heig.
Qed.

Lemma non_convergence_aborts_witness :
  ∃ rest d1 d2,
    nodes four_companies = "A" :: rest
    ∧ nx_degree_centrality (stand_in diverging_run) four_companies = Ok d1
    ∧ is_Some (d1 !! "A")
    ∧ nx_betweenness_centrality (stand_in diverging_run) four_companies = Ok d2
    ∧ is_Some (d2 !! "A")
    ∧ nx_eigenvector_centrality (stand_in diverging_run) four_companies 1000
      = Raise "PowerIterationFailedConvergence"
    ∧ @calculate_network_metrics (stand_in diverging_run) four_companies
        insertion_order = Raise "PowerIterationFailedConvergence".
Proof.
  assert (nodes four_companies = "A" :: ["B"; "C"; "D"]) as Hn
    by (vm_compute; reflexivity).
  set (d1 := all_nodes four_companies zero).
  set (d2 := list_to_map (prod_map id Finite <$> sc_betweenness diverging_run)
             ∪ all_nodes four_companies zero).
  assert (is_Some (d1 !! "A")) as H1 by decided.
  assert (is_Some (d2 !! "A")) as H2 by decided.
  exists ["B"; "C"; "D"], d1, d2.
  split; [exact Hn |]. split; [reflexivity |]. split; [exact H1 |].
  split; [reflexivity |]. split; [exact H2 |]. split; [reflexivity |].
  apply (@non_convergence_aborts (stand_in diverging_run) insertion_order
           four_companies "A" ["B"; "C"; "D"] "PowerIterationFailedConvergence"
           d1 d2 Hn eq_refl H1 eq_refl H2).
  reflexivity.
Defined.

(** *** A singular covariance matrix *)

(** **** What singular means

    A matrix is invertible when it is square, its entries are numbers and
    its determinant is not zero; it is singular otherwise. *)

Definition finite_value (x : pyfloat) : option Q :=
  match x with Finite q => Some q | _ => None end.

(** The determinant of an [n]×[n] matrix, expanded along its first row. *)
Fixpoint determinant (n : nat) (C : list (list Q)) : Q :=
  match n, C with
  | O, _ => 1%Q
  | S _, [] => 0%Q
  | S n', row :: rest =>
      foldr Qplus 0%Q
            (imap (λ j a, Qmult (if Nat.even j then a else Qopp a)
                                (determinant n' (delete j <$> rest))) row)
  end.

Definition nonsingular (C : matrix) : bool :=
  match mapM (mapM finite_value) C with
  | Some V =>
      forallb (λ row, length row =? length V) V
      && negb (Qeq_bool (determinant (length V) V) 0)
  | None => false
  end.

Definition singular (C : matrix) : Prop := nonsingular C = false.

Example determinant_2x2 :
  Qeq_bool (determinant 2 [[1; 2]; [3; 4]]%Q) (-2) = true.
Proof. reflexivity. Qed.

Example determinant_3x3 :
  Qeq_bool (determinant 3 [[2; 0; 1]; [1; 3; 2]; [1; 1; 1]]%Q) 0 = true.
Proof. reflexivity. Qed.

Example nonsingular_identity :
  nonsingular [[Finite 1; Finite 0]; [Finite 0; Finite 1]] = true.
Proof. reflexivity. Qed.

Example singular_rank_one :
  singular [[Finite 1; Finite 2]; [Finite 2; Finite 4]].
Proof. reflexivity. Qed.

(** **** The claim and the code *)

(** C7 as the specification states it: on a singular covariance matrix the
    method fails with [SingularCovariance], and so returns no scores. *)
Definition singular_covariance_condition (L : Libs) (G : Graph) : Prop :=
  ∀ features normalized cov,
    feature_rows L G = Ok features →
    sk_fit_transform L features = Ok normalized →
    np_cov_T L normalized = Ok cov →
    singular cov →
    _calculate_anomaly_scores L G = Raise "SingularCovariance"
    ∧ ∀ scores, _calculate_anomaly_scores L G ≠ Ok scores.

(** The libraries of a call in which [np.cov] answers [v_cov],
    [np.linalg.inv] answers [v_inv] and every quadratic form is [v_q]; the
    other routines answer as in [L]. *)
Definition with_numpy (L : Libs) (v_cov : matrix) (v_inv : result matrix)
    (v_q : pyfloat) : Libs :=
  {| nx_degree_centrality := nx_degree_centrality L;
     nx_betweenness_centrality := nx_betweenness_centrality L;
     nx_eigenvector_centrality := nx_eigenvector_centrality L;
     nx_pagerank := nx_pagerank L;
     nx_load_centrality := nx_load_centrality L;
     nx_katz_centrality := nx_katz_centrality L;
     nx_clustering := nx_clustering L;
     best_partition := best_partition L;
     nx_label_propagation_communities := nx_label_propagation_communities L;
     nx_girvan_newman := nx_girvan_newman L;
     nx_simple_cycles := nx_simple_cycles L;
     sk_fit_transform := sk_fit_transform L;
     np_cov_T _ := Ok v_cov;
     np_linalg_inv _ := v_inv;
     np_mean_axis0 := np_mean_axis0 L;
     np_sub := np_sub L;
     np_quadratic_form _ _ := Ok v_q;
     np_sqrt := np_sqrt L;
     _calculate_reach_centrality := _calculate_reach_centrality L;
     _find_circular_ownership := _find_circular_ownership L;
     _identify_hub_spoke_patterns := _identify_hub_spoke_patterns L;
     _analyze_network_growth := _analyze_network_growth L;
     _identify_isolated_subgroups := _identify_isolated_subgroups L;
     _check_shared_attributes := _check_shared_attributes L;
     _calculate_cycle_risk := _calculate_cycle_risk L |}.

(** A graph of one company.  The feature matrix has one row, and [np.cov]
    of one observation divides by [N - 1 = 0]: every entry of the
    covariance matrix is a NaN.  [np.linalg.inv] finds no zero pivot in
    such a matrix and returns a matrix of NaNs. *)
Definition one_company : Graph :=
  add_node "A" (incorporated "2024-01-01") empty_graph.

Definition nan_matrix : matrix := replicate 5 (replicate 5 NaN).

Definition one_sample_call : Libs :=
  with_numpy (stand_in quiet_run) nan_matrix (Ok nan_matrix) NaN.

Example one_sample_steps :
  feature_rows one_sample_call one_company = Ok [replicate 5 zero]
  ∧ sk_fit_transform one_sample_call [replicate 5 zero] = Ok [replicate 5 zero]
  ∧ np_cov_T one_sample_call [replicate 5 zero] = Ok nan_matrix
  ∧ singular nan_matrix
  ∧ np_linalg_inv one_sample_call nan_matrix = Ok nan_matrix
  ∧ np_mean_axis0 one_sample_call [replicate 5 zero] = Ok (replicate 5 zero).
Proof. repeat split; vm_compute; reflexivity. Qed.

(** The method goes on with that matrix and returns a score that is not a
    number. *)
Example one_sample_scores :
  _calculate_anomaly_scores one_sample_call one_company = Ok {["A" := NaN]}.
Proof. vm_compute. reflexivity. Qed.

(** C7 fails as stated, and not by the name of an exception: on the
    singular covariance matrix of a graph of one company no exception is
    raised at all and a NaN is returned as the anomaly score. *)
Lemma singular_covariance_proceeds :
  ¬ singular_covariance_condition one_sample_call one_company.
Proof.
  intros Hc. destruct one_sample_steps as (Hf & Hn & Hcov & Hsing & _).
  destruct (Hc _ _ _ Hf Hn Hcov Hsing) as [_ Hnone].
  exact (Hnone _ one_sample_scores).
Qed.

(** The quiet run, except that [np.linalg.inv] rejects the covariance
    matrix. *)
Definition singular_run : Scenario :=
  {| converges := true; invertible := false;
     sc_betweenness := sc_betweenness quiet_run;
     sc_louvain := sc_louvain quiet_run;
     sc_label_propagation := sc_label_propagation quiet_run;
     sc_girvan_newman := sc_girvan_newman quiet_run;
     sc_hub_spoke := sc_hub_spoke quiet_run;
     sc_isolated := sc_isolated quiet_run;
     sc_shared := sc_shared quiet_run |}.

Example singular_run_features :
  feature_rows (stand_in singular_run) four_companies
  = Ok [[zero; zero; zero; zero; zero];
        [zero; Finite 0.85; zero; zero; zero];
        [zero; zero; zero; zero; zero];
        [zero; zero; zero; zero; zero]].
Proof. vm_compute. reflexivity. Qed.

(** Where numpy does reject the matrix, the exception of the method is
    numpy's own. *)
Example singular_run_raises :
  _calculate_anomaly_scores (stand_in singular_run) four_companies
  = Raise "LinAlgError".
Proof. vm_compute. reflexivity. Qed.

(** **** What the method does with a singular matrix *)

Lemma imap_pair_snd {A} (l : list A) : (imap pair l).*2 = l.
Proof.
  apply list_eq. intros i.
  rewrite list_lookup_fmap, list_lookup_imap. by destruct (l !! i).
Qed.

(** The second loop returns when each of its steps does, and then holds a
    score for every node. *)
Lemma score_rows_returns (L : Libs) (G : Graph) (normalized inv_cov : matrix)
    (mean : list pyfloat) :
  (∀ i node, nodes G !! i = Some node →
     ∃ row diff q, normalized !! i = Some row
                   ∧ np_sub L row mean = Ok diff
                   ∧ np_quadratic_form L diff inv_cov = Ok q) →
  ∃ scores, score_rows L G normalized inv_cov mean = Ok scores
            ∧ dom scores = list_to_set (nodes G).
Proof.
  intros Hsteps. unfold score_rows.
  edestruct (for_each_returns (X := nat * string) (S := gmap string pyfloat))
    as [scores Hscores]; cycle 1.
  - exists scores. split; [exact Hscores |].
    apply (for_each_insert_dom snd) in Hscores.
    + by rewrite Hscores, dom_empty_L, (left_id_L ∅ (∪)), imap_pair_snd.
    + intros m [i node] m' Hstep. simpl.
      destruct (normalized !! i) as [row|]; [| done].
      apply bind_Ok in Hstep as (diff & _ & Hstep).
      apply bind_Ok in Hstep as (q & _ & [= <-]). eauto.
  - intros m [i node] (j & n & [= -> ->] & Hnode)%elem_of_lookup_imap.
    destruct (Hsteps _ _ Hnode) as (row & diff & q & -> & Hdiff & Hq).
    simpl. rewrite Hdiff. simpl. rewrite Hq. simpl. eauto.
Qed.

(** C7, amended.  The method has no [SingularCovariance] condition and no
    check of the covariance matrix: when the matrix is singular, what
    [np.linalg.inv] does with it decides.  If it raises, the method ends
    with that very exception and returns no scores; if it returns a
    matrix, the method goes on with that matrix, and when the remaining
    numpy steps return it returns a score for every node. *)
Theorem singular_covariance_unchecked (L : Libs) (G : Graph)
    (features normalized cov : matrix) :
  feature_rows L G = Ok features →
  sk_fit_transform L features = Ok normalized →
  np_cov_T L normalized = Ok cov →
  singular cov →
  (∀ e, np_linalg_inv L cov = Raise e →
        _calculate_anomaly_scores L G = Raise e
        ∧ ∀ scores, _calculate_anomaly_scores L G ≠ Ok scores)
  ∧ (∀ inv_cov,
        np_linalg_inv L cov = Ok inv_cov →
        _calculate_anomaly_scores L G
        = (mean ← np_mean_axis0 L normalized;
           score_rows L G normalized inv_cov mean)
        ∧ ∀ mean,
            np_mean_axis0 L normalized = Ok mean →
            (∀ i node, nodes G !! i = Some node →
               ∃ row diff q, normalized !! i = Some row
                             ∧ np_sub L row mean = Ok diff
                             ∧ np_quadratic_form L diff inv_cov = Ok q) →
            ∃ scores, _calculate_anomaly_scores L G = Ok scores
                      ∧ dom scores = list_to_set (nodes G)).
Proof.
  intros Hf Hs Hc _.
  assert (_calculate_anomaly_scores L G
          = (inv_cov ← np_linalg_inv L cov;
             mean ← np_mean_axis0 L normalized;
             score_rows L G normalized inv_cov mean)) as E.
  { unfold _calculate_anomaly_scores. rewrite Hf. simpl. rewrite Hs. simpl.
    by rewrite Hc. }
  split.
  - intros e He. rewrite E, He. by split.
  - intros inv_cov Hi. rewrite E, Hi. simpl. split; [done |].
    intros mean -> Hsteps. simpl. by apply score_rows_returns.
Qed.

Lemma singular_covariance_unchecked_witness :
  feature_rows one_sample_call one_company = Ok [replicate 5 zero]
  ∧ np_cov_T one_sample_call [replicate 5 zero] = Ok nan_matrix
  ∧ singular nan_matrix
  ∧ np_linalg_inv one_sample_call nan_matrix = Ok nan_matrix
  ∧ ∃ scores, _calculate_anomaly_scores one_sample_call one_company = Ok scores
              ∧ dom scores = list_to_set (nodes one_company).
Proof.
  destruct one_sample_steps as (Hf & Hn & Hcov & Hsing & Hinv & Hmean).
  split; [exact Hf |]. split; [exact Hcov |]. split; [exact Hsing |].
  split; [exact Hinv |].
  destruct (singular_covariance_unchecked one_sample_call one_company
              _ _ _ Hf Hn Hcov Hsing) as [_ Hreturns].
  destruct (Hreturns _ Hinv) as [_ Hscores].
  apply (Hscores _ Hmean).
  intros i node Hnode. destruct i as [|i]; [| discriminate Hnode].
  exists (replicate 5 zero), (replicate 5 zero), NaN. by repeat split.
Defined.

End AnalyzerFacts.

(** ** More on [build_company_network] *)

Module FetcherMore.
Import Py PyFacts Nx Fetcher FetcherFacts.

(** *** Bundles without a profile *)

Lemma foldl_skip {A B} (f : A → B → A) (P : B → Prop) `{∀ x, Decision (P x)}
    (a : A) (l : list B) :
  (∀ a x, ¬ P x → f a x = a) → foldl f a (filter P l) = foldl f a l.
Proof.
  intros Hskip. revert a. induction l as [|x l IH]; intros a; [done |].
  rewrite filter_cons. case_decide as HP; cbn [foldl]; [done |].
  by rewrite (Hskip a x HP).
Qed.

(** X1.  A bundle whose profile fails the test [if profile:] is skipped by the
    node loop and by the three grouping loops: it leaves no trace in the
    graph, whatever officers and PSCs it lists. *)
Theorem bundles_without_profile_ignored `{PySetOrder string}
    (companies_data : list Bundle) :
  build_company_network (filter (λ data, is_Some (profile data)) companies_data)
  = build_company_network companies_data.
Proof.
  assert (∀ data : Bundle, ¬ is_Some (profile data) → profile data = None) as Hnone.
  { intros data Hp. destruct (profile data); [| done]. by destruct Hp. }
  unfold build_company_network, _add_psc_relationships, _add_address_relationships,
    _add_director_relationships, add_company_nodes, director_companies,
    address_companies, psc_companies.
  rewrite !foldl_skip; [done | ..];
    intros a data Hp; by rewrite (Hnone data Hp).
Qed.

(** *** The nodes of the graph *)

Lemma node_update_keys n a l : (node_update n a l).*1 = set_add n l.*1.
Proof.
  unfold set_add. induction l as [|[m b] l IH].
  - destruct (decide (n ∈ ([] : list (string * NodeAttr)).*1))
      as [[]%elem_of_nil |]; done.
  - cbn [node_update]. rewrite fmap_cons. cbn [fst].
    destruct (decide (m = n)) as [-> | Hm].
    + by rewrite decide_True by apply list_elem_of_here.
    + rewrite fmap_cons, IH. cbn [fst].
      destruct (decide (n ∈ l.*1)) as [Hin|Hin].
      * by rewrite decide_True by (by right).
      * rewrite decide_False; [done |].
        intros [?|?]%elem_of_cons; congruence.
Qed.

Lemma add_company_nodes_nodes G companies_data :
  NoDup (nodes G) →
  NoDup (nodes (add_company_nodes G companies_data))
  ∧ ∀ c, c ∈ nodes (add_company_nodes G companies_data)
         ↔ c ∈ nodes G
           ∨ ∃ data, data ∈ companies_data
                     ∧ company_number <$> profile data = Some c.
Proof.
  unfold add_company_nodes. revert G.
  induction companies_data as [|data l IH]; intros G HG; simpl.
  - split; [done |]. intros c. split; [auto |].
    intros [? | (? & []%elem_of_nil & _)]; done.
  - destruct (profile data) as [p|] eqn:Hp.
    + destruct (IH (add_node (company_number p) (node_attr p data) G)) as [IH1 IH2].
      { unfold nodes, add_node. simpl. rewrite node_update_keys.
        by apply set_add_NoDup. }
      split; [done |]. intros c. rewrite IH2.
      unfold nodes at 1, add_node. simpl. rewrite node_update_keys, set_add_elem.
      setoid_rewrite elem_of_cons. split.
      * intros [[-> | ?] | (b & ? & ?)]; eauto 10.
        right. exists data. rewrite Hp. auto.
      * intros [? | (b & [-> | ?] & Hb)]; eauto 10.
        rewrite Hp in Hb. injection Hb as <-. auto.
    + destruct (IH G HG) as [IH1 IH2]. split; [done |]. intros c. rewrite IH2.
      setoid_rewrite elem_of_cons. split.
      * intros [? | (b & ? & ?)]; eauto 10.
      * intros [? | (b & [-> | ?] & Hb)]; eauto 10. by rewrite Hp in Hb.
Qed.

(** [add_edge] between two nodes leaves the node dictionary alone. *)
Lemma add_edge_g_node u v attr G :
  u ∈ nodes G → v ∈ nodes G → g_node (add_edge u v attr G) = g_node G.
Proof.
  intros Hu Hv. unfold add_edge, ensure_node. simpl.
  rewrite (decide_True (P := u ∈ (g_node G).*1)) by done.
  by rewrite decide_True by done.
Qed.

Section edges_keep_nodes.
Context `{PySetOrder string}.

Lemma link_pairs_g_node attr (ps : list (string * string)) G :
  Forall (λ p, p.1 ∈ nodes G ∧ p.2 ∈ nodes G) ps →
  g_node (foldl (λ G '(a, b), add_edge a b attr G) G ps) = g_node G.
Proof.
  revert G. induction ps as [|[a b] ps IH]; intros G Hps; [done |].
  apply Forall_cons in Hps as [[Ha Hb] Hps]. cbn [foldl]. simpl in Ha, Hb.
  assert (g_node (add_edge a b attr G) = g_node G) as Hg
    by (by apply add_edge_g_node).
  rewrite IH; [done |]. unfold nodes. by rewrite Hg.
Qed.

Lemma link_group_g_node attr G (s : list string) :
  Forall (λ c, c ∈ nodes G) s → g_node (link_group attr G s) = g_node G.
Proof.
  intros Hs. unfold link_group. case_decide; [| done].
  apply link_pairs_g_node. apply Forall_forall. intros [a b] Hab.
  apply index_pairs_elem in Hab as (Ha & Hb & _).
  rewrite Forall_forall in Hs. rewrite set_list_elem in Ha, Hb.
  split; simpl; auto.
Qed.

Lemma link_groups_g_node {K} attr G (d : list (K * list string)) :
  Forall (λ ks, Forall (λ c, c ∈ nodes G) ks.2) d →
  g_node (link_groups attr G d) = g_node G.
Proof.
  unfold link_groups. revert G. induction d as [|[k s] d IH]; intros G Hd; [done |].
  apply Forall_cons in Hd as [Hs Hd]. csimpl.
  assert (g_node (link_group attr G s) = g_node G) as Hg
    by (by apply link_group_g_node).
  rewrite IH; [done |]. unfold nodes. by rewrite Hg.
Qed.

(** The members of the groups are company numbers of bundles with a
    profile. *)
Lemma groups_from_members `{EqDecision K} (kb : Bundle → list K)
    (companies_data : list Bundle) (G : Graph) :
  (∀ data c, data ∈ companies_data → company_number <$> profile data = Some c →
             c ∈ nodes G) →
  Forall (λ ks, Forall (λ c, c ∈ nodes G) ks.2) (groups_from kb [] companies_data).
Proof.
  intros Hnodes.
  destruct (groups_from_spec kb companies_data [] wf_groups_nil) as [_ Hin].
  apply Forall_forall. intros [k s] Hks. apply Forall_forall. intros c Hc.
  assert (in_group (groups_from kb [] companies_data) k c) as Hg by (by exists s).
  apply Hin in Hg as [(? & []%elem_of_nil & _) | Hk].
  apply rule_keys_elem in Hk as (data & ? & ? & _). eauto.
Qed.

Lemma build_company_network_g_node (companies_data : list Bundle) :
  g_node (build_company_network companies_data)
  = g_node (add_company_nodes empty_graph companies_data).
Proof.
  unfold build_company_network, _add_psc_relationships,
    _add_address_relationships, _add_director_relationships.
  rewrite director_companies_groups, address_companies_groups, psc_companies_groups.
  set (G0 := add_company_nodes empty_graph companies_data).
  assert (∀ data c, data ∈ companies_data →
                    company_number <$> profile data = Some c → c ∈ nodes G0) as H0.
  { intros data c Hd Hc.
    apply (add_company_nodes_nodes empty_graph companies_data); [constructor |].
    eauto. }
  assert (∀ G, g_node G = g_node G0 →
               ∀ data c, data ∈ companies_data →
                         company_number <$> profile data = Some c → c ∈ nodes G)
    as Hsame.
  { intros G HG data c Hd Hc. unfold nodes. rewrite HG. by eapply H0. }
  set (G1 := link_groups _ G0 (groups_from director_kb [] companies_data)).
  assert (g_node G1 = g_node G0) as E1
    by (apply link_groups_g_node, groups_from_members, H0).
  set (G2 := link_groups _ G1 (groups_from address_kb [] companies_data)).
  assert (g_node G2 = g_node G0) as E2.
  { rewrite <- E1. apply link_groups_g_node, groups_from_members. by apply Hsame. }
  rewrite <- E2. apply link_groups_g_node, groups_from_members. by apply Hsame.
Qed.

End edges_keep_nodes.

(** The nodes of the graph, as a set. *)
Lemma build_company_network_node_elem `{PySetOrder string}
    (companies_data : list Bundle) (c : string) :
  c ∈ nodes (build_company_network companies_data)
  ↔ ∃ data, data ∈ companies_data
            ∧ company_number <$> profile data = Some c.
Proof.
  unfold nodes. rewrite build_company_network_g_node.
  destruct (add_company_nodes_nodes empty_graph companies_data) as [_ Hin];
    [constructor |].
  unfold nodes in Hin. rewrite Hin.
  split; [| auto]. intros [[]%elem_of_nil | ?]. done.
Qed.

(** X2.  The graph has one node for every company number that comes with a
    profile, and no other node: the three edge rules never make
    [add_edge] create a node. *)
Theorem built_graph_nodes `{PySetOrder string} (companies_data : list Bundle) :
  NoDup (nodes (build_company_network companies_data))
  ∧ ∀ c, c ∈ nodes (build_company_network companies_data)
         ↔ ∃ data, data ∈ companies_data
                   ∧ company_number <$> profile data = Some c.
Proof.
  split; [| apply build_company_network_node_elem].
  unfold nodes. rewrite build_company_network_g_node.
  apply (add_company_nodes_nodes empty_graph companies_data). constructor.
Qed.

(** *** Which pairs are adjacent, and with which type *)

(** [data] is a bundle of the input with a profile for company [c]. *)
Definition listed (companies_data : list Bundle) (c : string) (data : Bundle) : Prop :=
  data ∈ companies_data ∧ company_number <$> profile data = Some c.

(** Both companies list an officer with the same name, month and year of
    birth. *)
Definition shares_director (companies_data : list Bundle) (u v : string) : Prop :=
  ∃ du dv ou ov,
    listed companies_data u du ∧ listed companies_data v dv
    ∧ ou ∈ officers du ∧ ov ∈ officers dv
    ∧ director_key ou = director_key ov.

(** Both companies have a registered office with the same first line and
    post code. *)
Definition shares_address (companies_data : list Bundle) (u v : string) : Prop :=
  ∃ du dv au av,
    listed companies_data u du ∧ listed companies_data v dv
    ∧ profile du ≫= registered_office_address = Some au
    ∧ profile dv ≫= registered_office_address = Some av
    ∧ address_key au = address_key av.

(** Both companies list a PSC of kind [corporate-entity] with the same
    name. *)
Definition shares_corporate_psc (companies_data : list Bundle) (u v : string) : Prop :=
  ∃ du dv qu qv,
    listed companies_data u du ∧ listed companies_data v dv
    ∧ qu ∈ psc du ∧ psc_kind qu = Some "corporate-entity"
    ∧ qv ∈ psc dv ∧ psc_kind qv = Some "corporate-entity"
    ∧ psc_name qu = psc_name qv.

Lemma common_key_elem {K} (ku kv : list K) :
  common_key ku kv ↔ ∃ k, k ∈ ku ∧ k ∈ kv.
Proof. unfold common_key. by rewrite Exists_exists. Qed.

Lemma director_kb_elem data k :
  k ∈ director_kb data ↔ ∃ o, o ∈ officers data ∧ k = director_key o.
Proof. unfold director_kb. rewrite list_elem_of_fmap. naive_solver. Qed.

Lemma address_kb_elem data k :
  k ∈ address_kb data
  ↔ ∃ a, profile data ≫= registered_office_address = Some a ∧ k = address_key a.
Proof.
  unfold address_kb.
  destruct (profile data ≫= registered_office_address) as [a|]; simpl.
  - rewrite list_elem_of_singleton. naive_solver.
  - split; [by intros ?%elem_of_nil | by intros (? & ? & ?)].
Qed.

Lemma psc_kb_elem data k :
  k ∈ psc_kb data
  ↔ ∃ q, q ∈ psc data ∧ psc_kind q = Some "corporate-entity" ∧ k = psc_name q.
Proof.
  unfold psc_kb. rewrite list_elem_of_fmap.
  setoid_rewrite list_elem_of_filter. naive_solver.
Qed.

Lemma proposes_director companies_data u v :
  proposes companies_data SharedDirector u v
  ↔ u ≠ v ∧ shares_director companies_data u v.
Proof.
  unfold proposes, shares_director, listed. apply and_iff_compat_l.
  change (director_keys companies_data) with (rule_keys director_kb companies_data).
  rewrite common_key_elem. setoid_rewrite rule_keys_elem.
  setoid_rewrite director_kb_elem. split.
  - intros (k & (du & ? & ? & ou & ? & ->) & (dv & ? & ? & ov & ? & ?)).
    by exists du, dv, ou, ov.
  - intros (du & dv & ou & ov & [? ?] & [? ?] & ? & ? & ?).
    exists (director_key ou). split; [by exists du; eauto | by exists dv; eauto].
Qed.

Lemma proposes_address companies_data u v :
  proposes companies_data SharedAddress u v
  ↔ u ≠ v ∧ shares_address companies_data u v.
Proof.
  unfold proposes, shares_address, listed. apply and_iff_compat_l.
  change (address_keys companies_data) with (rule_keys address_kb companies_data).
  rewrite common_key_elem. setoid_rewrite rule_keys_elem.
  setoid_rewrite address_kb_elem. split.
  - intros (k & (du & ? & ? & au & ? & ->) & (dv & ? & ? & av & ? & ?)).
    by exists du, dv, au, av.
  - intros (du & dv & au & av & [? ?] & [? ?] & ? & ? & ?).
    exists (address_key au). split; [by exists du; eauto | by exists dv; eauto].
Qed.

Lemma proposes_psc companies_data u v :
  proposes companies_data SharedPsc u v
  ↔ u ≠ v ∧ shares_corporate_psc companies_data u v.
Proof.
  unfold proposes, shares_corporate_psc, listed. apply and_iff_compat_l.
  change (psc_keys companies_data) with (rule_keys psc_kb companies_data).
  rewrite common_key_elem. setoid_rewrite rule_keys_elem.
  setoid_rewrite psc_kb_elem. split.
  - intros (k & (du & ? & ? & qu & ? & ? & ->) & (dv & ? & ? & qv & ? & ? & ?)).
    by exists du, dv, qu, qv.
  - intros (du & dv & qu & qv & [? ?] & [? ?] & ? & ? & ? & ? & ?).
    exists (psc_name qu).
    split; [by exists du; eauto 10 | by exists dv; eauto 10].
Qed.

Lemma last_proposing_rule companies_data u v r :
  last (proposing_rules companies_data u v) = Some r
  ↔ match r with
    | SharedPsc => proposes companies_data SharedPsc u v
    | SharedAddress =>
        proposes companies_data SharedAddress u v
        ∧ ¬ proposes companies_data SharedPsc u v
    | SharedDirector =>
        proposes companies_data SharedDirector u v
        ∧ ¬ proposes companies_data SharedAddress u v
        ∧ ¬ proposes companies_data SharedPsc u v
    end.
Proof.
  rewrite proposing_rules_last.
  destruct (decide (proposes companies_data SharedPsc u v));
    destruct (decide (proposes companies_data SharedAddress u v));
    destruct (decide (proposes companies_data SharedDirector u v));
    destruct r; naive_solver.
Qed.

(** Adjacency in terms of the records of the input. *)
Lemma build_company_network_adjacent `{PySetOrder string}
    (companies_data : list Bundle) (u v : string) :
  edges_between (build_company_network companies_data) u v ≠ []
  ↔ u ≠ v ∧ (shares_director companies_data u v
             ∨ shares_address companies_data u v
             ∨ shares_corporate_psc companies_data u v).
Proof.
  rewrite build_company_network_edges.
  destruct (last (proposing_rules companies_data u v)) as [r|] eqn:E.
  - split; [intros _ | done].
    apply last_proposing_rule in E. destruct r.
    + destruct E as [E _]. apply proposes_director in E. naive_solver.
    + destruct E as [E _]. apply proposes_address in E. naive_solver.
    + apply proposes_psc in E. naive_solver.
  - split; [done |]. intros [Hne Hshare]. exfalso.
    assert (∀ r, ¬ proposes companies_data r u v) as Hnone.
    { intros r Hr. apply last_None in E.
      assert (r ∈ proposing_rules companies_data u v) as Hin.
      { unfold proposing_rules. apply list_elem_of_filter. split; [done |].
        destruct r; set_solver. }
      rewrite E in Hin. by apply elem_of_nil in Hin. }
    destruct Hshare as [Hs | [Hs | Hs]].
    + apply (Hnone SharedDirector), proposes_director. done.
    + apply (Hnone SharedAddress), proposes_address. done.
    + apply (Hnone SharedPsc), proposes_psc. done.
Qed.

(** X3.  Two companies are adjacent exactly when they are distinct and share a
    director key, a registered office key or a corporate PSC name, and
    then by one edge only. *)
Theorem adjacent_iff_shared_record `{PySetOrder string}
    (companies_data : list Bundle) (u v : string) :
  length (edges_between (build_company_network companies_data) u v) ≤ 1
  ∧ (edges_between (build_company_network companies_data) u v ≠ []
     ↔ u ≠ v ∧ (shares_director companies_data u v
                ∨ shares_address companies_data u v
                ∨ shares_corporate_psc companies_data u v)).
Proof.
  split; [| apply build_company_network_adjacent].
  rewrite build_company_network_edges.
  destruct (last (proposing_rules companies_data u v)); simpl; lia.
Qed.

(** X4.  The type of the edge of a pair, for every pair: [shared_psc] when the
    two share a corporate PSC; [shared_address] when they share a
    registered office but no corporate PSC; [shared_director] when a
    director is all they share.  PSCs of any other kind never count. *)
Theorem edge_type_by_shared_records `{PySetOrder string}
    (companies_data : list Bundle) (u v : string) :
  let G := build_company_network companies_data in
  (typed_edge G u v "shared_psc" 0.8
   ↔ u ≠ v ∧ shares_corporate_psc companies_data u v)
  ∧ (typed_edge G u v "shared_address" 0.6
     ↔ u ≠ v ∧ shares_address companies_data u v
       ∧ ¬ shares_corporate_psc companies_data u v)
  ∧ (typed_edge G u v "shared_director" 0.7
     ↔ u ≠ v ∧ shares_director companies_data u v
       ∧ ¬ shares_address companies_data u v
       ∧ ¬ shares_corporate_psc companies_data u v).
Proof.
  intros G. subst G.
  pose proof (build_company_network_typed_edge companies_data u v SharedPsc) as Hp.
  pose proof (build_company_network_typed_edge companies_data u v SharedAddress) as Ha.
  pose proof (build_company_network_typed_edge companies_data u v SharedDirector) as Hd.
  simpl in Hp, Ha, Hd. rewrite Hp, Ha, Hd, !last_proposing_rule.
  rewrite proposes_director, proposes_address, proposes_psc.
  split_and!; tauto.
Qed.

(** *** The graph is simple and undirected *)

Lemma proposes_sym companies_data r u v :
  proposes companies_data r u v ↔ proposes companies_data r v u.
Proof.
  unfold proposes. destruct r; rewrite !common_key_elem; naive_solver.
Qed.

Lemma shared_record_listed companies_data u v :
  shares_director companies_data u v ∨ shares_address companies_data u v
  ∨ shares_corporate_psc companies_data u v →
  (∃ du, listed companies_data u du) ∧ (∃ dv, listed companies_data v dv).
Proof.
  unfold shares_director, shares_address, shares_corporate_psc. naive_solver.
Qed.

(** X5.  The adjacency of the graph is symmetric, no company is its own
    neighbour, and both ends of an edge are nodes of the graph. *)
Theorem built_graph_simple `{PySetOrder string}
    (companies_data : list Bundle) (u v : string) :
  let G := build_company_network companies_data in
  edges_between G u v = edges_between G v u
  ∧ edges_between G u u = []
  ∧ (edges_between G u v ≠ [] → u ∈ nodes G ∧ v ∈ nodes G).
Proof.
  intros G. subst G. split_and!.
  - rewrite !build_company_network_edges.
    replace (proposing_rules companies_data v u)
      with (proposing_rules companies_data u v); [done |].
    unfold proposing_rules. apply list_filter_iff. intros r. apply proposes_sym.
  - destruct (edges_between (build_company_network companies_data) u u) eqn:E;
      [done |].
    assert (edges_between (build_company_network companies_data) u u ≠ []) as Hne
      by (by rewrite E).
    apply build_company_network_adjacent in Hne as [Hne _]. done.
  - intros Hne. apply build_company_network_adjacent in Hne as [_ Hs].
    apply shared_record_listed in Hs as [[du [? ?]] [dv [? ?]]].
    split; apply build_company_network_node_elem; eauto.
Qed.

(** *** More records *)

(** X6.  Adding bundles to the input never removes a node or separates two
    adjacent companies (the type of their edge may change). *)
Theorem more_records_keep_edges `{PySetOrder string}
    (companies_data more_data : list Bundle) :
  companies_data ⊆ more_data →
  nodes (build_company_network companies_data)
    ⊆ nodes (build_company_network more_data)
  ∧ ∀ u v, edges_between (build_company_network companies_data) u v ≠ [] →
           edges_between (build_company_network more_data) u v ≠ [].
Proof.
  intros Hsub. split.
  - intros c. rewrite !build_company_network_node_elem.
    intros (data & ? & ?). exists data. split; [by apply Hsub | done].
  - intros u v Hne.
    apply build_company_network_adjacent in Hne as [Hne Hs].
    apply build_company_network_adjacent. split; [done |].
    unfold shares_director, shares_address, shares_corporate_psc, listed in *.
    destruct Hs as [Hs | [Hs | Hs]]; [left | right; left | right; right];
      destruct Hs as (du & dv & x & y & [? ?] & [? ?] & Hrest);
      exists du, dv, x, y;
      (split; [split; [by apply Hsub | done] |]);
      (split; [split; [by apply Hsub | done] | exact Hrest]).
Qed.

Lemma more_records_keep_edges_witness :
  sample_data ⊆ sample_data ++ [company "D" ["x"] None []]
  ∧ nodes (@build_company_network insertion_order sample_data)
      ⊆ nodes (@build_company_network insertion_order
                 (sample_data ++ [company "D" ["x"] None []])).
Proof.
  assert (sample_data ⊆ sample_data ++ [company "D" ["x"] None []]) as Hsub
    by (intros data Hd; apply elem_of_app; by left).
  split; [exact Hsub |].
  exact (proj1 (@more_records_keep_edges insertion_order _ _ Hsub)).
Defined.

(** *** Records that lack their identifying fields *)

(** X7.  Officers are compared by name, month and year of birth as [.get]
    returns them: an officer with no name and no date of birth in one
    company and another such officer in a second company make the two
    companies adjacent. *)
Theorem unnamed_officers_link `{PySetOrder string}
    (companies_data : list Bundle) (u v : string) (du dv : Bundle) (ou ov : Officer) :
  u ≠ v →
  listed companies_data u du → listed companies_data v dv →
  ou ∈ officers du → ov ∈ officers dv →
  officer_name ou = None → date_of_birth ou = None →
  officer_name ov = None → date_of_birth ov = None →
  edges_between (build_company_network companies_data) u v ≠ [].
Proof.
  intros Hne Hu Hv Hou Hov Hn1 Hb1 Hn2 Hb2.
  apply build_company_network_adjacent. split; [done |]. left.
  exists du, dv, ou, ov. split_and!; try done.
  unfold director_key. by rewrite Hn1, Hb1, Hn2, Hb2.
Qed.

Definition unnamed_officer : Officer :=
  {| officer_name := None; date_of_birth := None |}.

Definition with_unnamed_officer (c : string) : Bundle :=
  {| profile := Some {| company_number := c; date_of_creation := None;
                        profile_type := None; profile_status := None;
                        profile_sic_codes := [];
                        registered_office_address := None |};
     officers := [unnamed_officer];
     psc := [];
     filing_history := [] |}.

Lemma unnamed_officers_link_witness :
  "A" ≠ "B"
  ∧ edges_between
      (@build_company_network insertion_order
         [with_unnamed_officer "A"; with_unnamed_officer "B"]) "A" "B" ≠ [].
Proof.
  assert ("A" ≠ "B") as Hne by discriminate.
  split; [exact Hne |].
  apply (@unnamed_officers_link insertion_order
           [with_unnamed_officer "A"; with_unnamed_officer "B"] "A" "B"
           (with_unnamed_officer "A") (with_unnamed_officer "B")
           unnamed_officer unnamed_officer Hne);
    try reflexivity.
  - split; [apply list_elem_of_here | reflexivity].
  - split; [apply list_elem_of_further, list_elem_of_here | reflexivity].
  - apply list_elem_of_here.
  - apply list_elem_of_here.
Defined.

(** *** Node attributes *)

Lemma node_update_elem n a l : (n, a) ∈ node_update n a l.
Proof.
  induction l as [|[m b] l IH]; cbn [node_update]; [apply list_elem_of_here |].
  destruct (decide (m = n)) as [-> | _]; [apply list_elem_of_here | by right].
Qed.

Lemma node_update_other n a l c x :
  n ≠ c → (c, x) ∈ l → (c, x) ∈ node_update n a l.
Proof.
  intros Hne. induction l as [|[m b] l IH]; cbn [node_update];
    [by intros ?%elem_of_nil |].
  intros [Heq | Hin]%elem_of_cons; destruct (decide (m = n)) as [-> | _].
  - congruence.
  - rewrite Heq. apply list_elem_of_here.
  - by right.
  - right. by apply IH.
Qed.

Lemma add_company_nodes_keep G after c x :
  (∀ d, d ∈ after → company_number <$> profile d ≠ Some c) →
  (c, x) ∈ g_node G → (c, x) ∈ g_node (add_company_nodes G after).
Proof.
  unfold add_company_nodes. revert G.
  induction after as [|d after IH]; intros G Hafter Hin; [done |].
  cbn [foldl]. apply IH; [intros d' Hd'; apply Hafter; by right |].
  pose proof (Hafter d (list_elem_of_here _ _)) as Hd.
  destruct (profile d) as [q|]; [| done].
  unfold add_node. simpl. apply node_update_other; [| done].
  intros Heq. apply Hd. simpl. by rewrite Heq.
Qed.

Lemma unique_attr (l : list (string * NodeAttr)) c a b :
  NoDup l.*1 → (c, a) ∈ l → (c, b) ∈ l → a = b.
Proof.
  induction l as [|[m x] l IH]; [by intros _ ?%elem_of_nil |].
  rewrite fmap_cons. cbn [fst]. intros [Hm Hnd]%NoDup_cons.
  intros [Ha | Ha]%elem_of_cons [Hb | Hb]%elem_of_cons.
  - congruence.
  - injection Ha as -> ->. exfalso. apply Hm.
    apply list_elem_of_fmap. by exists (m, b).
  - injection Hb as -> ->. exfalso. apply Hm.
    apply list_elem_of_fmap. by exists (m, a).
  - by apply IH.
Qed.

(** X8.  When several bundles carry the same company number, the node keeps
    the attributes of the last of them: [add_node] on a node that is there
    overwrites all eight attributes. *)
Theorem node_attributes_of_last_bundle `{PySetOrder string}
    (companies_data before after : list Bundle) (data : Bundle) (p : Profile) :
  companies_data = before ++ data :: after →
  profile data = Some p →
  (∀ d, d ∈ after → company_number <$> profile d ≠ Some (company_number p)) →
  ∀ a, (company_number p, a) ∈ g_node (build_company_network companies_data)
       ↔ a = node_attr p data.
Proof.
  intros -> Hp Hafter a.
  assert ((company_number p, node_attr p data)
            ∈ g_node (build_company_network (before ++ data :: after))) as Hin.
  { rewrite build_company_network_g_node. unfold add_company_nodes.
    rewrite foldl_app. cbn [foldl]. rewrite Hp.
    apply add_company_nodes_keep; [done |].
    unfold add_node. simpl. apply node_update_elem. }
  split; [| by intros ->].
  intros Ha. eapply unique_attr; [| exact Ha | exact Hin].
  rewrite build_company_network_g_node.
  apply (add_company_nodes_nodes empty_graph (before ++ data :: after)). constructor.
Qed.

Lemma node_attributes_of_last_bundle_witness :
  ("A", {| incorporation_date := None; company_type := None;
           company_status := None; sic_codes := [];
           registered_office :=
             Some {| address_line_1 := Some "s"; postal_code := None |};
           directors := [officer_named "y"]; node_psc := [];
           node_filing_history := [] |})
    ∈ g_node (@build_company_network insertion_order
                [company "A" ["x"] None []; company "B" [] None [];
                 company "A" ["y"] (Some "s") []]).
Proof.
  apply (@node_attributes_of_last_bundle insertion_order _
           [company "A" ["x"] None []; company "B" [] None []] []
           (company "A" ["y"] (Some "s") [])
           {| company_number := "A"; date_of_creation := None;
              profile_type := None; profile_status := None;
              profile_sic_codes := [];
              registered_office_address :=
                Some {| address_line_1 := Some "s"; postal_code := None |} |}).
  - reflexivity.
  - reflexivity.
  - intros d Hd. by apply elem_of_nil in Hd.
  - reflexivity.
Defined.

(** *** Input without profiles *)

Lemma foldl_unchanged {A B} (f : A → B → A) (a : A) (l : list B) :
  (∀ a x, x ∈ l → f a x = a) → foldl f a l = a.
Proof.
  revert a. induction l as [|x l IH]; intros a Hf; [done |].
  cbn [foldl]. rewrite (Hf a x) by apply list_elem_of_here.
  apply IH. intros a' y Hy. apply Hf. by right.
Qed.

Lemma build_company_network_no_profile `{PySetOrder string}
    (companies_data : list Bundle) :
  (∀ data, data ∈ companies_data → profile data = None) →
  build_company_network companies_data = empty_graph.
Proof.
  intros Hnone.
  unfold build_company_network, _add_psc_relationships, _add_address_relationships,
    _add_director_relationships, add_company_nodes, director_companies,
    address_companies, psc_companies.
  rewrite !foldl_unchanged; [done | ..];
    intros a data Hdata; by rewrite (Hnone data Hdata).
Qed.

End FetcherMore.

(** ** More on [NetworkAnalyzer] *)

Module AnalyzerMore.
Import Py Nx Analyzer AnalyzerFacts.

(** *** Loops that keep part of what they go through *)

Section collect.
Context {X Y : Type} (g : X → result (option Y)).

(** A loop body that appends what [g] gives for the element, if anything. *)
Definition append_some (acc : list Y) (x : X) : result (list Y) :=
  o ← g x; Ok (acc ++ option_list o).

Lemma for_each_collect (f : list Y → X → result (list Y)) (l : list X) :
  (∀ acc x, f acc x = append_some acc x) →
  ∀ acc out,
    for_each f acc l = Ok out
    ↔ ∃ os, Forall2 (λ x o, g x = Ok o) l os ∧ out = acc ++ omap id os.
Proof.
  intros Hf. induction l as [|x l IH]; intros acc out; cbn [for_each].
  - split.
    + intros [= <-]. exists []. split; [constructor | by rewrite app_nil_r].
    + intros (os & Hos & ->). apply Forall2_nil_inv_l in Hos as ->.
      by rewrite app_nil_r.
  - rewrite Hf. unfold append_some. destruct (g x) as [o|e] eqn:Hg; simpl.
    + rewrite IH. split.
      * intros (os & Hos & ->). exists (o :: os). split; [by constructor |].
        destruct o; simpl; by rewrite <- app_assoc.
      * intros (os & Hos & ->).
        apply Forall2_cons_inv_l in Hos as (o' & os' & Ho' & Hos' & ->).
        assert (o' = o) as -> by congruence.
        exists os'. split; [done |]. destruct o; simpl; by rewrite <- app_assoc.
    + split; [discriminate |]. intros (os & Hos & _).
      apply Forall2_cons_inv_l in Hos as (o' & os' & Ho' & _). congruence.
Qed.

Lemma collected_elem (l : list X) (os : list (option Y)) (y : Y) :
  Forall2 (λ x o, g x = Ok o) l os →
  y ∈ omap id os ↔ ∃ x, x ∈ l ∧ g x = Ok (Some y).
Proof.
  induction 1 as [|x o l os Hx _ IH]; simpl.
  - split; [by intros ?%elem_of_nil | by intros (? & ?%elem_of_nil & _)].
  - setoid_rewrite elem_of_cons. destruct o as [y'|]; simpl.
    + rewrite elem_of_cons, IH. split.
      * intros [-> | (x' & ? & ?)]; eauto.
      * intros (x' & [-> | ?] & Hx'); [left; congruence | eauto].
    + rewrite IH. split.
      * intros (x' & ? & ?); eauto.
      * intros (x' & [-> | ?] & Hx'); [congruence | eauto].
Qed.

Lemma collected_sublist {K} (key : Y → K) (key' : X → K)
    (l : list X) (os : list (option Y)) :
  (∀ x y, g x = Ok (Some y) → key y = key' x) →
  Forall2 (λ x o, g x = Ok o) l os →
  sublist (key <$> omap id os) (key' <$> l).
Proof.
  intros Hkey. induction 1 as [|x o l os Hx _ IH]; simpl; [constructor |].
  destruct o as [y|]; simpl.
  - rewrite (Hkey x y Hx). by constructor.
  - by constructor.
Qed.

End collect.

(** *** The ranked list of [get_high_risk_entities] *)

Lemma float_lt_irrefl (x : pyfloat) : float_lt x x = false.
Proof.
  destruct x as [q| | |]; simpl; try done.
  apply not_true_is_false. rewrite Qltb_lt. apply Qlt_irrefl.
Qed.

Lemma float_lt_asym (x y : pyfloat) : float_lt x y = true → float_lt y x = false.
Proof.
  intros Hxy. destruct (float_lt y x) eqn:Hyx; [| done].
  by rewrite <- (float_lt_irrefl x), (float_lt_trans x y x).
Qed.

(** [a] may stand before [b] in a list sorted by decreasing score. *)
Definition not_below (a b : HighRisk) : Prop :=
  float_lt (anomaly_score a) (anomaly_score b) = false.

Lemma insert_desc_sorted (x : HighRisk) (l : list HighRisk) :
  StronglySorted not_below l → StronglySorted not_below (insert_desc x l).
Proof.
  induction l as [|y t IH]; intros Hs; cbn [insert_desc].
  - repeat constructor.
  - pose proof Hs as Hyt. apply StronglySorted_inv in Hyt as [Ht Hy].
    destruct (float_lt (anomaly_score y) (anomaly_score x)) eqn:Hyx.
    + constructor; [done |]. constructor; [by apply float_lt_asym |].
      eapply Forall_impl; [exact Hy |]. intros z Hz. unfold not_below in *.
      destruct (float_lt (anomaly_score x) (anomaly_score z)) eqn:Hxz; [| done].
      by rewrite <- Hz, (float_lt_trans _ _ _ Hyx Hxz).
    + constructor; [by apply IH |].
      rewrite insert_desc_perm. by constructor.
Qed.

Lemma sorted_desc_sorted (l : list HighRisk) : StronglySorted not_below (sorted_desc l).
Proof.
  unfold sorted_desc.
  assert (∀ acc, StronglySorted not_below acc →
                 StronglySorted not_below
                   (foldl (λ acc x, insert_desc x acc) acc l)) as Hgen.
  { induction l as [|x l IH]; intros acc Hacc; cbn [foldl]; [done |].
    by apply IH, insert_desc_sorted. }
  apply Hgen. constructor.
Qed.

Section ranking.
Context (L : Libs) `{PySetOrder Label}.
Variable G : Graph.

Lemma get_high_risk_entities_Ok risk_threshold out :
  get_high_risk_entities L G risk_threshold = Ok out
  ↔ ∃ metrics flagged,
      calculate_network_metrics L G = Ok metrics
      ∧ flagged_entities G metrics risk_threshold = Ok flagged
      ∧ out = sorted_desc flagged.
Proof.
  unfold get_high_risk_entities. split.
  - intros Hout. returns. subst. eauto.
  - intros (metrics & flagged & -> & Hf & ->). simpl. by rewrite Hf.
Qed.

(** What the loop body makes of one node. *)
Definition flag_of (metrics : NetworkMetrics) (risk_threshold : pyfloat)
    (node : string) : result (option HighRisk) :=
  risk_factors ← node_risk_factors metrics risk_threshold node;
  if truthy risk_factors then
    a ← index (anomaly_scores metrics) node;
    c ← index (centrality_scores metrics) node;
    Ok (Some {| entity := node; risk_factors := risk_factors;
                anomaly_score := a; entity_centrality := c |})
  else Ok None.

Lemma flagged_entities_collect metrics risk_threshold out :
  flagged_entities G metrics risk_threshold = Ok out
  ↔ ∃ os, Forall2 (λ node o, flag_of metrics risk_threshold node = Ok o) (nodes G) os
          ∧ out = omap id os.
Proof.
  unfold flagged_entities.
  rewrite (for_each_collect (flag_of metrics risk_threshold)); [done |].
  intros acc node. unfold append_some, flag_of.
  destruct (node_risk_factors metrics risk_threshold node) as [fs|]; simpl; [| done].
  destruct (truthy fs); simpl; [| by rewrite app_nil_r].
  destruct (index (anomaly_scores metrics) node); simpl; [| done].
  by destruct (index (centrality_scores metrics) node).
Qed.

Lemma flagged_entities_sublist metrics risk_threshold out :
  flagged_entities G metrics risk_threshold = Ok out →
  sublist (entity <$> out) (nodes G).
Proof.
  intros (os & Hos & ->)%flagged_entities_collect.
  rewrite <- (list_fmap_id (nodes G)).
  eapply collected_sublist; [| exact Hos].
  intros node h. unfold flag_of. intros Hh. returns.
  destruct (truthy _); [| done]. returns. by subst h.
Qed.

End ranking.

(** X9.  The list is in the order of decreasing anomaly score: no entity stands
    before one with a larger score.  (Where a score is a NaN, Python's
    [sorted] promises no order.) *)
Theorem ranking_by_decreasing_score (L : Libs) `{PySetOrder Label} (G : Graph)
    (risk_threshold : pyfloat) (out : list HighRisk) :
  get_high_risk_entities L G risk_threshold = Ok out →
  Forall (λ h, anomaly_score h ≠ NaN) out →
  StronglySorted not_below out.
Proof.
  intros (metrics & flagged & _ & _ & ->)%get_high_risk_entities_Ok _.
  apply sorted_desc_sorted.
Qed.

Lemma ranking_by_decreasing_score_witness :
  ∃ out,
    get_high_risk_entities (stand_in quiet_run) four_companies (Finite 0.8) = Ok out
    ∧ Forall (λ h, anomaly_score h ≠ NaN) out
    ∧ StronglySorted not_below out.
Proof.
  destruct (get_high_risk_entities (stand_in quiet_run) four_companies (Finite 0.8))
    as [out|e] eqn:E; [| exfalso; vm_compute in E; discriminate E].
  assert (Forall (λ h, anomaly_score h ≠ NaN) out) as Hnan.
  { vm_compute in E. injection E as <-. by repeat constructor. }
  exists out. split; [reflexivity |]. split; [exact Hnan |].
  exact (ranking_by_decreasing_score (stand_in quiet_run) four_companies
           (Finite 0.8) out E Hnan).
Defined.

(** X10.  Every element of the list is a node of the graph that has at least one
    risk factor, and carries the anomaly score and the centrality
    dictionary that the metrics hold for the node; the list is no longer
    than the node list, and no node appears twice. *)
Theorem ranked_entities_are_flagged_nodes (L : Libs) `{PySetOrder Label}
    (G : Graph) (risk_threshold : pyfloat) (metrics : NetworkMetrics)
    (out : list HighRisk) :
  calculate_network_metrics L G = Ok metrics →
  get_high_risk_entities L G risk_threshold = Ok out →
  (∀ h, h ∈ out →
        entity h ∈ nodes G
        ∧ risk_factors h ≠ []
        ∧ anomaly_scores metrics !! entity h = Some (anomaly_score h)
        ∧ centrality_scores metrics !! entity h = Some (entity_centrality h))
  ∧ length out ≤ length (nodes G)
  ∧ (NoDup (nodes G) → NoDup (entity <$> out)).
Proof.
  intros Hm (m & flagged & Hm' & Hf & ->)%get_high_risk_entities_Ok.
  assert (m = metrics) as -> by congruence.
  pose proof (flagged_entities_sublist G _ _ _ Hf) as Hsub.
  split_and!.
  - intros h Hh. rewrite sorted_desc_perm in Hh.
    apply (flagged_entities_spec G metrics risk_threshold flagged Hf) in Hh
      as (Hnode & _ & Hne & Ha & Hc).
    done.
  - rewrite sorted_desc_perm. apply sublist_length in Hsub.
    by rewrite length_fmap in Hsub.
  - intros Hnd. rewrite sorted_desc_perm. by eapply sublist_NoDup.
Qed.

Lemma ranked_entities_are_flagged_nodes_witness :
  ∃ metrics out,
    calculate_network_metrics (stand_in quiet_run) four_companies = Ok metrics
    ∧ get_high_risk_entities (stand_in quiet_run) four_companies (Finite 0.8) = Ok out
    ∧ length out ≤ length (nodes four_companies)
    ∧ (NoDup (nodes four_companies) → NoDup (entity <$> out)).
Proof.
  destruct (calculate_network_metrics (stand_in quiet_run) four_companies)
    as [metrics|e] eqn:Em; [| exfalso; vm_compute in Em; discriminate Em].
  destruct (get_high_risk_entities (stand_in quiet_run) four_companies (Finite 0.8))
    as [out|e] eqn:E; [| exfalso; vm_compute in E; discriminate E].
  exists metrics, out. split; [reflexivity |]. split; [reflexivity |].
  exact (proj2 (ranked_entities_are_flagged_nodes (stand_in quiet_run)
                  four_companies (Finite 0.8) metrics out Em E)).
Defined.

(** *** What the risk factors mean *)

Lemma elem_of_if_singleton (b : bool) (s x : string) :
  x ∈ (if b then [s] else []) ↔ b = true ∧ x = s.
Proof.
  destruct b; [rewrite list_elem_of_singleton | rewrite elem_of_nil]; naive_solver.
Qed.

Lemma elem_of_decide_singleton (P : Prop) `{Decision P} (s x : string) :
  x ∈ (if decide P then [s] else []) ↔ P ∧ x = s.
Proof.
  case_decide; [rewrite list_elem_of_singleton | rewrite elem_of_nil]; naive_solver.
Qed.

Section factors.
Variable metrics : NetworkMetrics.

(** The list that the loop body builds for a node, part by part. *)
Lemma node_risk_factors_Ok risk_threshold node fs :
  node_risk_factors metrics risk_threshold node = Ok fs
  ↔ ∃ c community_id a,
      centrality_scores metrics !! node = Some c
      ∧ community_membership metrics !! node = Some community_id
      ∧ anomaly_scores metrics !! node = Some a
      ∧ fs = (if float_gt (betweenness c) risk_threshold
              then ["high_betweenness_centrality"] else [])
             ++ (if float_gt (pagerank c) risk_threshold
                 then ["high_pagerank"] else [])
             ++ (if decide (community_size (community_membership metrics)
                              community_id < 3)
                 then ["isolated_community"] else [])
             ++ pattern_factors metrics node
             ++ (if float_gt a risk_threshold then ["high_anomaly_score"] else []).
Proof.
  unfold node_risk_factors. split.
  - intros Hfs. returns. eexists _, _, _. split_and!; [done .. |].
    subst fs.
    destruct (float_gt (betweenness _) _), (float_gt (pagerank _) _),
      (decide (_ < 3)), (float_gt _ risk_threshold);
      simpl; rewrite <- ?app_assoc, ?app_nil_r; reflexivity.
  - intros (c & cid & a & Hc & Hcid & Ha & ->).
    apply index_Ok in Hc, Hcid, Ha. rewrite Hc. simpl. rewrite Hcid. simpl.
    rewrite Ha. simpl. f_equal.
    destruct (float_gt (betweenness _) _), (float_gt (pagerank _) _),
      (decide (_ < 3)), (float_gt _ risk_threshold);
      simpl; rewrite <- ?app_assoc, ?app_nil_r; reflexivity.
Qed.

Lemma pattern_factors_not_named node (s : string) :
  s ∈ ["high_betweenness_centrality"; "high_pagerank"; "isolated_community";
       "high_anomaly_score"] →
  s ∉ pattern_factors metrics node.
Proof.
  intros Hs (p & _ & _ & Hp)%pattern_factors_elem. unfold involved_in in Hp.
  repeat (apply elem_of_cons in Hs as [-> | Hs]); try discriminate Hp.
  by apply elem_of_nil in Hs.
Qed.

End factors.

(** X11.  Each of the four fixed factors of a ranked entity says what its name
    says, by a strict comparison with the threshold: the betweenness or the
    PageRank or the anomaly score of the entity exceeds it, or fewer than
    three nodes have the community of the entity.  Every other factor is
    [involved_in_] followed by the type of a risk pattern that lists the
    entity. *)
Theorem risk_factor_meaning (L : Libs) `{PySetOrder Label} (G : Graph)
    (risk_threshold : pyfloat) (metrics : NetworkMetrics)
    (out : list HighRisk) (h : HighRisk) :
  calculate_network_metrics L G = Ok metrics →
  get_high_risk_entities L G risk_threshold = Ok out →
  h ∈ out →
  ("high_betweenness_centrality" ∈ risk_factors h
   ↔ float_gt (betweenness (entity_centrality h)) risk_threshold = true)
  ∧ ("high_pagerank" ∈ risk_factors h
     ↔ float_gt (pagerank (entity_centrality h)) risk_threshold = true)
  ∧ ("isolated_community" ∈ risk_factors h
     ↔ ∃ community_id,
         community_membership metrics !! entity h = Some community_id
         ∧ community_size (community_membership metrics) community_id < 3)
  ∧ ("high_anomaly_score" ∈ risk_factors h
     ↔ float_gt (anomaly_score h) risk_threshold = true)
  ∧ ∀ f, f ∈ risk_factors h →
         f ∈ ["high_betweenness_centrality"; "high_pagerank";
              "isolated_community"; "high_anomaly_score"]
         ∨ ∃ p, p ∈ risk_patterns metrics
                ∧ entity h ∈ default [] (p_entities p)
                ∧ f = "involved_in_" +:+ p_type p.
Proof.
  intros Hm (m & flagged & Hm' & Hf & ->)%get_high_risk_entities_Ok Hh.
  assert (m = metrics) as -> by congruence.
  rewrite sorted_desc_perm in Hh.
  apply (flagged_entities_spec G metrics risk_threshold flagged Hf) in Hh
    as (_ & Hfs & _ & Ha & Hc).
  apply node_risk_factors_Ok in Hfs as (c & cid & a & Hc' & Hcid & Ha' & Hfs).
  assert (c = entity_centrality h) as -> by congruence.
  assert (a = anomaly_score h) as -> by congruence.
  pose proof (pattern_factors_not_named metrics (entity h)) as Hpf.
  rewrite Hfs.
  repeat setoid_rewrite elem_of_app.
  repeat setoid_rewrite elem_of_if_singleton.
  setoid_rewrite elem_of_decide_singleton.
  split_and!.
  - split; [| tauto].
    intros [[? _] | [[_ [=]] | [[_ [=]] | [Hp | [_ [=]]]]]]; [done |].
    exfalso. revert Hp. apply Hpf. set_solver.
  - split; [| tauto].
    intros [[_ [=]] | [[? _] | [[_ [=]] | [Hp | [_ [=]]]]]]; [done |].
    exfalso. revert Hp. apply Hpf. set_solver.
  - split.
    + intros [[_ [=]] | [[_ [=]] | [[? _] | [Hp | [_ [=]]]]]]; [by eauto |].
      exfalso. revert Hp. apply Hpf. set_solver.
    + intros (cid' & Hcid' & Hsize).
      assert (cid' = cid) as -> by congruence. tauto.
  - split; [| tauto].
    intros [[_ [=]] | [[_ [=]] | [[_ [=]] | [Hp | [? _]]]]]; [| done].
    exfalso. revert Hp. apply Hpf. set_solver.
  - intros f [[_ ->] | [[_ ->] | [[_ ->] | [Hp | [_ ->]]]]];
      [left; set_solver .. | | left; set_solver].
    right. apply pattern_factors_elem in Hp as (p & ? & ? & ->). by exists p.
Qed.

Lemma risk_factor_meaning_witness :
  ∃ metrics out h,
    calculate_network_metrics (stand_in quiet_run) four_companies = Ok metrics
    ∧ get_high_risk_entities (stand_in quiet_run) four_companies (Finite 0.8) = Ok out
    ∧ h ∈ out ∧ entity h = "B"
    ∧ ("high_betweenness_centrality" ∈ risk_factors h
       ↔ float_gt (betweenness (entity_centrality h)) (Finite 0.8) = true).
Proof.
  destruct (calculate_network_metrics (stand_in quiet_run) four_companies)
    as [metrics|e] eqn:Em; [| exfalso; vm_compute in Em; discriminate Em].
  destruct (get_high_risk_entities (stand_in quiet_run) four_companies (Finite 0.8))
    as [out|e] eqn:E; [| exfalso; vm_compute in E; discriminate E].
  destruct out as [|h out]; [exfalso; vm_compute in E; discriminate E |].
  assert (h ∈ h :: out) as Hh by apply list_elem_of_here.
  pose proof (f_equal (λ r, match r with
                           | Ok (h :: _) => entity h
                           | _ => EmptyString
                           end) E) as Hb.
  vm_compute in Hb.
  exists metrics, (h :: out), h.
  split; [reflexivity |]. split; [reflexivity |]. split; [exact Hh |].
  split; [symmetry; exact Hb |].
  exact (proj1 (risk_factor_meaning (stand_in quiet_run) four_companies
                  (Finite 0.8) metrics (h :: out) h Em E Hh)).
Defined.

(** X12.  A node is in the ranked list exactly when its betweenness, its
    PageRank or its anomaly score exceeds the threshold, or its community
    has fewer than three nodes, or a risk pattern lists it under
    ['entities']. *)
Theorem ranked_iff_some_factor (L : Libs) `{PySetOrder Label} (G : Graph)
    (risk_threshold : pyfloat) (metrics : NetworkMetrics)
    (out : list HighRisk) (node : string) :
  calculate_network_metrics L G = Ok metrics →
  get_high_risk_entities L G risk_threshold = Ok out →
  node ∈ entity <$> out
  ↔ node ∈ nodes G
    ∧ ∃ c community_id a,
        centrality_scores metrics !! node = Some c
        ∧ community_membership metrics !! node = Some community_id
        ∧ anomaly_scores metrics !! node = Some a
        ∧ (float_gt (betweenness c) risk_threshold = true
           ∨ float_gt (pagerank c) risk_threshold = true
           ∨ community_size (community_membership metrics) community_id < 3
           ∨ (∃ p, p ∈ risk_patterns metrics ∧ node ∈ default [] (p_entities p))
           ∨ float_gt a risk_threshold = true).
Proof.
  intros Hm (m & flagged & Hm' & Hf & ->)%get_high_risk_entities_Ok.
  assert (m = metrics) as -> by congruence.
  rewrite sorted_desc_perm, list_elem_of_fmap.
  setoid_rewrite (flagged_entities_spec G metrics risk_threshold flagged Hf).
  split.
  - intros (h & -> & Hnode & Hfs & Hne & Ha & Hc). split; [done |].
    apply node_risk_factors_Ok in Hfs as (c & cid & a & Hc' & Hcid & Ha' & Hfs).
    exists c, cid, a. split_and!; try done.
    destruct (risk_factors h) as [|f fs] eqn:Ef; [done |].
    assert (f ∈ f :: fs) as Hin by apply list_elem_of_here.
    rewrite Hfs in Hin.
    repeat setoid_rewrite elem_of_app in Hin.
    repeat setoid_rewrite elem_of_if_singleton in Hin.
    setoid_rewrite elem_of_decide_singleton in Hin.
    destruct Hin as [[? _] | [[? _] | [[? _] | [Hp | [? _]]]]].
    + by left.
    + right. by left.
    + right. right. by left.
    + apply pattern_factors_elem in Hp as (p & ? & ? & _).
      right. right. right. left. by exists p.
    + by repeat right.
  - intros (Hnode & c & cid & a & Hc & Hcid & Ha & Hsome).
    destruct (node_risk_factors metrics risk_threshold node) as [fs|e] eqn:Hfs.
    2:{ assert (∃ fs, node_risk_factors metrics risk_threshold node = Ok fs)
          as [fs Hfs'].
        { eexists. apply node_risk_factors_Ok. exists c, cid, a. by split_and!. }
        congruence. }
    exists {| entity := node; risk_factors := fs;
              anomaly_score := a; entity_centrality := c |}.
    split; [done |]. split; [done |]. split_and!; try done. simpl.
    apply node_risk_factors_Ok in Hfs as (c' & cid' & a' & Hc' & Hcid' & Ha' & ->).
    assert (c' = c) as -> by congruence.
    assert (cid' = cid) as -> by congruence.
    assert (a' = a) as -> by congruence.
    assert (∀ (x : string) l, x ∈ l → l ≠ []) as Hne
      by (intros x l Hx ->; by apply elem_of_nil in Hx).
    destruct Hsome as [Hb | [Hp | [Hsize | [(p & Hp & Hin) | Hgt]]]].
    + apply (Hne "high_betweenness_centrality"). rewrite Hb. set_solver.
    + apply (Hne "high_pagerank"). rewrite Hp. set_solver.
    + apply (Hne "isolated_community"). rewrite decide_True by done. set_solver.
    + apply (Hne ("involved_in_" +:+ p_type p)).
      assert ("involved_in_" +:+ p_type p ∈ pattern_factors metrics node)
        by (apply pattern_factors_elem; by exists p).
      set_solver.
    + apply (Hne "high_anomaly_score"). rewrite Hgt. set_solver.
Qed.

Lemma ranked_iff_some_factor_witness :
  ∃ metrics out,
    calculate_network_metrics (stand_in quiet_run) four_companies = Ok metrics
    ∧ get_high_risk_entities (stand_in quiet_run) four_companies (Finite 0.8) = Ok out
    ∧ ("A" ∈ entity <$> out
       ↔ "A" ∈ nodes four_companies
         ∧ ∃ c community_id a,
             centrality_scores metrics !! "A" = Some c
             ∧ community_membership metrics !! "A" = Some community_id
             ∧ anomaly_scores metrics !! "A" = Some a
             ∧ (float_gt (betweenness c) (Finite 0.8) = true
                ∨ float_gt (pagerank c) (Finite 0.8) = true
                ∨ community_size (community_membership metrics) community_id < 3
                ∨ (∃ p, p ∈ risk_patterns metrics
                        ∧ "A" ∈ default [] (p_entities p))
                ∨ float_gt a (Finite 0.8) = true)).
Proof.
  destruct (calculate_network_metrics (stand_in quiet_run) four_companies)
    as [metrics|e] eqn:Em; [| exfalso; vm_compute in Em; discriminate Em].
  destruct (get_high_risk_entities (stand_in quiet_run) four_companies (Finite 0.8))
    as [out|e] eqn:E; [| exfalso; vm_compute in E; discriminate E].
  exists metrics, out. split; [reflexivity |]. split; [reflexivity |].
  exact (ranked_iff_some_factor (stand_in quiet_run) four_companies
           (Finite 0.8) metrics out "A" Em E).
Defined.

(** *** [_detect_suspicious_cycles] *)

#[local] Arguments float_gt : simpl never.

Section cycles.
Context (L : Libs).
Variable G : Graph.

(** What the loop body makes of one cycle. *)
Definition cycle_kept (cycle : list string) : result (option (list string)) :=
  if decide (3 ≤ length cycle) then
    cycle_risk ← _calculate_cycle_risk L G cycle;
    Ok (if float_gt cycle_risk self_risk_threshold then Some cycle else None)
  else Ok None.

(** The cycle has three nodes or more and a risk above [self.risk_threshold]. *)
Definition suspicious (cycle : list string) : bool :=
  bool_decide (3 ≤ length cycle)
  && match _calculate_cycle_risk L G cycle with
     | Ok cycle_risk => float_gt cycle_risk self_risk_threshold
     | Raise _ => false
     end.

Lemma cycles_kept_filter (simple_cycles : list (list string)) os :
  Forall2 (λ cycle o, cycle_kept cycle = Ok o) simple_cycles os →
  omap id os = filter (λ cycle, suspicious cycle) simple_cycles.
Proof.
  induction 1 as [|cycle o l os Ho _ IH]; [done |].
  rewrite filter_cons. unfold cycle_kept, suspicious in *.
  destruct (decide (3 ≤ length cycle)) as [Hlen|Hlen].
  - rewrite (bool_decide_eq_true_2 _ Hlen), andb_true_l.
    destruct (_calculate_cycle_risk L G cycle) as [r|]; [| done].
    change (Ok (if float_gt r self_risk_threshold then Some cycle else None) = Ok o)
      in Ho.
    destruct (float_gt r self_risk_threshold); injection Ho as <-.
    + rewrite decide_True by done.
      change (omap id (Some cycle :: os)) with (cycle :: omap id os). by f_equal.
    + rewrite decide_False by (by intros []). exact IH.
  - rewrite (bool_decide_eq_false_2 _ Hlen), andb_false_l. injection Ho as <-.
    rewrite decide_False by (by intros []). exact IH.
Qed.

Lemma cycles_kept_returns (simple_cycles : list (list string)) :
  (∃ os, Forall2 (λ cycle o, cycle_kept cycle = Ok o) simple_cycles os)
  ↔ ∀ cycle, cycle ∈ simple_cycles → 3 ≤ length cycle →
             ∃ cycle_risk, _calculate_cycle_risk L G cycle = Ok cycle_risk.
Proof.
  induction simple_cycles as [|cycle l IH].
  - split; [by intros _ ? ?%elem_of_nil | intros _; exists []; constructor].
  - split.
    + intros (os & Hos) c Hc Hlen.
      apply Forall2_cons_inv_l in Hos as (o & os' & Ho & Hos' & _).
      apply elem_of_cons in Hc as [-> | Hc].
      * unfold cycle_kept in Ho. rewrite decide_True in Ho by done.
        destruct (_calculate_cycle_risk L G cycle); [by eauto | done].
      * apply (proj1 IH); eauto.
    + intros Hrisk. destruct (proj2 IH) as [os Hos].
      { intros c Hc. apply Hrisk. by right. }
      destruct (cycle_kept cycle) as [o|e] eqn:Ho.
      * exists (o :: os). by constructor.
      * exfalso. unfold cycle_kept in Ho.
        destruct (decide (3 ≤ length cycle)) as [Hlen|]; [| done].
        destruct (Hrisk cycle (list_elem_of_here _ _) Hlen) as [r Hr].
        by rewrite Hr in Ho.
Qed.

End cycles.

Lemma detect_suspicious_cycles_collect (L : Libs) (G : Graph)
    (simple_cycles out : list (list string)) :
  nx_simple_cycles L G = Ok simple_cycles →
  _detect_suspicious_cycles L G = Ok out
  ↔ ∃ os, Forall2 (λ cycle o, cycle_kept L G cycle = Ok o) simple_cycles os
          ∧ out = omap id os.
Proof.
  intros Hcycles. unfold _detect_suspicious_cycles. rewrite Hcycles. simpl.
  rewrite (for_each_collect (cycle_kept L G)); [done |].
  intros acc cycle. unfold append_some, cycle_kept.
  destruct (decide (3 ≤ length cycle)); simpl; [| by rewrite app_nil_r].
  destruct (_calculate_cycle_risk L G cycle) as [r|]; simpl; [| done].
  destruct (float_gt r self_risk_threshold); simpl; [done |].
  by rewrite app_nil_r.
Qed.

(** What the loop returns, when it does. *)
Lemma detect_suspicious_cycles_filter (L : Libs) (G : Graph)
    (simple_cycles out : list (list string)) :
  nx_simple_cycles L G = Ok simple_cycles →
  _detect_suspicious_cycles L G = Ok out →
  out = filter (λ cycle, suspicious L G cycle) simple_cycles.
Proof.
  intros Hcycles (os & Hos & ->)%(detect_suspicious_cycles_collect _ _ _ _ Hcycles).
  by apply cycles_kept_filter.
Qed.

(** X13.  The call returns exactly when [_calculate_cycle_risk] does for every
    simple cycle of three nodes or more (shorter cycles are not scored),
    and the result is the list of the simple cycles of three nodes or more
    whose risk exceeds 0.75, in the order in which networkx lists them. *)
Theorem suspicious_cycles_spec (L : Libs) (G : Graph)
    (simple_cycles out : list (list string)) :
  nx_simple_cycles L G = Ok simple_cycles →
  _detect_suspicious_cycles L G = Ok out
  ↔ (∀ cycle, cycle ∈ simple_cycles → 3 ≤ length cycle →
              ∃ cycle_risk, _calculate_cycle_risk L G cycle = Ok cycle_risk)
    ∧ out = filter (λ cycle, suspicious L G cycle) simple_cycles.
Proof.
  intros Hcycles. rewrite (detect_suspicious_cycles_collect _ _ _ _ Hcycles).
  rewrite <- cycles_kept_returns. split.
  - intros (os & Hos & ->). split; [by eauto |]. by apply cycles_kept_filter.
  - intros [[os Hos] ->]. exists os. split; [done |].
    symmetry. by apply cycles_kept_filter.
Qed.

(** The libraries of [L] with other simple cycles and another risk score. *)
Definition with_cycles (L : Libs) (simple_cycles : list (list string))
    (cycle_risk : list string → result pyfloat) : Libs :=
  {| nx_degree_centrality := nx_degree_centrality L;
     nx_betweenness_centrality := nx_betweenness_centrality L;
     nx_eigenvector_centrality := nx_eigenvector_centrality L;
     nx_pagerank := nx_pagerank L;
     nx_load_centrality := nx_load_centrality L;
     nx_katz_centrality := nx_katz_centrality L;
     nx_clustering := nx_clustering L;
     best_partition := best_partition L;
     nx_label_propagation_communities := nx_label_propagation_communities L;
     nx_girvan_newman := nx_girvan_newman L;
     nx_simple_cycles _ := Ok simple_cycles;
     sk_fit_transform := sk_fit_transform L;
     np_cov_T := np_cov_T L;
     np_linalg_inv := np_linalg_inv L;
     np_mean_axis0 := np_mean_axis0 L;
     np_sub := np_sub L;
     np_quadratic_form := np_quadratic_form L;
     np_sqrt := np_sqrt L;
     _calculate_reach_centrality := _calculate_reach_centrality L;
     _find_circular_ownership := _find_circular_ownership L;
     _identify_hub_spoke_patterns := _identify_hub_spoke_patterns L;
     _analyze_network_growth := _analyze_network_growth L;
     _identify_isolated_subgroups := _identify_isolated_subgroups L;
     _check_shared_attributes := _check_shared_attributes L;
     _calculate_cycle_risk _ := cycle_risk |}.

(** Three cycles: one too short to be scored, one above and one below the
    threshold. *)
Definition sample_cycles : list (list string) :=
  [["A"; "B"]; ["A"; "B"; "C"]; ["A"; "C"; "D"]].

Definition sample_cycle_risk (cycle : list string) : result pyfloat :=
  if decide (cycle = ["A"; "B"; "C"]) then Ok (Finite 0.9)
  else if decide (cycle = ["A"; "C"; "D"]) then Ok (Finite 0.75)
  else Raise "ValueError".

Lemma suspicious_cycles_spec_witness :
  _detect_suspicious_cycles
    (with_cycles (stand_in quiet_run) sample_cycles sample_cycle_risk) four_companies
  = Ok [["A"; "B"; "C"]].
Proof.
  apply (suspicious_cycles_spec
           (with_cycles (stand_in quiet_run) sample_cycles sample_cycle_risk)
           four_companies sample_cycles [["A"; "B"; "C"]] eq_refl).
  split; [| vm_compute; reflexivity].
  intros cycle Hc Hlen. unfold sample_cycles in Hc.
  repeat (apply elem_of_cons in Hc as [-> | Hc]).
  - simpl in Hlen. lia.
  - by exists (Finite 0.9).
  - by exists (Finite 0.75).
  - by apply elem_of_nil in Hc.
Defined.

(** *** [_analyze_temporal_patterns] *)

(** The nodes of [l] whose incorporation date is [date], in the order of [l]. *)
Definition dated (date : string) (l : list (string * NodeAttr)) : list string :=
  (filter (λ na, incorporation_date na.2 = Some date) l).*1.

(** The nodes of the graph that were incorporated on [date]. *)
Definition incorporated_on (G : Graph) (date : string) : list string :=
  dated date (g_node G).

Lemma dated_snoc date l node attr :
  dated date (l ++ [(node, attr)])
  = dated date l ++ (if decide (incorporation_date attr = Some date)
                     then [node] else []).
Proof.
  unfold dated. rewrite filter_app, fmap_app. f_equal.
  rewrite filter_cons, filter_nil. simpl. by case_decide.
Qed.

Lemma date_append_keys date node d :
  (date_append date node d).*1 = set_add date d.*1.
Proof.
  unfold set_add. induction d as [|[k l] d IH].
  - destruct (decide (date ∈ ([] : list (string * list string)).*1))
      as [[]%elem_of_nil |]; done.
  - cbn [date_append]. rewrite fmap_cons. cbn [fst].
    destruct (decide (k = date)) as [-> | Hk].
    + by rewrite decide_True by apply list_elem_of_here.
    + rewrite fmap_cons, IH. cbn [fst].
      destruct (decide (date ∈ d.*1)) as [Hin|Hin].
      * by rewrite decide_True by (by right).
      * rewrite decide_False; [done |].
        intros [?|?]%elem_of_cons; congruence.
Qed.

Lemma elem_of_keys (d : list (string * list string)) k :
  k ∈ d.*1 ↔ ∃ l, (k, l) ∈ d.
Proof.
  rewrite list_elem_of_fmap. split.
  - intros ([k' l] & -> & ?). by exists l.
  - intros (l & ?). by exists (k, l).
Qed.

Lemma date_append_elem date node d date' l' :
  NoDup d.*1 →
  (date', l') ∈ date_append date node d
  ↔ (date' ≠ date ∧ (date', l') ∈ d)
    ∨ (date' = date
       ∧ ((∃ l, (date, l) ∈ d ∧ l' = l ++ [node])
          ∨ ((date ∉ d.*1) ∧ l' = [node]))).
Proof.
  induction d as [|[k l] d IH]; cbn [date_append].
  - intros _. rewrite list_elem_of_singleton. split.
    + intros [= -> ->]. right. split; [done |]. right.
      split; [apply not_elem_of_nil | done].
    + intros [[_ []%elem_of_nil] | [-> [(l & []%elem_of_nil & _) | [_ ->]]]].
      done.
  - rewrite fmap_cons. cbn [fst]. intros [Hk Hnd]%NoDup_cons.
    specialize (IH Hnd).
    destruct (decide (k = date)) as [-> | Hne].
    + rewrite !elem_of_cons. split.
      * intros [[= -> ->] | Hin].
        -- right. split; [done |]. left. exists l. split; [by left | done].
        -- left. split; [| by right]. intros ->. apply Hk.
           apply elem_of_keys. by exists l'.
      * intros [[Hd [[= ? ?] | Hin]] | [-> [(l0 & Hl0 & ->) | [Hnot _]]]].
        -- done.
        -- by right.
        -- apply elem_of_cons in Hl0 as [[= ->] | Hl0]; [by left |].
           exfalso. apply Hk, elem_of_keys. by exists l0.
        -- exfalso. apply Hnot. by left.
    + rewrite !elem_of_cons, IH. split.
      * intros [[= -> ->] | [[Hd Hin] | [-> Hcase]]].
        -- left. split; [done | by left].
        -- left. split; [done | by right].
        -- right. split; [done |].
           destruct Hcase as [(l0 & Hl0 & ->) | [Hnot ->]].
           ++ left. exists l0. split; [by right | done].
           ++ right. split; [| done].
              intros [? | ?]; [congruence | done].
      * intros [[Hd [[= -> ->] | Hin]] | [-> Hcase]].
        -- by left.
        -- right. left. done.
        -- right. right. split; [done |].
           destruct Hcase as [(l0 & Hl0 & ->) | [Hnot ->]].
           ++ apply elem_of_cons in Hl0 as [[= ? ?] | Hl0]; [done |].
              left. by exists l0.
           ++ right. split; [| done]. intros Hin. apply Hnot. by right.
Qed.

(** The groups after the nodes [pre] have been gone through: one group for
    every non-empty date that a node of [pre] has, with the nodes of that
    date. *)
Definition groups_of (pre : list (string * NodeAttr))
    (d : list (string * list string)) : Prop :=
  NoDup d.*1
  ∧ ∀ date l, (date, l) ∈ d ↔ date ≠ "" ∧ l = dated date pre ∧ l ≠ [].

Lemma groups_of_step pre d node attr :
  groups_of pre d →
  groups_of (pre ++ [(node, attr)])
    match incorporation_date attr with
    | Some inc_date => if decide (inc_date = "") then d
                       else date_append inc_date node d
    | None => d
    end.
Proof.
  intros [Hnd Hd].
  assert (∀ date, incorporation_date attr ≠ Some date →
                  dated date (pre ++ [(node, attr)]) = dated date pre) as Hsame.
  { intros date Hne. rewrite dated_snoc, decide_False by done.
    by rewrite app_nil_r. }
  destruct (incorporation_date attr) as [inc_date|] eqn:Hdate.
  2:{ split; [done |]. intros date l. rewrite Hd, Hsame by done. done. }
  destruct (decide (inc_date = "")) as [-> | Hinc].
  { split; [done |]. intros date l. rewrite Hd. split.
    - intros (Hne & -> & Hl). rewrite Hsame by congruence. done.
    - intros (Hne & -> & Hl). rewrite Hsame in * by congruence. done. }
  split.
  { rewrite date_append_keys. by apply PyFacts.set_add_NoDup. }
  intros date l. rewrite (date_append_elem _ _ _ _ _ Hnd).
  destruct (decide (date = inc_date)) as [-> | Hne].
  - rewrite dated_snoc, decide_True by done. split.
    + intros [[? _] | [_ [(l0 & Hl0 & ->) | [Hnot ->]]]]; [done | |].
      * apply Hd in Hl0 as (_ & -> & _).
        split; [done |]. split; [done |]. by intros [_ [=]]%app_eq_nil.
      * split; [done |].
        destruct (dated inc_date pre) as [|x t] eqn:E; [done |].
        exfalso. apply Hnot, elem_of_keys. exists (x :: t).
        apply Hd. by rewrite E.
    + intros (_ & -> & _). right. split; [done |].
      destruct (dated inc_date pre) as [|x t] eqn:E.
      * right. split; [| done]. intros (l0 & Hl0)%elem_of_keys.
        apply Hd in Hl0 as (_ & -> & Hl0). by rewrite E in Hl0.
      * left. exists (x :: t). split; [| done]. apply Hd. by rewrite E.
  - rewrite Hsame by congruence. rewrite <- Hd. split.
    + intros [[_ ?] | [-> _]]; done.
    + intros ?. by left.
Qed.

Lemma date_groups_spec (G : Graph) :
  groups_of (g_node G) (date_groups G).
Proof.
  unfold date_groups.
  assert (∀ l pre d,
            groups_of pre d →
            groups_of (pre ++ l)
              (foldl (λ d '(node, attr),
                        match incorporation_date attr with
                        | Some inc_date => if decide (inc_date = "") then d
                                           else date_append inc_date node d
                        | None => d
                        end) d l)) as Hgen.
  { induction l as [|[node attr] l IH]; intros pre d Hd; cbn [foldl].
    - by rewrite app_nil_r.
    - rewrite (cons_middle _ pre l), app_assoc. apply IH.
      by apply groups_of_step. }
  apply (Hgen (g_node G) [] []). split; [constructor |].
  intros date l. split; [by intros ?%elem_of_nil | by intros (_ & -> & ?)].
Qed.

Section temporal.
Context (L : Libs).
Variable G : Graph.

(** What the loop body makes of one group. *)
Definition group_pattern (group : string * list string) : result (option RiskPattern) :=
  if decide (3 ≤ length group.2) then
    shared_attributes ← _check_shared_attributes L G group.2;
    Ok (if truthy shared_attributes
        then Some (bulk_pattern group.1 group.2 shared_attributes)
        else None)
  else Ok None.

Lemma group_pattern_Some date entities p :
  group_pattern (date, entities) = Ok (Some p)
  ↔ 3 ≤ length entities
    ∧ ∃ shared, _check_shared_attributes L G entities = Ok shared
                ∧ shared ≠ [] ∧ p = bulk_pattern date entities shared.
Proof.
  unfold group_pattern. cbn [fst snd].
  destruct (decide (3 ≤ length entities)) as [Hlen|Hlen].
  2:{ split; [done | by intros [? _]]. }
  destruct (_check_shared_attributes L G entities) as [shared|e]; simpl.
  2:{ split; [done | by intros (_ & ? & ? & _)]. }
  destruct (truthy shared) eqn:Htruthy.
  - apply truthy_nonempty in Htruthy. split.
    + intros [= <-]. split; [done |]. by exists shared.
    + intros (_ & shared' & [= <-] & _ & ->). done.
  - split; [done |]. intros (_ & shared' & [= <-] & Hne & _).
    apply truthy_nonempty in Hne. congruence.
Qed.

Lemma analyze_temporal_patterns_collect out :
  _analyze_temporal_patterns L G = Ok out
  ↔ ∃ os, Forall2 (λ group o, group_pattern group = Ok o) (date_groups G) os
          ∧ out = omap id os.
Proof.
  unfold _analyze_temporal_patterns.
  rewrite (for_each_collect group_pattern); [done |].
  intros acc [date entities]. unfold append_some, group_pattern. cbn [fst snd].
  destruct (decide (3 ≤ length entities)); simpl; [| by rewrite app_nil_r].
  destruct (_check_shared_attributes L G entities) as [shared|]; simpl; [| done].
  destruct (truthy shared); simpl; [done | by rewrite app_nil_r].
Qed.

End temporal.

(** X14.  A [bulk_incorporation] pattern is reported for a date exactly when
    three or more nodes have that (non-empty) incorporation date and
    [_check_shared_attributes] finds something for them; it lists all the
    nodes of that date, in node order.  No date is reported twice. *)
Theorem bulk_incorporation_spec (L : Libs) (G : Graph) (out : list RiskPattern) :
  _analyze_temporal_patterns L G = Ok out →
  (∀ p, p ∈ out
        ↔ ∃ date shared,
            date ≠ ""
            ∧ 3 ≤ length (incorporated_on G date)
            ∧ _check_shared_attributes L G (incorporated_on G date) = Ok shared
            ∧ shared ≠ []
            ∧ p = bulk_pattern date (incorporated_on G date) shared)
  ∧ NoDup (p_date <$> out).
Proof.
  intros (os & Hos & ->)%analyze_temporal_patterns_collect.
  destruct (date_groups_spec G) as [Hnd Hgroups]. split.
  - intros p. rewrite (collected_elem _ _ _ _ Hos). split.
    + intros ([date entities] & Hin & Hp).
      apply Hgroups in Hin as (Hdate & -> & _).
      apply group_pattern_Some in Hp as (Hlen & shared & Hshared & Hne & ->).
      by exists date, shared.
    + intros (date & shared & Hdate & Hlen & Hshared & Hne & ->).
      exists (date, incorporated_on G date). split.
      * apply Hgroups. split; [done |]. split; [done |].
        intros E. rewrite E in Hlen.
        simpl in Hlen. lia.
      * apply group_pattern_Some. split; [done |]. by exists shared.
  - assert (sublist (p_date <$> omap id os)
                    ((λ group : string * list string, Some group.1)
                       <$> date_groups G)) as Hsub.
    { apply (collected_sublist (group_pattern L G)); [| exact Hos].
      intros [date entities] p Hp.
      apply group_pattern_Some in Hp as (_ & shared & _ & _ & ->). done. }
    eapply sublist_NoDup; [| exact Hsub].
    replace ((λ group : string * list string, Some group.1) <$> date_groups G)
      with (Some <$> (date_groups G).*1) by (by rewrite <- list_fmap_compose).
    apply NoDup_fmap_2; [| done]. by intros ?? [=].
Qed.

Lemma bulk_incorporation_spec_witness :
  ∃ out,
    _analyze_temporal_patterns (stand_in quiet_run) four_companies = Ok out
    ∧ (∀ p, p ∈ out
            ↔ ∃ date shared,
                date ≠ ""
                ∧ 3 ≤ length (incorporated_on four_companies date)
                ∧ _check_shared_attributes (stand_in quiet_run) four_companies
                    (incorporated_on four_companies date) = Ok shared
                ∧ shared ≠ []
                ∧ p = bulk_pattern date (incorporated_on four_companies date) shared)
    ∧ out = [bulk_pattern "2024-01-01" ["A"; "B"; "C"] [("directors", ["x"])]].
Proof.
  destruct (_analyze_temporal_patterns (stand_in quiet_run) four_companies)
    as [out|e] eqn:E; [| exfalso; vm_compute in E; discriminate E].
  exists out. split; [reflexivity |]. split.
  - exact (proj1 (bulk_incorporation_spec (stand_in quiet_run) four_companies out E)).
  - vm_compute in E. by injection E as <-.
Defined.

(** *** [_calculate_centrality_metrics] *)

(** X15.  The dictionary of a node holds what the routines of networkx give for
    that node (the eigenvector centrality with [max_iter=1000]), so that
    the call returns only if each of the six dictionaries has an entry for
    every node of the graph. *)
Theorem centrality_values (L : Libs) (G : Graph)
    (m : gmap string Centrality) (node : string) :
  _calculate_centrality_metrics L G = Ok m →
  node ∈ nodes G →
  ∃ c d_degree d_betweenness d_eigenvector d_pagerank d_load d_katz,
    m !! node = Some c
    ∧ nx_degree_centrality L G = Ok d_degree
    ∧ d_degree !! node = Some (degree c)
    ∧ nx_betweenness_centrality L G = Ok d_betweenness
    ∧ d_betweenness !! node = Some (betweenness c)
    ∧ nx_eigenvector_centrality L G 1000 = Ok d_eigenvector
    ∧ d_eigenvector !! node = Some (eigenvector c)
    ∧ nx_pagerank L G = Ok d_pagerank
    ∧ d_pagerank !! node = Some (pagerank c)
    ∧ nx_load_centrality L G = Ok d_load
    ∧ d_load !! node = Some (load c)
    ∧ nx_katz_centrality L G = Ok d_katz
    ∧ d_katz !! node = Some (katz c)
    ∧ nx_clustering L G node = Ok (clustering c)
    ∧ _calculate_reach_centrality L G node = Ok (reach c).
Proof.
  intros Hm Hnode.
  pose proof (store_loop_lookup (node_metrics L G) (nodes G) ∅ m node Hm) as Hlook.
  rewrite decide_True in Hlook by done.
  pose proof (for_each_steps _ _ _ _ Hm node Hnode) as (m1 & m2 & Hstep).
  apply bind_Ok in Hstep as (c & Hc & _). rewrite Hc in Hlook.
  exists c. unfold node_metrics in Hc. returns. subst c. simpl.
  eexists _, _, _, _, _, _. split_and!; done.
Qed.

Lemma centrality_values_witness :
  ∃ m c,
    _calculate_centrality_metrics (stand_in quiet_run) four_companies = Ok m
    ∧ "B" ∈ nodes four_companies
    ∧ m !! "B" = Some c
    ∧ betweenness c = Finite 0.85.
Proof.
  destruct (_calculate_centrality_metrics (stand_in quiet_run) four_companies)
    as [m|e] eqn:E; [| exfalso; vm_compute in E; discriminate E].
  assert ("B" ∈ nodes four_companies) as Hnode by decided.
  destruct (centrality_values (stand_in quiet_run) four_companies m "B" E Hnode)
    as (c & d1 & d2 & d3 & d4 & d5 & d6 & Hc & _ & _ & Hd2 & Hb & _).
  exists m, c. split; [reflexivity |]. split; [exact Hnode |].
  split; [exact Hc |].
  remember (betweenness c) as b eqn:Eb. clear Eb Hc.
  injection Hd2 as <-. vm_compute in Hb. by injection Hb as <-.
Defined.

(** *** [_calculate_anomaly_scores] *)

Section anomaly.
Context (L : Libs).
Variable G : Graph.

Lemma node_features_length node row :
  node_features L G node = Ok row → length row = 5.
Proof. unfold node_features. intros Hrow. returns. by subst row. Qed.

Lemma feature_rows_collect features :
  feature_rows L G = Ok features
  ↔ Forall2 (λ node row, node_features L G node = Ok row) (nodes G) features.
Proof.
  unfold feature_rows.
  rewrite (for_each_collect (λ node, row ← node_features L G node; Ok (Some row))).
  2:{ intros acc node. unfold append_some.
      by destruct (node_features L G node). }
  simpl. split.
  - intros (os & Hos & ->). induction Hos as [|node o l os Ho _ IH]; [constructor |].
    apply bind_Ok in Ho as (row & Hrow & [= <-]). simpl. by constructor.
  - intros Hrows. exists (Some <$> features). split.
    + induction Hrows as [|node row l rows Hrow _ IH]; [constructor |].
      rewrite fmap_cons. constructor; [| done]. by rewrite Hrow.
    + clear Hrows. induction features as [|row rows IH]; [done |].
      rewrite fmap_cons. simpl. by f_equal.
Qed.

(** What the second loop stores for a position and its node. *)
Definition row_score (normalized_features inv_cov : matrix) (mean : list pyfloat)
    (i : nat) : result pyfloat :=
  match normalized_features !! i with
  | None => Raise "IndexError"
  | Some row =>
      diff ← np_sub L row mean;
      q ← np_quadratic_form L diff inv_cov;
      Ok (np_sqrt L q)
  end.

Lemma score_loop_lookup normalized inv_cov mean (l : list (nat * string)) m0 m :
  for_each (λ (anomaly_scores : gmap string pyfloat) '((i, node) : nat * string),
              match normalized !! i with
              | None => Raise "IndexError"
              | Some row =>
                  diff ← np_sub L row mean;
                  q ← np_quadratic_form L diff inv_cov;
                  Ok (<[node := np_sqrt L q]> anomaly_scores)
              end) m0 l = Ok m →
  NoDup l.*2 →
  (∀ node, node ∉ l.*2 → m !! node = m0 !! node)
  ∧ ∀ i node, (i, node) ∈ l →
      ∃ score, row_score normalized inv_cov mean i = Ok score
               ∧ m !! node = Some score.
Proof.
  revert m0. induction l as [|[i node] l IH]; intros m0; cbn [for_each].
  - intros [= <-] _. split; [done |]. by intros ?? ?%elem_of_nil.
  - intros (m1 & Hstep & Hrest)%bind_Ok. rewrite fmap_cons. cbn [snd].
    intros [Hnode Hnd]%NoDup_cons.
    destruct (IH _ Hrest Hnd) as [Hother Hin].
    assert (∃ score, row_score normalized inv_cov mean i = Ok score
                     ∧ m1 = <[node := score]> m0) as (score & Hscore & ->).
    { unfold row_score. destruct (normalized !! i) as [row|]; [| done].
      apply bind_Ok in Hstep as (diff & Hdiff & Hstep).
      apply bind_Ok in Hstep as (q & Hq & [= <-]).
      exists (np_sqrt L q). split; [| done]. rewrite Hdiff. simpl. by rewrite Hq. }
    split.
    + intros n Hn. rewrite not_elem_of_cons in Hn. destruct Hn as [Hne Hn].
      by rewrite (Hother n Hn), lookup_insert_ne.
    + intros j n [[= -> ->] | Hjn]%elem_of_cons; [| by apply Hin].
      exists score. split; [done |].
      by rewrite (Hother node Hnode), lookup_insert_eq.
Qed.

End anomaly.

(** X16.  The feature matrix has one row of five features for every node, in the
    order of the nodes. *)
Theorem feature_rows_shape (L : Libs) (G : Graph) (features : matrix) :
  feature_rows L G = Ok features →
  length features = length (nodes G)
  ∧ Forall (λ row, length row = 5) features
  ∧ ∀ i node, nodes G !! i = Some node →
              ∃ row, features !! i = Some row
                     ∧ node_features L G node = Ok row.
Proof.
  intros Hrows%feature_rows_collect. split_and!.
  - symmetry. by eapply Forall2_length.
  - apply Forall_forall. intros row [i Hi]%list_elem_of_lookup.
    destruct (Forall2_lookup_r _ _ _ _ _ Hrows Hi) as (node & _ & Hrow).
    by eapply node_features_length.
  - intros i node Hi.
    destruct (Forall2_lookup_l _ _ _ _ _ Hrows Hi) as (row & ? & ?). eauto.
Qed.

Lemma feature_rows_shape_witness :
  ∃ features,
    feature_rows (stand_in quiet_run) four_companies = Ok features
    ∧ length features = length (nodes four_companies)
    ∧ Forall (λ row, length row = 5) features.
Proof.
  destruct (feature_rows (stand_in quiet_run) four_companies)
    as [features|e] eqn:E; [| exfalso; vm_compute in E; discriminate E].
  exists features. split; [reflexivity |].
  destruct (feature_rows_shape (stand_in quiet_run) four_companies features E)
    as (Hlen & Hrows & _).
  by split.
Defined.

(** X17.  The anomaly score of the node at position [i] of the node list is
    computed from row [i] of what the scaler returns: the square root of
    the quadratic form of the row minus the mean.  So the scaler must
    return at least as many rows as the graph has nodes. *)
Theorem anomaly_score_of_row (L : Libs) (G : Graph) (scores : gmap string pyfloat) :
  _calculate_anomaly_scores L G = Ok scores →
  NoDup (nodes G) →
  ∃ features normalized_features cov inv_cov mean,
    feature_rows L G = Ok features
    ∧ sk_fit_transform L features = Ok normalized_features
    ∧ np_cov_T L normalized_features = Ok cov
    ∧ np_linalg_inv L cov = Ok inv_cov
    ∧ np_mean_axis0 L normalized_features = Ok mean
    ∧ length (nodes G) ≤ length normalized_features
    ∧ ∀ i node, nodes G !! i = Some node →
        ∃ row diff q,
          normalized_features !! i = Some row
          ∧ np_sub L row mean = Ok diff
          ∧ np_quadratic_form L diff inv_cov = Ok q
          ∧ scores !! node = Some (np_sqrt L q).
Proof.
  unfold _calculate_anomaly_scores. intros Hscores Hnd.
  apply bind_Ok in Hscores as (features & Hf & Hscores).
  apply bind_Ok in Hscores as (normalized & Hn & Hscores).
  apply bind_Ok in Hscores as (cov & Hc & Hscores).
  apply bind_Ok in Hscores as (inv_cov & Hi & Hscores).
  apply bind_Ok in Hscores as (mean & Hm & Hscores).
  unfold score_rows in Hscores.
  apply score_loop_lookup in Hscores as [_ Hin]; [| by rewrite imap_pair_snd].
  exists features, normalized, cov, inv_cov, mean. split_and!; [done .. | |].
  - apply Nat.le_ngt. intros Hlt.
    destruct (lookup_lt_is_Some_2 (nodes G) (length normalized))
      as [node Hnode]; [lia |].
    destruct (Hin (length normalized) node) as (score & Hscore & _).
    { apply elem_of_lookup_imap. eauto. }
    unfold row_score in Hscore.
    by rewrite lookup_ge_None_2 in Hscore by lia.
  - intros i node Hnode.
    destruct (Hin i node) as (score & Hscore & Hlook).
    { apply elem_of_lookup_imap. eauto. }
    unfold row_score in Hscore.
    destruct (normalized !! i) as [row|]; [| done].
    apply bind_Ok in Hscore as (diff & Hdiff & Hscore).
    apply bind_Ok in Hscore as (q & Hq & [= <-]).
    by exists row, diff, q.
Qed.

Lemma anomaly_score_of_row_witness :
  ∃ scores,
    _calculate_anomaly_scores (stand_in quiet_run) four_companies = Ok scores
    ∧ NoDup (nodes four_companies)
    ∧ scores !! "B" = Some (Finite 0.85).
Proof.
  destruct (_calculate_anomaly_scores (stand_in quiet_run) four_companies)
    as [scores|e] eqn:E; [| exfalso; vm_compute in E; discriminate E].
  assert (NoDup (nodes four_companies)) as Hnd by decided.
  destruct (anomaly_score_of_row (stand_in quiet_run) four_companies scores E Hnd)
    as (features & normalized & cov & inv_cov & mean
        & Hf & Hn & _ & _ & _ & _ & Hrow).
  exists scores. split; [reflexivity |]. split; [exact Hnd |].
  destruct (Hrow 1 "B" eq_refl) as (row & diff & q & Hr & Hd & Hq & ->).
  vm_compute in Hf. injection Hf as <-.
  vm_compute in Hn. injection Hn as <-.
  vm_compute in Hr. injection Hr as <-.
  vm_compute in Hd. injection Hd as <-.
  vm_compute in Hq. injection Hq as <-.
  reflexivity.
Defined.

(** *** [_detect_communities] *)

Lemma count_agreeing (a z : Z) :
  LInt z ∈ [LInt a; LInt 0; LInt a] →
  count (LInt a) [LInt a; LInt 0; LInt a] ≤ count (LInt z) [LInt a; LInt 0; LInt a] →
  z = a.
Proof.
  intros Hin Hcount.
  repeat (apply elem_of_cons in Hin as [[= ->] | Hin]); try done.
  - destruct (decide (a = 0%Z)) as [-> | Hne]; [done |]. exfalso.
    revert Hcount. unfold count. rewrite !filter_cons, filter_nil.
    repeat case_decide; simplify_eq; simpl; lia.
  - by apply elem_of_nil in Hin.
Qed.

(** X18.  Where the Louvain label and the hierarchical label of a node are the
    same, that label is the community of the node, whatever communities
    label propagation has found; in a graph of 1000 nodes or more this
    holds for every node, so that the ensemble is the Louvain partition. *)
Theorem agreeing_partitions_decide (L : Libs) `{PySetOrder Label} (G : Graph)
    (louvain : gmap string Z) (communities : list (list string))
    (gn : gmap string Z) :
  best_partition L G = Ok louvain →
  nx_label_propagation_communities L G = Ok communities →
  gn_partition L G louvain = Ok gn →
  ∃ ensemble,
    _detect_communities L G = Ok ensemble
    ∧ (∀ node, node ∈ nodes G →
               default 0%Z (louvain !! node) = default 0%Z (gn !! node) →
               ensemble !! node = Some (default 0%Z (louvain !! node)))
    ∧ (1000 ≤ length (nodes G) →
       ∀ node, node ∈ nodes G →
               ensemble !! node = Some (default 0%Z (louvain !! node))).
Proof.
  intros Hlouvain Hlp Hgn.
  destruct (detect_communities_spec L G _ _ _ Hlouvain Hlp Hgn)
    as (ensemble & Hens & Hspec).
  assert (∀ node, node ∈ nodes G →
                  default 0%Z (louvain !! node) = default 0%Z (gn !! node) →
                  ensemble !! node = Some (default 0%Z (louvain !! node))) as Hagree.
  { intros node Hnode Hsame.
    destruct (Hspec node Hnode) as (z & -> & Hfirst). f_equal.
    unfold louvain_label, gn_label, label_prop_label in Hfirst.
    rewrite label_prop_dict_get, <- Hsame in Hfirst.
    apply first_maximal_elem in Hfirst as [Hin Hmost].
    rewrite set_list_elem in Hin.
    apply (count_agreeing _ z Hin), Hmost, set_list_elem, list_elem_of_here. }
  exists ensemble. split; [exact Hens |]. split; [exact Hagree |].
  intros Hbig node Hnode. apply Hagree; [done |].
  unfold gn_partition in Hgn. rewrite decide_False in Hgn by lia.
  by injection Hgn as <-.
Qed.

Lemma agreeing_partitions_decide_witness :
  ∃ ensemble,
    @_detect_communities (stand_in quiet_run) four_companies insertion_order
    = Ok ensemble
    ∧ ensemble !! "D" = Some 1%Z.
Proof.
  destruct (@agreeing_partitions_decide (stand_in quiet_run) insertion_order
              four_companies (list_to_map (sc_louvain quiet_run))
              (sc_label_propagation quiet_run)
              (level_dict (sc_girvan_newman quiet_run))
              eq_refl eq_refl eq_refl) as (ensemble & Hens & Hagree & _).
  exists ensemble. split; [exact Hens |].
  rewrite (Hagree "D"); [vm_compute; reflexivity | decided |].
  vm_compute. reflexivity.
Defined.

(** *** Small graphs *)

Lemma size_list_to_set_le (l : list string) :
  size (list_to_set l : gset string) ≤ length l.
Proof.
  induction l as [|x l IH].
  { change (list_to_set [] : gset string) with (∅ : gset string).
    by rewrite size_empty. }
  change (list_to_set (x :: l) : gset string)
    with ({[x]} ∪ list_to_set l : gset string).
  rewrite size_union_alt, size_singleton. cbn [length].
  assert (size (list_to_set l ∖ {[x]} : gset string)
          ≤ size (list_to_set l : gset string))
    by (apply subseteq_size; set_solver).
  lia.
Qed.

Lemma community_size_le (community_membership : gmap string Z) (community_id : Z) :
  community_size community_membership community_id
  ≤ size (dom community_membership).
Proof.
  unfold community_size. rewrite size_dom, <- length_map_to_list.
  apply length_filter.
Qed.

(** X19.  In a graph of fewer than three nodes every community has fewer than
    three members: every node is in the ranked list, with the factor
    [isolated_community], whatever the threshold. *)
Theorem small_graph_all_isolated (L : Libs) `{PySetOrder Label} (G : Graph)
    (risk_threshold : pyfloat) (out : list HighRisk) (node : string) :
  get_high_risk_entities L G risk_threshold = Ok out →
  length (nodes G) < 3 →
  node ∈ nodes G →
  ∃ h, h ∈ out ∧ entity h = node ∧ "isolated_community" ∈ risk_factors h.
Proof.
  intros (m & flagged & Hm & Hf & ->)%get_high_risk_entities_Ok Hsmall Hnode.
  assert (dom (community_membership m) = list_to_set (nodes G)) as Hdom.
  { unfold calculate_network_metrics in Hm. returns. subst m. simpl.
    by eapply communities_dom. }
  destruct (for_each_steps _ _ _ _ Hf node Hnode) as (s1 & s2 & Hstep).
  apply bind_Ok in Hstep as (fs & Hfs & _).
  pose proof Hfs as Hfs'.
  apply node_risk_factors_Ok in Hfs' as (c & cid & a & Hc & Hcid & Ha & Hlist).
  assert ("isolated_community" ∈ fs) as Hin.
  { rewrite Hlist, decide_True; [set_solver |].
    pose proof (community_size_le (community_membership m) cid) as Hle.
    pose proof (size_list_to_set_le (nodes G)) as Hle'.
    rewrite Hdom in Hle. lia. }
  exists {| entity := node; risk_factors := fs;
            anomaly_score := a; entity_centrality := c |}.
  split; [| by split]. rewrite sorted_desc_perm.
  apply (flagged_entities_spec G m risk_threshold flagged Hf). split; [done |].
  split; [done |]. split; [| by split]. simpl. intros ->.
  by apply elem_of_nil in Hin.
Qed.

(** Two companies that share nothing. *)
Definition two_companies : Graph :=
  let G := empty_graph in
  let G := add_node "A" (incorporated "2024-01-01") G in
  let G := add_node "B" (incorporated "2024-03-03") G in
  G.

Lemma small_graph_all_isolated_witness :
  ∃ out,
    get_high_risk_entities (stand_in quiet_run) two_companies (Finite 0.8) = Ok out
    ∧ length (nodes two_companies) < 3
    ∧ "A" ∈ nodes two_companies
    ∧ ∃ h, h ∈ out ∧ entity h = "A" ∧ "isolated_community" ∈ risk_factors h.
Proof.
  destruct (get_high_risk_entities (stand_in quiet_run) two_companies (Finite 0.8))
    as [out|e] eqn:E; [| exfalso; vm_compute in E; discriminate E].
  assert (length (nodes two_companies) < 3) as Hsmall by (vm_compute; lia).
  assert ("A" ∈ nodes two_companies) as Hnode by decided.
  exists out. split; [reflexivity |]. split; [exact Hsmall |].
  split; [exact Hnode |].
  exact (small_graph_all_isolated (stand_in quiet_run) two_companies
           (Finite 0.8) out "A" E Hsmall Hnode).
Defined.

(** *** When the ranking fails *)

Lemma flagged_entities_total (L : Libs) `{PySetOrder Label} (G : Graph)
    (metrics : NetworkMetrics) (risk_threshold : pyfloat) :
  calculate_network_metrics L G = Ok metrics →
  ∃ flagged, flagged_entities G metrics risk_threshold = Ok flagged.
Proof.
  intros Hm.
  assert (dom (centrality_scores metrics) = list_to_set (nodes G)
          ∧ dom (community_membership metrics) = list_to_set (nodes G)
          ∧ dom (anomaly_scores metrics) = list_to_set (nodes G)) as (Hc & Hk & Ha).
  { unfold calculate_network_metrics in Hm. returns. subst metrics. simpl.
    split_and!; [by eapply centrality_metrics_dom | by eapply communities_dom
                | by eapply anomaly_scores_dom]. }
  apply for_each_returns. intros acc node Hnode.
  assert (node ∈ (list_to_set (nodes G) : gset string)) as Hin
    by (by apply elem_of_list_to_set).
  pose proof Hin as Hin1. rewrite <- Hc in Hin1.
  apply elem_of_dom in Hin1 as [c Hcn].
  pose proof Hin as Hin2. rewrite <- Hk in Hin2.
  apply elem_of_dom in Hin2 as [community_id Hkn].
  rewrite <- Ha in Hin. apply elem_of_dom in Hin as [a Han].
  assert (∃ fs, node_risk_factors metrics risk_threshold node = Ok fs) as [fs Hfs].
  { eexists. apply node_risk_factors_Ok. exists c, community_id, a.
    by split_and!. }
  rewrite Hfs. simpl. destruct (truthy fs); [| by eauto].
  apply index_Ok in Han, Hcn. rewrite Han. simpl. rewrite Hcn. simpl. eauto.
Qed.

(** X20.  [get_high_risk_entities] adds no failure of its own: it returns, at
    every threshold, whenever [calculate_network_metrics] returns, and
    when that call raises it ends with the same exception.  (The patterns
    are those of [RiskPattern], each with its ['type'].) *)
Theorem ranking_fails_with_metrics_only (L : Libs) `{PySetOrder Label}
    (G : Graph) (risk_threshold : pyfloat) :
  match calculate_network_metrics L G with
  | Ok _ => ∃ out, get_high_risk_entities L G risk_threshold = Ok out
  | Raise e => get_high_risk_entities L G risk_threshold = Raise e
  end.
Proof.
  unfold get_high_risk_entities.
  destruct (calculate_network_metrics L G) as [metrics|e] eqn:Hm; [| done].
  destruct (flagged_entities_total L G metrics risk_threshold Hm) as [flagged Hf].
  simpl. rewrite Hf. simpl. eauto.
Qed.

End AnalyzerMore.

(** ** [RealDataAnalyzer]

    [_identify_major_concerns] is the method of
    [analysis/real_data_analysis.py] that turns the metrics of
    [NetworkAnalyzer] and the findings of the two detectors into a list of
    concerns. *)

Module Report.
Import Py PyFacts Nx Analyzer AnalyzerFacts AnalyzerMore.

(** A concern dictionary.  ['count'] is a key of the circular-ownership
    concern only. *)
Record Concern := {
  concern_type : string;
  severity : string;
  concern_count : option nat;
  details : string
}.

(** A pattern of the shell-company detector is a dictionary; the method
    reads ['type'] and nothing else.  The values are strings here: a
    ['type'] that cannot be hashed, for which the set comprehension raises
    [TypeError], is not among the inputs of this model. *)
Abbreviation ShellPattern := (gmap string string).

(** [uk_analysis], as far as the method reads it: the sections that are
    dictionaries of lists.  A section that is not a dictionary, on which
    [.get] raises [AttributeError], is not among the inputs of this
    model. *)
Abbreviation UkAnalysis := (gmap string (gmap string (list string))).

(** [{p['type'] for p in shell_patterns}] *)
Definition shell_types (shell_patterns : list ShellPattern) : result (list string) :=
  for_each (λ (types : list string) (p : ShellPattern),
              ty ← index p "type"; Ok (set_add ty types))
           [] shell_patterns.

(** [uk_analysis.get(section, {}).get(key, [])] *)
Definition uk_get (uk_analysis : UkAnalysis) (section key : string) : list string :=
  default [] (default ∅ (uk_analysis !! section) !! key).

Definition circular_concern (network_metrics : NetworkMetrics) : Concern :=
  {| concern_type := "circular_ownership"; severity := "high";
     concern_count := Some (length (suspicious_cycles network_metrics));
     details := "Detected circular ownership patterns" |}.

Definition rapid_growth_concern : Concern :=
  {| concern_type := "rapid_growth_pattern"; severity := "high";
     concern_count := None;
     details := "Suspicious rapid growth of related companies" |}.

Definition complex_ownership_concern : Concern :=
  {| concern_type := "complex_ownership"; severity := "high";
     concern_count := None;
     details := "Complex ownership structures detected" |}.

Definition compliance_concern : Concern :=
  {| concern_type := "compliance_issues"; severity := "medium";
     concern_count := None;
     details := "Pattern of minimal compliance with filing requirements" |}.

Definition _identify_major_concerns (network_metrics : NetworkMetrics)
    (shell_patterns : list ShellPattern) (uk_analysis : UkAnalysis)
  : result (list Concern) :=
  let concerns := [] in
  let concerns :=
    if truthy (suspicious_cycles network_metrics)
    then concerns ++ [circular_concern network_metrics] else concerns in
  shell_types ← shell_types shell_patterns;
  let concerns :=
    if decide ("rapid_growth" ∈ shell_types)
    then concerns ++ [rapid_growth_concern] else concerns in
  let concerns :=
    if truthy (uk_get uk_analysis "psc_analysis" "complex_structures")
    then concerns ++ [complex_ownership_concern] else concerns in
  let concerns :=
    if truthy (uk_get uk_analysis "filing_patterns" "minimal_compliance")
    then concerns ++ [compliance_concern] else concerns in
  Ok concerns.

(** *** The set of shell-pattern types *)

Lemma shell_types_spec (shell_patterns : list ShellPattern) :
  match shell_types shell_patterns with
  | Ok types =>
      ∀ ty, ty ∈ types ↔ ∃ p, p ∈ shell_patterns ∧ p !! "type" = Some ty
  | Raise e =>
      e = "KeyError" ∧ ∃ p, p ∈ shell_patterns ∧ p !! "type" = None
  end.
Proof.
  unfold shell_types.
  assert (∀ l acc,
            match for_each (λ (types : list string) (p : ShellPattern),
                              ty ← index p "type"; Ok (set_add ty types)) acc l with
            | Ok types =>
                ∀ ty, ty ∈ types ↔ ty ∈ acc ∨ ∃ p, p ∈ l ∧ p !! "type" = Some ty
            | Raise e => e = "KeyError" ∧ ∃ p, p ∈ l ∧ p !! "type" = None
            end) as Hgen.
  { induction l as [|p l IH]; intros acc; cbn [for_each].
    - intros ty. split; [auto |]. intros [? | (? & []%elem_of_nil & _)]. done.
    - unfold index. destruct (p !! "type") as [ty0|] eqn:Hp; simpl.
      + specialize (IH (set_add ty0 acc)).
        destruct (for_each _ (set_add ty0 acc) l) as [types|e].
        * intros ty. rewrite IH, set_add_elem.
          setoid_rewrite elem_of_cons. split.
          -- intros [[-> | ?] | (q & ? & ?)]; eauto.
          -- intros [? | (q & [-> | ?] & Hq)]; eauto.
             left. left. congruence.
        * destruct IH as (-> & q & ? & ?). split; [done |].
          exists q. split; [by right | done].
      + split; [done |]. exists p. split; [by left | done]. }
  specialize (Hgen shell_patterns []).
  destruct (for_each _ [] shell_patterns) as [types|e]; [| done].
  intros ty. rewrite Hgen, elem_of_nil. tauto.
Qed.

(** *** Which concerns are reported *)

(** X21.  For shell patterns that are dictionaries of strings and a
    [uk_analysis] whose sections are dictionaries of lists: a pattern
    without ['type'] makes the call raise [KeyError]; and when the call
    returns, it reports each of the four concerns at most once and in the
    order circular ownership, rapid growth, complex ownership, compliance,
    the first exactly when there is a suspicious cycle, the second exactly
    when some pattern has the type ['rapid_growth'], the third and the
    fourth exactly when the list under ['complex_structures'], under
    ['minimal_compliance'], is not empty. *)
Theorem major_concerns_shape (network_metrics : NetworkMetrics)
    (shell_patterns : list ShellPattern) (uk_analysis : UkAnalysis) :
  ((∃ p, p ∈ shell_patterns ∧ p !! "type" = None) →
   _identify_major_concerns network_metrics shell_patterns uk_analysis
   = Raise "KeyError")
  ∧ ∀ concerns,
      _identify_major_concerns network_metrics shell_patterns uk_analysis
      = Ok concerns →
      sublist concerns
        [circular_concern network_metrics; rapid_growth_concern;
         complex_ownership_concern; compliance_concern]
      ∧ (circular_concern network_metrics ∈ concerns
         ↔ suspicious_cycles network_metrics ≠ [])
      ∧ (rapid_growth_concern ∈ concerns
         ↔ ∃ p, p ∈ shell_patterns ∧ p !! "type" = Some "rapid_growth")
      ∧ (complex_ownership_concern ∈ concerns
         ↔ uk_get uk_analysis "psc_analysis" "complex_structures" ≠ [])
      ∧ (compliance_concern ∈ concerns
         ↔ uk_get uk_analysis "filing_patterns" "minimal_compliance" ≠ []).
Proof.
  unfold _identify_major_concerns.
  pose proof (shell_types_spec shell_patterns) as Htypes.
  destruct (shell_types shell_patterns) as [types|e] eqn:E; simpl.
  - split.
    { intros (p & Hp & Hnone).
      destruct (for_each_steps _ _ _ _ E p Hp) as (s1 & s2 & Hstep).
      apply bind_Ok in Hstep as (ty & Hty%index_Ok & _). congruence. }
    intros concerns [= <-].
    rewrite <- (Htypes "rapid_growth").
    rewrite <- !truthy_nonempty.
    destruct (truthy (suspicious_cycles network_metrics)),
      (decide ("rapid_growth" ∈ types)),
      (truthy (uk_get uk_analysis "psc_analysis" "complex_structures")),
      (truthy (uk_get uk_analysis "filing_patterns" "minimal_compliance"));
      simpl; (split;
              [repeat first [apply sublist_nil | apply sublist_skip
                             | apply sublist_cons] |]);
      rewrite ?elem_of_cons, ?elem_of_nil; unfold circular_concern;
      repeat split; try done; try (by intros [? | ?]);
      try (by intros [? | [? | ?]]); try (by intros [? | [? | [? | ?]]]);
      try (by intros [? | [? | [? | [? | ?]]]]); auto 6.
  - destruct Htypes as [-> _]. split; [done |]. intros concerns [=].
Qed.

(** Two patterns and a filing finding: two concerns. *)
Lemma major_concerns_shape_witness :
  _identify_major_concerns
    {| centrality_scores := ∅; community_membership := ∅; risk_patterns := [];
       temporal_patterns := []; suspicious_cycles := [];
       anomaly_scores := ∅ |}
    [{["type" := "rapid_growth"]}; {["type" := "dormant"]}]
    {["filing_patterns" := {["minimal_compliance" := ["00000001"]]}]}
  = Ok [rapid_growth_concern; compliance_concern]
  ∧ rapid_growth_concern
    ∈ [rapid_growth_concern; compliance_concern].
Proof.
  assert (_identify_major_concerns
            {| centrality_scores := ∅; community_membership := ∅;
               risk_patterns := []; temporal_patterns := [];
               suspicious_cycles := []; anomaly_scores := ∅ |}
            [{["type" := "rapid_growth"]}; {["type" := "dormant"]}]
            {["filing_patterns" := {["minimal_compliance" := ["00000001"]]}]}
          = Ok [rapid_growth_concern; compliance_concern]) as E
    by (vm_compute; reflexivity).
  split; [exact E |].
  destruct (proj2 (major_concerns_shape _ _ _) _ E) as (_ & _ & Hrapid & _).
  apply Hrapid. exists {["type" := "rapid_growth"]}.
  split; [apply list_elem_of_here | reflexivity].
Defined.

(** X22.  Together with the analyzer: a circular-ownership concern is reported
    exactly when some simple cycle of three or more nodes has a risk above
    0.75, and its count is the number of these cycles. *)
Theorem circular_ownership_concern (L : Libs) `{PySetOrder Label} (G : Graph)
    (network_metrics : NetworkMetrics) (simple_cycles : list (list string))
    (shell_patterns : list ShellPattern) (uk_analysis : UkAnalysis)
    (concerns : list Concern) (c : Concern) :
  calculate_network_metrics L G = Ok network_metrics →
  nx_simple_cycles L G = Ok simple_cycles →
  _identify_major_concerns network_metrics shell_patterns uk_analysis = Ok concerns →
  let found := filter (λ cycle, suspicious L G cycle) simple_cycles in
  c ∈ concerns ∧ concern_type c = "circular_ownership"
  ↔ found ≠ []
    ∧ c = {| concern_type := "circular_ownership"; severity := "high";
             concern_count := Some (length found);
             details := "Detected circular ownership patterns" |}.
Proof.
  intros Hm Hcycles Hconcerns found.
  assert (suspicious_cycles network_metrics = found) as Hfound.
  { unfold calculate_network_metrics in Hm. returns. subst network_metrics. simpl.
    by eapply (detect_suspicious_cycles_filter L G simple_cycles). }
  unfold _identify_major_concerns in Hconcerns.
  apply bind_Ok in Hconcerns as (types & _ & Hconcerns).
  injection Hconcerns as <-.
  unfold circular_concern. rewrite Hfound.
  destruct (truthy found) eqn:Htruthy.
  - apply truthy_nonempty in Htruthy.
    destruct (decide ("rapid_growth" ∈ types)),
      (truthy (uk_get uk_analysis "psc_analysis" "complex_structures")),
      (truthy (uk_get uk_analysis "filing_patterns" "minimal_compliance"));
      simpl; rewrite ?elem_of_cons, elem_of_nil; split;
      try (intros [Hin Hty]; split; [done |];
           repeat destruct Hin as [-> | Hin]; done);
      intros [_ ->]; auto.
  - assert (found = []) as Hnil by (by destruct found).
    destruct (decide ("rapid_growth" ∈ types)),
      (truthy (uk_get uk_analysis "psc_analysis" "complex_structures")),
      (truthy (uk_get uk_analysis "filing_patterns" "minimal_compliance"));
      simpl; rewrite ?elem_of_cons, elem_of_nil; split;
      try (intros [Hin Hty]; exfalso;
           repeat destruct Hin as [-> | Hin]; done);
      intros [? _]; done.
Qed.

Lemma circular_ownership_concern_witness :
  ∃ network_metrics concerns,
    calculate_network_metrics
      (with_cycles (stand_in quiet_run) sample_cycles sample_cycle_risk)
      four_companies = Ok network_metrics
    ∧ _identify_major_concerns network_metrics [] ∅ = Ok concerns
    ∧ ∃ c, (c ∈ concerns ∧ concern_type c = "circular_ownership")
           ∧ concern_count c = Some 1.
Proof.
  destruct (calculate_network_metrics
              (with_cycles (stand_in quiet_run) sample_cycles sample_cycle_risk)
              four_companies) as [m|e] eqn:Em;
    [| exfalso; vm_compute in Em; discriminate Em].
  destruct (_identify_major_concerns m [] ∅) as [concerns|e] eqn:Ec;
    [| exfalso; vm_compute in Ec; discriminate Ec].
  exists m, concerns. split; [reflexivity |]. split; [exact Ec |].
  eexists. split.
  - apply (circular_ownership_concern
             (with_cycles (stand_in quiet_run) sample_cycles sample_cycle_risk)
             four_companies m sample_cycles [] ∅ concerns _ Em eq_refl Ec).
    split; [vm_compute; discriminate | reflexivity].
  - vm_compute. reflexivity.
Defined.

(** *** From the registry extract to the ranked list

    [analyze_2024_companies] builds the network with
    [build_company_network] and hands it to [NetworkAnalyzer]. *)

(** X23.  The ranked list of a network built from registry bundles names
    companies of the input only, each at most once, however often a
    company number occurs in the input. *)
Theorem built_network_ranked_once `{PySetOrder string} `{PySetOrder Label}
    (L : Libs) (companies_data : list Fetcher.Bundle)
    (risk_threshold : pyfloat) (out : list HighRisk) :
  get_high_risk_entities L (Fetcher.build_company_network companies_data)
    risk_threshold = Ok out →
  NoDup (entity <$> out)
  ∧ ∀ h, h ∈ out →
         ∃ data, data ∈ companies_data
                 ∧ Fetcher.company_number <$> Fetcher.profile data = Some (entity h).
Proof.
  intros (m & flagged & _ & Hf & ->)%get_high_risk_entities_Ok.
  pose proof (flagged_entities_sublist _ _ _ _ Hf) as Hsub.
  split.
  - rewrite sorted_desc_perm. eapply sublist_NoDup; [| exact Hsub].
    unfold nodes. rewrite FetcherMore.build_company_network_g_node.
    apply (FetcherMore.add_company_nodes_nodes empty_graph companies_data).
    constructor.
  - intros h Hh. rewrite sorted_desc_perm in Hh.
    apply FetcherMore.build_company_network_node_elem.
    apply (sublist_subseteq _ _ Hsub).
    apply list_elem_of_fmap. by exists h.
Qed.

Lemma built_network_ranked_once_witness :
  ∃ out,
    get_high_risk_entities (stand_in quiet_run)
      (@Fetcher.build_company_network insertion_order FetcherFacts.sample_data)
      (Finite 0.8) = Ok out
    ∧ NoDup (entity <$> out)
    ∧ out ≠ [].
Proof.
  destruct (get_high_risk_entities (stand_in quiet_run)
              (@Fetcher.build_company_network insertion_order
                 FetcherFacts.sample_data) (Finite 0.8))
    as [out|e] eqn:E; [| exfalso; vm_compute in E; discriminate E].
  exists out. split; [reflexivity |]. split.
  - exact (proj1 (@built_network_ranked_once insertion_order insertion_order
                    (stand_in quiet_run) FetcherFacts.sample_data
                    (Finite 0.8) out E)).
  - intros ->. vm_compute in E. discriminate E.
Defined.

End Report.

(** ** The requests of [CompaniesHouseFetcher]

    [requests.Session.get] is what the class does to the outside world.
    The session answers a request with a response or raises; what it
    answers may depend on the requests made before.  A fetch is run from
    the history of the requests made so far and extends it. *)

Module Client.
Import Py Nx Fetcher Analyzer.

Inductive Param :=
  | PStr (s : string)
  | PInt (z : Z).

Record Request := {
  url : string;
  params : list (string * Param)
}.

(** An element of the search result; [company['company_number']] is read
    without a default. *)
Record Hit := {
  hit_company_number : option string
}.

(** The decoded body of a response.  Python hands the decoded JSON on as it
    is; here each of the five readers has its own view of the body: the
    profile reader takes the whole body ([None] for one that fails
    [if profile:]), the others what [.get('items')] finds ([None] when the
    key is not there).  The bodies of this model are JSON objects whose
    ['items'], where present, is a list of objects, as the registry
    documents them; on a body of another shape ([.get] on a list,
    iteration over [null], indexing a hit that is not an object) Python
    raises [AttributeError] or [TypeError], and such bodies are not among
    the inputs of this model. *)
Record Body := {
  as_profile : option Profile;
  items_officers : option (list Officer);
  items_psc : option (list Psc);
  items_filings : option (list string);
  items_companies : option (list Hit)
}.

Record Response := {
  status_code : Z;
  (** [response.json()] *)
  json : result Body
}.

Record Session := {
  respond : list Request → Request → result Response
}.

(** A computation that makes requests. *)
Definition fetch (A : Type) : Type := list Request → result A * list Request.

Definition fetch_ret {A} (a : A) : fetch A := λ h, (Ok a, h).

Definition fetch_bind {A B} (m : fetch A) (k : A → fetch B) : fetch B :=
  λ h, match m h with
       | (Ok a, h') => k a h'
       | (Raise e, h') => (Raise e, h')
       end.

Definition lift {A} (r : result A) : fetch A := λ h, (r, h).

Notation "'do' x <- m ; k" := (fetch_bind m (λ x, k))
  (at level 10, x name, m at level 100, k at level 200).

(** [for x in l: s = f(s, x)] in a computation that makes requests. *)
Fixpoint fetch_for {X St} (f : St → X → fetch St) (s : St) (l : list X) : fetch St :=
  match l with
  | [] => fetch_ret s
  | x :: t => do s' <- f s x; fetch_for f s' t
  end.

Definition base_url : string := "https://api.company-information.service.gov.uk".

Section fetcher.
Context (S : Session).

(** [self.session.get(url, params=params)] *)
Definition session_get (r : Request) : fetch Response :=
  λ h, (respond S h r, h ++ [r]).

Definition get_company_profile (company_number : string) : fetch (option Profile) :=
  let url := base_url +:+ "/company/" +:+ company_number in
  do response <- session_get {| url := url; params := [] |};
  if decide (status_code response = 200%Z) then
    do body <- lift (json response); fetch_ret (as_profile body)
  else fetch_ret None.

Definition get_officers (company_number : string) : fetch (list Officer) :=
  let url := base_url +:+ "/company/" +:+ company_number +:+ "/officers" in
  do response <- session_get {| url := url; params := [] |};
  if decide (status_code response = 200%Z) then
    do body <- lift (json response); fetch_ret (default [] (items_officers body))
  else fetch_ret [].

Definition get_persons_with_significant_control (company_number : string)
  : fetch (list Psc) :=
  let url := base_url +:+ "/company/" +:+ company_number
             +:+ "/persons-with-significant-control" in
  do response <- session_get {| url := url; params := [] |};
  if decide (status_code response = 200%Z) then
    do body <- lift (json response); fetch_ret (default [] (items_psc body))
  else fetch_ret [].

Definition get_filing_history (company_number : string) : fetch (list string) :=
  let url := base_url +:+ "/company/" +:+ company_number +:+ "/filing-history" in
  do response <- session_get {| url := url; params := [] |};
  if decide (status_code response = 200%Z) then
    do body <- lift (json response); fetch_ret (default [] (items_filings body))
  else fetch_ret [].

(** [if incorporated_to:] for an optional string *)
Definition given (incorporated_to : option string) : option string :=
  match incorporated_to with
  | Some s => if decide (s = "") then None else Some s
  | None => None
  end.

Definition search_companies (incorporated_from : string)
    (incorporated_to : option string) (size : Z) : fetch (list Hit) :=
  let url := base_url +:+ "/advanced-search/companies" in
  let params := [("incorporated_from", PStr incorporated_from); ("size", PInt size)] in
  let params :=
    match given incorporated_to with
    | Some s => params ++ [("incorporated_to", PStr s)]
    | None => params
    end in
  do response <- session_get {| url := url; params := params |};
  if decide (status_code response = 200%Z) then
    do body <- lift (json response); fetch_ret (default [] (items_companies body))
  else fetch_ret [].

(** The entries of the dictionary literal are evaluated in the order in
    which they are written. *)
Definition get_complete_company_data (company_number : string) : fetch Bundle :=
  do v_profile <- get_company_profile company_number;
  do v_officers <- get_officers company_number;
  do v_psc <- get_persons_with_significant_control company_number;
  do v_filing_history <- get_filing_history company_number;
  fetch_ret {| profile := v_profile; officers := v_officers;
               psc := v_psc; filing_history := v_filing_history |}.

Definition get_2024_companies_sample (sample_size : Z) : fetch (list Bundle) :=
  do companies <- search_companies "2024-01-01" (Some "2024-12-31") sample_size;
  fetch_for (λ (complete_data : list Bundle) (company : Hit),
               do company_number <-
                 lift (match hit_company_number company with
                       | Some n => Ok n
                       | None => Raise "KeyError"
                       end);
               do data <- get_complete_company_data company_number;
               fetch_ret (complete_data ++ [data]))
            [] companies.

End fetcher.

(** *** The requests of a sample *)

(** The four requests of [get_complete_company_data], in their order. *)
Definition company_requests (company_number : string) : list Request :=
  [ {| url := base_url +:+ "/company/" +:+ company_number; params := [] |};
    {| url := base_url +:+ "/company/" +:+ company_number +:+ "/officers";
       params := [] |};
    {| url := base_url +:+ "/company/" +:+ company_number
              +:+ "/persons-with-significant-control";
       params := [] |};
    {| url := base_url +:+ "/company/" +:+ company_number +:+ "/filing-history";
       params := [] |} ].

(** The request of [get_2024_companies_sample] to the search. *)
Definition search_request (sample_size : Z) : Request :=
  {| url := base_url +:+ "/advanced-search/companies";
     params := [("incorporated_from", PStr "2024-01-01");
                ("size", PInt sample_size);
                ("incorporated_to", PStr "2024-12-31")] |}.

Section requests.
Context (S : Session).

(** A reader makes its one request, whatever comes of it. *)
Lemma reader_history {A} (r : Request) (read : Body → A) (none : A)
    (h : list Request) :
  snd ((do response <- session_get S r;
        if decide (status_code response = 200%Z) then
          do body <- lift (json response); fetch_ret (read body)
        else fetch_ret none) h) = h ++ [r].
Proof.
  unfold fetch_bind, session_get, lift, fetch_ret.
  destruct (respond S h r) as [response|e]; [| done].
  destruct (decide (status_code response = 200%Z)); [| done].
  by destruct (json response).
Qed.

Lemma get_company_profile_history company_number h :
  (get_company_profile S company_number h).2
  = h ++ [{| url := base_url +:+ "/company/" +:+ company_number; params := [] |}].
Proof. apply reader_history. Qed.

Lemma get_officers_history company_number h :
  (get_officers S company_number h).2
  = h ++ [{| url := base_url +:+ "/company/" +:+ company_number +:+ "/officers";
             params := [] |}].
Proof. apply (reader_history _ (λ b, default [] (items_officers b))). Qed.

Lemma get_persons_with_significant_control_history company_number h :
  (get_persons_with_significant_control S company_number h).2
  = h ++ [{| url := base_url +:+ "/company/" +:+ company_number
                    +:+ "/persons-with-significant-control";
             params := [] |}].
Proof. apply (reader_history _ (λ b, default [] (items_psc b))). Qed.

Lemma get_filing_history_history company_number h :
  (get_filing_history S company_number h).2
  = h ++ [{| url := base_url +:+ "/company/" +:+ company_number
                    +:+ "/filing-history";
             params := [] |}].
Proof. apply (reader_history _ (λ b, default [] (items_filings b))). Qed.

Lemma search_companies_history sample_size h :
  (search_companies S "2024-01-01" (Some "2024-12-31") sample_size h).2
  = h ++ [search_request sample_size].
Proof. apply (reader_history _ (λ b, default [] (items_companies b))). Qed.

Lemma get_complete_company_data_history company_number h data h' :
  get_complete_company_data S company_number h = (Ok data, h') →
  h' = h ++ company_requests company_number.
Proof.
  unfold get_complete_company_data, fetch_bind.
  destruct (get_company_profile S company_number h) as [[p|e] h1] eqn:E1; [| done].
  apply (f_equal snd) in E1. rewrite get_company_profile_history in E1.
  simpl in E1. subst h1.
  destruct (get_officers S company_number _) as [[o|e] h2] eqn:E2; [| done].
  apply (f_equal snd) in E2. rewrite get_officers_history in E2.
  simpl in E2. subst h2.
  destruct (get_persons_with_significant_control S company_number _)
    as [[q|e] h3] eqn:E3; [| done].
  apply (f_equal snd) in E3.
  rewrite get_persons_with_significant_control_history in E3.
  simpl in E3. subst h3.
  destruct (get_filing_history S company_number _) as [[f|e] h4] eqn:E4; [| done].
  apply (f_equal snd) in E4. rewrite get_filing_history_history in E4.
  simpl in E4. subst h4.
  unfold fetch_ret. intros [= _ <-].
  unfold company_requests. by rewrite <- !app_assoc.
Qed.

Lemma sample_loop_history (companies : list Hit) acc h sample h' :
  fetch_for (λ (complete_data : list Bundle) (company : Hit),
               do company_number <-
                 lift (match hit_company_number company with
                       | Some n => Ok n
                       | None => Raise "KeyError"
                       end);
               do data <- get_complete_company_data S company_number;
               fetch_ret (complete_data ++ [data]))
            acc companies h = (Ok sample, h') →
  ∃ numbers,
    hit_company_number <$> companies = Some <$> numbers
    ∧ h' = h ++ (numbers ≫= company_requests)
    ∧ length sample = length acc + length numbers.
Proof.
  revert acc h. induction companies as [|company l IH]; intros acc h;
    cbn [fetch_for].
  - unfold fetch_ret. intros [= <- <-]. exists [].
    split; [done |]. split; [by rewrite app_nil_r | simpl; lia].
  - unfold fetch_bind at 1. unfold fetch_bind at 1. unfold lift at 1.
    destruct (hit_company_number company) as [n|] eqn:Hn; [| done].
    unfold fetch_bind at 1.
    destruct (get_complete_company_data S n h) as [[data|e] h1] eqn:Hdata; [| done].
    apply get_complete_company_data_history in Hdata as ->.
    unfold fetch_ret at 1. intros Hrest.
    apply IH in Hrest as (numbers & Hnumbers & -> & Hlen).
    exists (n :: numbers). split_and!.
    + rewrite !fmap_cons, Hn. by f_equal.
    + by rewrite <- app_assoc.
    + rewrite length_app in Hlen. simpl in *. lia.
Qed.

End requests.

(** X24.  A sample that is returned has cost one request to the search and, for
    every company of the sample, the four requests for its profile, its
    officers, its PSCs and its filing history, in this order; no request
    is repeated or left out when one of them fails with a status other
    than 200. *)
Theorem sample_requests (S : Session) (sample_size : Z)
    (h h' : list Request) (sample : list Bundle) :
  get_2024_companies_sample S sample_size h = (Ok sample, h') →
  ∃ numbers,
    length numbers = length sample
    ∧ h' = h ++ search_request sample_size :: (numbers ≫= company_requests)
    ∧ length h' = length h + 1 + 4 * length sample.
Proof.
  unfold get_2024_companies_sample. unfold fetch_bind at 1.
  destruct (search_companies S "2024-01-01" (Some "2024-12-31") sample_size h)
    as [[companies|e] h1] eqn:Esearch; [| done].
  apply (f_equal snd) in Esearch. rewrite search_companies_history in Esearch.
  simpl in Esearch. subst h1. intros Hloop.
  apply sample_loop_history in Hloop as (numbers & _ & -> & Hlen).
  simpl in Hlen. exists numbers. split; [done |]. split.
  - by rewrite <- app_assoc.
  - rewrite !length_app, length_cons, length_nil, Hlen.
    assert (length (numbers ≫= company_requests) = 4 * length numbers) as ->.
    { clear. induction numbers as [|n l IH]; [done |].
      rewrite bind_cons, length_app, IH. simpl. lia. }
    lia.
Qed.

(** *** Requests that fail *)

(** What [get_complete_company_data] returns when none of its requests is
    answered with status 200. *)
Definition empty_bundle : Bundle :=
  {| profile := None; officers := []; psc := []; filing_history := [] |}.

Definition search_url : string := base_url +:+ "/advanced-search/companies".

(** Every request other than the search is answered, with a status that is
    not 200. *)
Definition companies_refused (S : Session) : Prop :=
  ∀ h r, url r ≠ search_url →
         ∃ response, respond S h r = Ok response ∧ status_code response ≠ 200%Z.

Lemma company_url_not_search (rest : string) :
  base_url +:+ "/company/" +:+ rest ≠ search_url.
Proof.
  unfold search_url. intros Heq%AnalyzerFacts.append_inj. discriminate Heq.
Qed.

Section refused.
Context (S : Session) (Hrefused : companies_refused S).

Lemma reader_refused {A} (r : Request) (read : Body → A) (none : A)
    (h : list Request) :
  url r ≠ search_url →
  (do response <- session_get S r;
   if decide (status_code response = 200%Z) then
     do body <- lift (json response); fetch_ret (read body)
   else fetch_ret none) h = (Ok none, h ++ [r]).
Proof.
  intros Hurl. destruct (Hrefused h r Hurl) as (response & Hresponse & Hstatus).
  unfold fetch_bind, session_get, fetch_ret. rewrite Hresponse.
  by rewrite decide_False.
Qed.

Lemma get_complete_company_data_refused company_number h :
  get_complete_company_data S company_number h
  = (Ok empty_bundle, h ++ company_requests company_number).
Proof.
  unfold get_complete_company_data, fetch_bind at 1.
  unfold get_company_profile. rewrite reader_refused
    by apply (company_url_not_search company_number).
  unfold fetch_bind at 1. unfold get_officers.
  rewrite (reader_refused _ (λ b, default [] (items_officers b)))
    by apply (company_url_not_search (company_number +:+ "/officers")).
  unfold fetch_bind at 1. unfold get_persons_with_significant_control.
  rewrite (reader_refused _ (λ b, default [] (items_psc b)))
    by apply (company_url_not_search
                (company_number +:+ "/persons-with-significant-control")).
  unfold fetch_bind at 1. unfold get_filing_history.
  rewrite (reader_refused _ (λ b, default [] (items_filings b)))
    by apply (company_url_not_search (company_number +:+ "/filing-history")).
  unfold fetch_ret, company_requests. by rewrite <- !app_assoc.
Qed.

Lemma sample_loop_refused (companies : list Hit) acc h :
  Forall (λ company, is_Some (hit_company_number company)) companies →
  (fetch_for (λ (complete_data : list Bundle) (company : Hit),
                do company_number <-
                  lift (match hit_company_number company with
                        | Some n => Ok n
                        | None => Raise "KeyError"
                        end);
                do data <- get_complete_company_data S company_number;
                fetch_ret (complete_data ++ [data]))
             acc companies h).1
  = Ok (acc ++ replicate (length companies) empty_bundle).
Proof.
  intros Hnumbered. revert acc h.
  induction Hnumbered as [|company l [n Hn] _ IH]; intros acc h; cbn [fetch_for].
  - unfold fetch_ret. simpl. by rewrite app_nil_r.
  - unfold fetch_bind at 1. unfold fetch_bind at 1. unfold lift at 1.
    rewrite Hn. unfold fetch_bind at 1.
    rewrite get_complete_company_data_refused. unfold fetch_ret at 1.
    rewrite IH. simpl. by rewrite <- app_assoc.
Qed.

End refused.

(** X25.  Failed requests are silent.  When the registry answers every request
    for a company with a status other than 200 (as it does when the key is
    refused or the rate limit is reached) and every company that the
    search has found has a number, the sample is returned all the same:
    it has one bundle for every company found, every bundle is empty, and
    the network built from it has no node and no edge. *)
Theorem refused_companies_leave_no_trace `{PySetOrder string} (S : Session)
    (sample_size : Z) (h : list Request) (companies : list Hit) :
  companies_refused S →
  (search_companies S "2024-01-01" (Some "2024-12-31") sample_size h).1
  = Ok companies →
  Forall (λ company, is_Some (hit_company_number company)) companies →
  (get_2024_companies_sample S sample_size h).1
  = Ok (replicate (length companies) empty_bundle)
  ∧ build_company_network (replicate (length companies) empty_bundle)
    = empty_graph.
Proof.
  intros Hrefused Hsearch Hnumbered. split.
  - unfold get_2024_companies_sample. unfold fetch_bind at 1.
    destruct (search_companies S "2024-01-01" (Some "2024-12-31") sample_size h)
      as [hits h1]. simpl in Hsearch. subst hits.
    by rewrite (sample_loop_refused S Hrefused companies [] h1 Hnumbered).
  - apply FetcherMore.build_company_network_no_profile.
    by intros data [-> _]%elem_of_replicate.
Qed.

(** A registry that finds two companies and then refuses every request. *)
Definition refusing_session : Session :=
  {| respond h r :=
       if decide (url r = search_url) then
         Ok {| status_code := 200;
               json := Ok {| as_profile := None; items_officers := None;
                             items_psc := None; items_filings := None;
                             items_companies :=
                               Some [{| hit_company_number := Some "A" |};
                                     {| hit_company_number := Some "B" |}] |} |}
       else Ok {| status_code := 429; json := Raise "JSONDecodeError" |} |}.

Lemma refusing_session_refuses : companies_refused refusing_session.
Proof.
  intros h r Hurl. eexists. split.
  - unfold refusing_session. simpl. by rewrite decide_False.
  - done.
Qed.

Lemma refused_companies_leave_no_trace_witness :
  (get_2024_companies_sample refusing_session 100 []).1
  = Ok [empty_bundle; empty_bundle]
  ∧ @build_company_network insertion_order [empty_bundle; empty_bundle]
    = empty_graph.
Proof.
  apply (@refused_companies_leave_no_trace insertion_order refusing_session 100 []
           [{| hit_company_number := Some "A" |};
            {| hit_company_number := Some "B" |}]).
  - exact refusing_session_refuses.
  - reflexivity.
  - repeat constructor; by eexists.
Defined.

Lemma sample_requests_witness :
  ∃ sample h',
    get_2024_companies_sample refusing_session 100 [] = (Ok sample, h')
    ∧ length h' = 9.
Proof.
  destruct (get_2024_companies_sample refusing_session 100 [])
    as [[sample|e] h'] eqn:E; [| exfalso; vm_compute in E; discriminate E].
  exists sample, h'. split; [reflexivity |].
  destruct (sample_requests refusing_session 100 [] h' sample E)
    as (numbers & _ & _ & ->).
  vm_compute in E. by injection E as <- _.
Defined.

(** *** The exceptions of a sample *)

(** The session answers every request, and the body of every answer with
    status 200 decodes to a body of the shape described at [Body]. *)
Definition well_behaved (S : Session) : Prop :=
  ∀ h r, ∃ response,
    respond S h r = Ok response
    ∧ (status_code response = 200%Z → ∃ body, json response = Ok body).

Section total.
Context (S : Session) (Hbehaved : well_behaved S).

Lemma reader_total {A} (r : Request) (read : Body → A) (none : A)
    (h : list Request) :
  ∃ a, (do response <- session_get S r;
        if decide (status_code response = 200%Z) then
          do body <- lift (json response); fetch_ret (read body)
        else fetch_ret none) h = (Ok a, h ++ [r]).
Proof.
  destruct (Hbehaved h r) as (response & Hresponse & Hjson).
  unfold fetch_bind, session_get, lift, fetch_ret. rewrite Hresponse.
  destruct (decide (status_code response = 200%Z)) as [Hstatus|]; [| by eauto].
  destruct (Hjson Hstatus) as [body ->]. eauto.
Qed.

Lemma get_complete_company_data_total company_number h :
  ∃ data, get_complete_company_data S company_number h
          = (Ok data, h ++ company_requests company_number).
Proof.
  unfold get_complete_company_data, fetch_bind at 1.
  destruct (reader_total
              {| url := base_url +:+ "/company/" +:+ company_number;
                 params := [] |} as_profile None h) as [p Hp].
  unfold get_company_profile. rewrite Hp. unfold fetch_bind at 1.
  destruct (reader_total
              {| url := base_url +:+ "/company/" +:+ company_number +:+ "/officers";
                 params := [] |} (λ b, default [] (items_officers b)) []
              (h ++ [{| url := base_url +:+ "/company/" +:+ company_number;
                        params := [] |}])) as [o Ho].
  unfold get_officers. rewrite Ho. unfold fetch_bind at 1.
  destruct (reader_total
              {| url := base_url +:+ "/company/" +:+ company_number
                        +:+ "/persons-with-significant-control";
                 params := [] |} (λ b, default [] (items_psc b)) []
              ((h ++ [{| url := base_url +:+ "/company/" +:+ company_number;
                         params := [] |}])
               ++ [{| url := base_url +:+ "/company/" +:+ company_number
                             +:+ "/officers";
                      params := [] |}])) as [q Hq].
  unfold get_persons_with_significant_control. rewrite Hq.
  unfold fetch_bind at 1.
  destruct (reader_total
              {| url := base_url +:+ "/company/" +:+ company_number
                        +:+ "/filing-history";
                 params := [] |} (λ b, default [] (items_filings b)) []
              (((h ++ [{| url := base_url +:+ "/company/" +:+ company_number;
                          params := [] |}])
                ++ [{| url := base_url +:+ "/company/" +:+ company_number
                              +:+ "/officers";
                       params := [] |}])
               ++ [{| url := base_url +:+ "/company/" +:+ company_number
                             +:+ "/persons-with-significant-control";
                      params := [] |}])) as [f Hf].
  unfold get_filing_history. rewrite Hf.
  unfold fetch_ret, company_requests. eexists. by rewrite <- !app_assoc.
Qed.

Lemma sample_loop_total (companies : list Hit) acc h :
  match (fetch_for (λ (complete_data : list Bundle) (company : Hit),
                      do company_number <-
                        lift (match hit_company_number company with
                              | Some n => Ok n
                              | None => Raise "KeyError"
                              end);
                      do data <- get_complete_company_data S company_number;
                      fetch_ret (complete_data ++ [data]))
                   acc companies h).1 with
  | Ok sample =>
      length sample = length acc + length companies
      ∧ Forall (λ company, is_Some (hit_company_number company)) companies
  | Raise e =>
      e = "KeyError"
      ∧ Exists (λ company, hit_company_number company = None) companies
  end.
Proof.
  revert acc h. induction companies as [|company l IH]; intros acc h;
    cbn [fetch_for].
  - unfold fetch_ret. simpl. split; [lia | constructor].
  - unfold fetch_bind at 1. unfold fetch_bind at 1. unfold lift at 1.
    destruct (hit_company_number company) as [n|] eqn:Hn.
    2:{ simpl. split; [done |]. by apply Exists_cons_hd. }
    unfold fetch_bind at 1.
    destruct (get_complete_company_data_total n h) as [data ->].
    unfold fetch_ret at 1.
    specialize (IH (acc ++ [data]) (h ++ company_requests n)).
    destruct (fetch_for _ (acc ++ [data]) l (h ++ company_requests n)).1
      as [sample|e].
    + destruct IH as [Hlen Hall]. split.
      * rewrite Hlen, length_app. simpl. lia.
      * constructor; [by rewrite Hn | done].
    + destruct IH as [-> Hex]. split; [done |]. by apply Exists_cons_tl.
Qed.

End total.

(** The loop stops at the first company without a number: the bundles
    fetched so far are dropped and no further request is made. *)
Lemma sample_loop_aborts (S : Session) (before after : list Hit) (company : Hit)
    (numbers : list string) acc h :
  well_behaved S →
  hit_company_number <$> before = Some <$> numbers →
  hit_company_number company = None →
  fetch_for (λ (complete_data : list Bundle) (company : Hit),
               do company_number <-
                 lift (match hit_company_number company with
                       | Some n => Ok n
                       | None => Raise "KeyError"
                       end);
               do data <- get_complete_company_data S company_number;
               fetch_ret (complete_data ++ [data]))
            acc (before ++ company :: after) h
  = (Raise "KeyError", h ++ (numbers ≫= company_requests)).
Proof.
  intros Hbehaved Hbefore Hnone. revert numbers acc h Hbefore.
  induction before as [|c l IH]; intros numbers acc h Hbefore.
  - destruct numbers; [| done]. cbn [app fetch_for].
    unfold fetch_bind at 1. unfold fetch_bind at 1. unfold lift at 1.
    rewrite Hnone. simpl. by rewrite app_nil_r.
  - destruct numbers as [|n numbers]; [done |].
    rewrite !fmap_cons in Hbefore. injection Hbefore as Hc Hbefore.
    rewrite <- app_comm_cons. cbn [fetch_for].
    unfold fetch_bind at 1. unfold fetch_bind at 1. unfold lift at 1.
    rewrite Hc. unfold fetch_bind at 1.
    destruct (get_complete_company_data_total S Hbehaved n h) as [data ->].
    unfold fetch_ret at 1. rewrite (IH numbers _ _ Hbefore).
    by rewrite bind_cons, <- app_assoc.
Qed.

(** X26.  With a session that answers every request with a body of the
    registry's shape: when every company that the search has found has a
    ['company_number'], [get_2024_companies_sample] returns one bundle for
    every company found; when one has none, the call ends with a
    [KeyError] at the first such company, after the search request and the
    four requests for each of the companies before it, and returns
    nothing of what it has fetched. *)
Theorem numberless_company_aborts_sample (S : Session) (sample_size : Z)
    (h : list Request) (companies : list Hit) :
  well_behaved S →
  (search_companies S "2024-01-01" (Some "2024-12-31") sample_size h).1
  = Ok companies →
  (Forall (λ company, is_Some (hit_company_number company)) companies →
   ∃ sample, (get_2024_companies_sample S sample_size h).1 = Ok sample
             ∧ length sample = length companies)
  ∧ ∀ before company after numbers,
      companies = before ++ company :: after →
      hit_company_number <$> before = Some <$> numbers →
      hit_company_number company = None →
      get_2024_companies_sample S sample_size h
      = (Raise "KeyError",
         h ++ search_request sample_size :: (numbers ≫= company_requests)).
Proof.
  intros Hbehaved Hsearch.
  assert (search_companies S "2024-01-01" (Some "2024-12-31") sample_size h
          = (Ok companies, h ++ [search_request sample_size])) as E.
  { pose proof (search_companies_history S sample_size h) as Hh.
    destruct (search_companies S "2024-01-01" (Some "2024-12-31") sample_size h)
      as [hits h1]. simpl in Hsearch, Hh. by subst hits h1. }
  unfold get_2024_companies_sample. split.
  - intros Hnumbered. unfold fetch_bind at 1. rewrite E.
    pose proof (sample_loop_total S Hbehaved companies []
                  (h ++ [search_request sample_size])) as Hloop.
    destruct (fetch_for _ [] companies (h ++ [search_request sample_size])).1
      as [sample|e].
    + exists sample. split; [done |]. by destruct Hloop as [-> _].
    + destruct Hloop as [_ Hex]. exfalso.
      apply Exists_exists in Hex as (company & Hin & Hnone).
      rewrite Forall_forall in Hnumbered.
      destruct (Hnumbered company Hin) as [n Hn]. congruence.
  - intros before company after numbers -> Hbefore Hnone.
    unfold fetch_bind at 1. rewrite E.
    rewrite (sample_loop_aborts S before after company numbers [] _
               Hbehaved Hbefore Hnone).
    by rewrite <- app_assoc.
Qed.

(** A registry that finds a company without a number. *)
Definition numberless_session : Session :=
  {| respond h r :=
       Ok {| status_code := 200;
             json := Ok {| as_profile := None; items_officers := None;
                           items_psc := None; items_filings := None;
                           items_companies :=
                             Some [{| hit_company_number := Some "A" |};
                                   {| hit_company_number := None |}] |} |} |}.

Lemma numberless_company_aborts_sample_witness :
  well_behaved numberless_session
  ∧ get_2024_companies_sample numberless_session 100 []
    = (Raise "KeyError", search_request 100 :: company_requests "A").
Proof.
  assert (well_behaved numberless_session) as Hbehaved.
  { intros h r. eexists. split; [reflexivity |]. intros _. by eexists. }
  split; [exact Hbehaved |].
  destruct (numberless_company_aborts_sample numberless_session 100 []
              [{| hit_company_number := Some "A" |};
               {| hit_company_number := None |}] Hbehaved eq_refl)
    as [_ Haborts].
  exact (Haborts [{| hit_company_number := Some "A" |}]
           {| hit_company_number := None |} [] ["A"] eq_refl eq_refl eq_refl).
Defined.

End Client.
